(** * Relay-Discord-bot: a shallow embedding of the relay engine

    The repository ships three generations of the same bot:
    - [src/bot.js]: allow-listed channels, plaintext webhook tokens;
    - [src/unnamed/part_000]: the same bot with webhook tokens encrypted
      at rest (AES-256-GCM, base64, an [enc:] format tag);
    - [src/unnamed/part_001]: relay channels, message map and rotation
      watermark kept in SQLite tables.

    The rate limiter is textually identical in the three files and is
    embedded once.  Each generation's handlers live in a module of their
    own ([AllowList], [Encrypted], [Multi]).

    How the code is read:
    - a handler is a computation in a monad of state (the database and the
      rate-limit map), recorded effects and exceptions; [await] is
      sequencing, and each handler runs to its end before the next event;
    - the chat platform, the clock and the random nonces are not part of
      the program: their answers come with the event being handled;
    - SQLite does what it is told, and rejects only an INSERT on a primary
      key that is taken; [interaction.reply] resolves;
    - logging ([console.log], [console.warn], [console.error]) is left
      out. *)

From Stdlib Require Import ZArith String Ascii List Lia Bool.
From Stdlib.Strings Require Import Byte.
From stdpp Require Import gmap strings list fin_maps sorting.

Open Scope string_scope.
Open Scope list_scope.
Open Scope Z_scope.

(** ** Constants (identical in the three files) *)

Definition RATE_LIMIT_WINDOW : Z := 60000.
Definition RATE_LIMIT_MAX : Z := 3.
Definition ROTATION_INTERVAL : Z := 86400000.

(** ** The rate limiter: [isUserRateLimited]

    [userMessageCounts] is a JS [Map] from user id to an array of
    millisecond timestamps.  [Date.now()] is an integer far below 2^53,
    so the double arithmetic of the source is exact and is written on
    [Z]. *)

Module RateLimiter.

(** [while (timestamps.length > 0 && timestamps[0] <= cutoff) timestamps.shift()] *)
Fixpoint shiftExpired (cutoff : Z) (timestamps : list Z) : list Z :=
  match timestamps with
  | [] => []
  | t :: rest =>
      if t <=? cutoff then shiftExpired cutoff rest else timestamps
  end.

(** The array the function works on: the user's entry, created empty when
    the user is not in the map yet. *)
Definition timestampsOf (userMessageCounts : gmap string (list Z))
    (userId : string) : list Z :=
  match userMessageCounts !! userId with
  | Some ts => ts
  | None => []
  end.

(** The array after the call: expired heads shifted out, then
    [timestamps.push(currentTime)]. *)
Definition windowAfter (timestamps : list Z) (currentTime : Z) : list Z :=
  shiftExpired (currentTime - RATE_LIMIT_WINDOW) timestamps ++ [currentTime].

(** [isUserRateLimited(userId)]; [currentTime] is what [Date.now()]
    returns.  The result pairs the returned boolean with the map after the
    call (the array is mutated in place). *)
Definition isUserRateLimited (userMessageCounts : gmap string (list Z))
    (userId : string) (currentTime : Z)
  : bool * gmap string (list Z) :=
  let timestamps := windowAfter (timestampsOf userMessageCounts userId) currentTime in
  (RATE_LIMIT_MAX <? Z.of_nat (length timestamps),
   <[userId := timestamps]> userMessageCounts).

(** Successive calls for one user at the given clock readings; the
    answers are returned oldest first. *)
Fixpoint checks (userMessageCounts : gmap string (list Z)) (userId : string)
    (times : list Z) : list bool * gmap string (list Z) :=
  match times with
  | [] => ([], userMessageCounts)
  | t :: rest =>
      let '(limited, m1) := isUserRateLimited userMessageCounts userId t in
      let '(answers, m2) := checks m1 userId rest in
      (limited :: answers, m2)
  end.

End RateLimiter.


(** ** Persisted state: the SQLite tables

    Every table has a TEXT PRIMARY KEY, so a table is a finite map from the
    key to the remaining columns.  [src/bot.js] and [part_000] create the
    [webhooks] table only; [part_001] creates all four. *)

Record WebhookRow := { webhookId : string; webhookToken : string }.

Record MessageMapRow := {
  webhookMessageId : string;
  mapChannelId : string;
  mapWebhookId : string;
  mapWebhookToken : string
}.

Record Db := {
  webhooks : gmap string WebhookRow;
  relay_channels : gmap string string;
  message_map : gmap string MessageMapRow;
  bot_meta : gmap string string
}.

Definition emptyDb : Db :=
  {| webhooks := ∅; relay_channels := ∅; message_map := ∅; bot_meta := ∅ |}.

(** The statements the source passes to [db.run], in the order of their
    placeholders. *)
Inductive Statement :=
  | InsertWebhook (channelId webhookId webhookToken : string)
  | UpdateWebhook (webhookId webhookToken channelId : string)
  | UpdateWebhookToken (webhookToken channelId : string)
  | DeleteWebhook (channelId : string)
  | InsertRelayChannel (guildId channelId : string)
  | DeleteRelayChannel (channelId : string)
  | InsertMessageMap
      (originalMessageId webhookMessageId channelId webhookId webhookToken : string)
  | DeleteMessageMap (originalMessageId : string)
  | ReplaceBotMeta (key value : string).

Definition withWebhooks (d : Db) (t : gmap string WebhookRow) : Db :=
  {| webhooks := t; relay_channels := relay_channels d;
     message_map := message_map d; bot_meta := bot_meta d |}.

Definition withRelayChannels (d : Db) (t : gmap string string) : Db :=
  {| webhooks := webhooks d; relay_channels := t;
     message_map := message_map d; bot_meta := bot_meta d |}.

Definition withMessageMap (d : Db) (t : gmap string MessageMapRow) : Db :=
  {| webhooks := webhooks d; relay_channels := relay_channels d;
     message_map := t; bot_meta := bot_meta d |}.

Definition withBotMeta (d : Db) (t : gmap string string) : Db :=
  {| webhooks := webhooks d; relay_channels := relay_channels d;
     message_map := message_map d; bot_meta := t |}.

(** SQLite's meaning of a statement.  [None] is the rejection with
    SQLITE_CONSTRAINT of a plain INSERT on a key that is taken; UPDATE and
    DELETE of a missing key change nothing; INSERT OR REPLACE overwrites. *)
Definition execute (s : Statement) (d : Db) : option Db :=
  match s with
  | InsertWebhook channelId wid token =>
      match webhooks d !! channelId with
      | Some _ => None
      | None =>
          Some (withWebhooks d
                  (<[channelId := {| webhookId := wid; webhookToken := token |}]> (webhooks d)))
      end
  | UpdateWebhook wid token channelId =>
      Some (withWebhooks d
              (alter (fun _ => {| webhookId := wid; webhookToken := token |})
                 channelId (webhooks d)))
  | UpdateWebhookToken token channelId =>
      Some (withWebhooks d
              (alter (fun r => {| webhookId := webhookId r; webhookToken := token |})
                 channelId (webhooks d)))
  | DeleteWebhook channelId =>
      Some (withWebhooks d (delete channelId (webhooks d)))
  | InsertRelayChannel guildId channelId =>
      match relay_channels d !! channelId with
      | Some _ => None
      | None => Some (withRelayChannels d (<[channelId := guildId]> (relay_channels d)))
      end
  | DeleteRelayChannel channelId =>
      Some (withRelayChannels d (delete channelId (relay_channels d)))
  | InsertMessageMap originalMessageId wmid channelId wid token =>
      match message_map d !! originalMessageId with
      | Some _ => None
      | None =>
          Some (withMessageMap d
                  (<[originalMessageId :=
                       {| webhookMessageId := wmid; mapChannelId := channelId;
                          mapWebhookId := wid; mapWebhookToken := token |}]>
                     (message_map d)))
      end
  | DeleteMessageMap originalMessageId =>
      Some (withMessageMap d (delete originalMessageId (message_map d)))
  | ReplaceBotMeta key value =>
      Some (withBotMeta d (<[key := value]> (bot_meta d)))
  end.

(** ** What a handler does to the outside world

    Each call on the chat platform, each [db.run] and each consultation of
    the rate limiter is recorded, in program order, in the list of effects
    of the handler run; the answer of the platform is recorded with the
    call where the code depends on it. *)

Record Payload := {
  content : option string;      (* [message || undefined] *)
  username : string;
  avatarURL : string;
  files : list string           (* [attachment ? [attachment.url] : []] *)
}.

Record Credentials := { credId : string; credToken : string }.

Inductive Effect :=
  | MessageDeleted (messageId : string) (resolved : bool)   (* message.delete() *)
  | DirectMessage (userId text : string)                    (* author.send(text) *)
  | Reply (text : string)                                   (* interaction.reply, ephemeral *)
  | FollowUp (text : string)                                (* interaction.followUp, ephemeral *)
  | RateLimitChecked (userId : string) (limited : bool)     (* isUserRateLimited(userId) *)
  | ChannelsFetch (channelId : string)                      (* client.channels.fetch *)
  | CreateWebhook (channelId name : string)                 (* channel.createWebhook *)
  | WebhookSend (c : Credentials) (p : Payload) (sent : option string)
  | WebhookEditMessage (c : Credentials) (webhookMessageId newContent : string)
  | WebhookDeleteMessage (c : Credentials) (webhookMessageId : string)
  | WebhookDelete (c : Credentials)                         (* oldWebhookClient.delete() *)
  | SetTimeout (delay : Z)
  | DbRun (s : Statement).

Inductive Error :=
  | DiscordAPIError (code : Z)
  | DecryptionError (isPlaintext : bool)
  | SqliteConstraint
  | OtherError.

(** ** The handler monad: state, effects and exceptions

    A handler runs against the database and the in-memory rate-limit map,
    appends to the list of effects, and either returns or throws.  What was
    written before a throw stays written. *)

Record World := {
  db : Db;
  userMessageCounts : gmap string (list Z);
  effects : list Effect
}.

Inductive Outcome (A : Type) :=
  | Returned (a : A)
  | Thrown (e : Error).
Arguments Returned {A} a.
Arguments Thrown {A} e.

Definition M (A : Type) : Type := World -> Outcome A * World.

#[global] Instance M_ret : MRet M := fun A a w => (Returned a, w).

#[global] Instance M_bind : MBind M := fun A B f m w =>
  match m w with
  | (Returned a, w1) => f a w1
  | (Thrown e, w1) => (Thrown e, w1)
  end.

Definition throw {A : Type} (e : Error) : M A := fun w => (Thrown e, w).

(** [try { body } catch (error) { handler }] *)
Definition try_catch {A : Type} (body : M A) (handler : Error -> M A) : M A :=
  fun w =>
    match body w with
    | (Returned a, w1) => (Returned a, w1)
    | (Thrown e, w1) => handler e w1
    end.

(** [try { body } finally { cleanup }] *)
Definition try_finally {A : Type} (body : M A) (cleanup : M unit) : M A :=
  fun w =>
    match body w with
    | (r, w1) =>
        match cleanup w1 with
        | (Returned _, w2) => (r, w2)
        | (Thrown e, w2) => (Thrown e, w2)
        end
    end.

Definition emit (e : Effect) : M unit :=
  fun w => (Returned tt,
            {| db := db w; userMessageCounts := userMessageCounts w;
               effects := effects w ++ [e] |}).

Definition getDb : M Db := fun w => (Returned (db w), w).

Definition getEffects : M (list Effect) := fun w => (Returned (effects w), w).

(** [await db.run(statement)] *)
Definition commit (s : Statement) : M unit :=
  fun w =>
    match execute s (db w) with
    | Some d => (Returned tt,
                 {| db := d; userMessageCounts := userMessageCounts w;
                    effects := effects w |})
    | None => (Thrown SqliteConstraint, w)
    end.

Definition db_run (s : Statement) : M unit :=
  emit (DbRun s);; commit s.

(** [isUserRateLimited(userId)] with [Date.now()] answering [currentTime]. *)
Definition rateLimited (userId : string) (currentTime : Z) : M bool :=
  fun w =>
    let '(limited, counts) :=
      RateLimiter.isUserRateLimited (userMessageCounts w) userId currentTime in
    (Returned limited,
     {| db := db w; userMessageCounts := counts;
        effects := effects w ++ [RateLimitChecked userId limited] |}).

(** A call that resolves or rejects as the platform decides. *)
Definition resolves (e : Effect) (ok : bool) (err : Error) : M unit :=
  emit e;; if ok then mret tt else throw err.

(** JS truthiness of a string that may be [null]/[undefined]:
    the empty string is falsy. *)
Definition truthy (s : option string) : bool :=
  match s with
  | Some x => negb (String.eqb x "")
  | None => false
  end.

(** [x || undefined] on a string. *)
Definition orUndefined (s : option string) : option string :=
  if truthy s then s else None.

(** ** Events as Discord delivers them *)

Record User := { userId : string; bot : bool; displayAvatarURL : string }.

Record Message := {
  messageId : string;
  messageChannelId : string;
  author : User;
  memberIsAdministrator : bool;   (* member.permissions.has(Administrator) *)
  memberDisplayName : string;
  messageContent : string;
  attachments : list string       (* the urls, in order *)
}.

Record Interaction := {
  isCommand : bool;
  commandName : string;
  interactionChannelId : string;
  interactionGuildId : string;
  interactionUser : User;
  interactionIsAdministrator : bool;
  interactionDisplayName : string;
  subcommand : string;                 (* options.getSubcommand() *)
  optionKanal : string;                (* options.getChannel('kanal').id *)
  optionMessage : option string;       (* options.getString('message') *)
  optionAttachment : option string     (* options.getAttachment('attachment').url *)
}.

(** The answers of [channel.createWebhook] to the successive calls one
    [getOrCreateWebhook] makes: it creates the webhook, rejects with
    something the code gives up on, or rejects with DiscordAPIError 10015
    (Unknown Webhook), on which the code calls itself again. *)
Inductive CreateAnswers :=
  | Created (newId newToken : string)
  | Rejected
  | UnknownWebhook (next : CreateAnswers).

(** What the platform answers while one message or command is relayed. *)
Record RelayAnswers := {
  deleteResolves : bool;          (* message.delete() *)
  dateNow : Z;                    (* Date.now() inside isUserRateLimited *)
  createAnswers : CreateAnswers;  (* channel.createWebhook *)
  sendAnswer : option string      (* webhookClient.send: the sent message's id *)
}.

(** What the platform answers during one rotation pass, per channel. *)
Inductive FetchAnswer :=
  | Fetched           (* client.channels.fetch resolves with the channel *)
  | FetchedNothing    (* resolves with a falsy value *)
  | FetchRejected.    (* rejects *)

Record RotationAnswers := {
  fetchAnswer : string -> FetchAnswer;
  newWebhook : string -> option (string * string);  (* channel.createWebhook: id, token *)
  passEnd : Z                                       (* Date.now() when the watermark is written *)
}.

(** The clock readings of one [scheduleRotation] call and the answers to
    the rotation pass it may run. *)
Record ScheduleAnswers := {
  nowAtStart : Z;          (* const now = Date.now() *)
  rotation : RotationAnswers;
  nowAfterRotation : Z;    (* Date.now() + ROTATION_INTERVAL *)
  nowAtDelay : Z           (* nextRotationTime - Date.now() *)
}.

(** ** Numbers and strings of the JS runtime *)

Module Js.

Definition isDigit (c : ascii) : bool :=
  let n := Z.of_nat (nat_of_ascii c) in (48 <=? n) && (n <=? 57).

Definition digitValue (c : ascii) : Z := Z.of_nat (nat_of_ascii c) - 48.

Definition digitChar (d : Z) : ascii := ascii_of_nat (Z.to_nat (48 + d)).

(** StrWhiteSpaceChar of ECMA-262 (WhiteSpace and LineTerminator), which
    [parseInt] skips at the start of its input.  A string is held as the
    bytes of its UTF-8 encoding, so the characters are told by their
    encodings.  One byte: TAB, LF, VT, FF, CR and SPACE. *)
Definition isWhiteSpace (c : ascii) : bool :=
  let n := Z.of_nat (nat_of_ascii c) in
  ((9 <=? n) && (n <=? 13)) || (n =? 32).

(** Two bytes: U+00A0 NO-BREAK SPACE (C2 A0). *)
Definition isWhiteSpace2 (c1 c2 : ascii) : bool :=
  let n1 := Z.of_nat (nat_of_ascii c1) in
  let n2 := Z.of_nat (nat_of_ascii c2) in
  (n1 =? 194) && (n2 =? 160).

(** Three bytes: U+1680 (E1 9A 80); U+2000 to U+200A (E2 80 80 to 8A);
    U+2028 and U+2029, the line and paragraph separators (E2 80 A8, A9);
    U+202F (E2 80 AF); U+205F (E2 81 9F); U+3000 (E3 80 80); and U+FEFF,
    the byte order mark (EF BB BF). *)
Definition isWhiteSpace3 (c1 c2 c3 : ascii) : bool :=
  let n1 := Z.of_nat (nat_of_ascii c1) in
  let n2 := Z.of_nat (nat_of_ascii c2) in
  let n3 := Z.of_nat (nat_of_ascii c3) in
  ((n1 =? 225) && (n2 =? 154) && (n3 =? 128))
  || ((n1 =? 226) && (n2 =? 128)
      && (((128 <=? n3) && (n3 <=? 138)) || (n3 =? 168) || (n3 =? 169) || (n3 =? 175)))
  || ((n1 =? 226) && (n2 =? 129) && (n3 =? 159))
  || ((n1 =? 227) && (n2 =? 128) && (n3 =? 128))
  || ((n1 =? 239) && (n2 =? 187) && (n3 =? 191)).

Fixpoint trimStart (s : string) : string :=
  match s with
  | String c1 rest1 =>
      if isWhiteSpace c1 then trimStart rest1
      else
        match rest1 with
        | String c2 rest2 =>
            if isWhiteSpace2 c1 c2 then trimStart rest2
            else
              match rest2 with
              | String c3 rest3 =>
                  if isWhiteSpace3 c1 c2 c3 then trimStart rest3 else s
              | EmptyString => s
              end
        | EmptyString => s
        end
  | EmptyString => s
  end.

(** The longest prefix of decimal digits, read most significant digit
    first; [acc] is [None] while no digit has been read. *)
Fixpoint parseDigits (s : string) (acc : option Z) : option Z :=
  match s with
  | String c rest =>
      if isDigit c
      then parseDigits rest (Some (10 * default 0 acc + digitValue c))
      else acc
  | EmptyString => acc
  end.

(** [parseInt(s, 10)]; [None] is NaN.  The result is exact (the source
    parses timestamps, far below 2^53). *)
Definition parseInt (s : string) : option Z :=
  match trimStart s with
  | String "-" rest => Z.opp <$> parseDigits rest None
  | String "+" rest => parseDigits rest None
  | trimmed => parseDigits trimmed None
  end.

(** The decimal digits of [n >= 0] in front of [acc]; [fuel] bounds the
    number of digits after the first. *)
Fixpoint digitsOf (fuel : nat) (n : Z) (acc : string) : string :=
  let acc' := String (digitChar (n mod 10)) acc in
  match fuel with
  | O => acc'
  | S fuel' => if n <? 10 then acc' else digitsOf fuel' (n / 10) acc'
  end.

(** [n.toString()] for an integer [n]. *)
Definition numberToString (n : Z) : string :=
  if n <? 0
  then String "-" (digitsOf (Z.to_nat (Z.log2 (- n))) (- n) "")
  else digitsOf (Z.to_nat (Z.log2 n)) n "".

End Js.

(** The text of [author.send] in [messageCreate] (the same in the three files). *)
Definition rateLimitNotice : string :=
  "Du sendest Nachrichten zu schnell. Deine letzte Nachricht wurde ignoriert.".

(** The loop [for (const webhook of allWebhooks) { ... }] of
    [rotateWebhooks], around the body of each generation; the body tells
    whether [rotatedCount] is incremented. *)
Fixpoint forEachWebhook (body : string * WebhookRow -> M bool)
    (allWebhooks : list (string * WebhookRow)) (rotatedCount : nat) : M nat :=
  match allWebhooks with
  | [] => mret rotatedCount
  | webhook :: rest =>
      rotated ← body webhook;
      forEachWebhook body rest (if (rotated : bool) then S rotatedCount else rotatedCount)
  end.

(** ** The identity manager of [src/bot.js] and [part_001]

    [getOrCreateWebhook] is the same function in the two files but for the
    name given to a new webhook ('General Webhook' in [src/bot.js], 'Relay
    Webhook' in [part_001]) and for what carries the pair it returns (a
    [WebhookClient] built from [{ id, token }], or the object itself).
    The recursion of the source is the call in the [catch] block; it is
    reached after [channel.createWebhook] rejected with code 10015, so it
    goes on with the remaining answers. *)
Fixpoint getOrCreateWebhookNamed (webhookName : string) (channelId : string)
    (answers : CreateAnswers) : M (option Credentials) :=
  try_catch
    (d ← getDb;
     match webhooks d !! channelId with
     | Some row =>
         mret (Some {| credId := webhookId row; credToken := webhookToken row |})
     | None =>
         emit (CreateWebhook channelId webhookName);;
         match answers with
         | Created newId newToken =>
             db_run (InsertWebhook channelId newId newToken);;
             mret (Some {| credId := newId; credToken := newToken |})
         | Rejected => throw OtherError
         | UnknownWebhook _ => throw (DiscordAPIError 10015)
         end
     end)
    (fun error =>
       match error, answers with
       | DiscordAPIError code, UnknownWebhook next =>
           if code =? 10015
           then db_run (DeleteWebhook channelId);;
                getOrCreateWebhookNamed webhookName channelId next
           else mret None       (* console.error; return null *)
       | _, _ => mret None      (* console.error; return null *)
       end).

(** ** [src/unnamed/part_001]: relay channels, message map, watermark *)

Module Multi.

Definition isRelayChannel (channelId : string) : M bool :=
  d ← getDb;
  mret (match relay_channels d !! channelId with
        | Some _ => true
        | None => false
        end).

Definition getOrCreateWebhook : string → CreateAnswers → M (option Credentials) :=
  getOrCreateWebhookNamed "Relay Webhook".

Definition sendWebhookMessage (answers : RelayAnswers)
    (message attachment : option string) (channelId name avatar : string)
  : M (option (string * Credentials)) :=
  webhookCredentials ← getOrCreateWebhook channelId (createAnswers answers);
  match webhookCredentials with
  | None => mret None
  | Some c =>
      try_catch
        (emit (WebhookSend c
                 {| content := orUndefined message;
                    username := name;
                    avatarURL := avatar;
                    files := match attachment with
                             | Some url => [url]
                             | None => []
                             end |}
                 (sendAnswer answers));;
         match sendAnswer answers with
         | Some sentMessage => mret (Some (sentMessage, c))
         | None => throw OtherError
         end)
        (fun _ => mret None)
  end.

(** [client.on('interactionCreate')] *)
Definition relayCommand (i : Interaction) : M bool :=
  if negb (interactionIsAdministrator i)
  then emit (Reply "Du hast keine Berechtigung, diesen Befehl zu verwenden.");;
       mret true
  else if String.eqb (subcommand i) "addchannel" then
    d ← getDb;
    match relay_channels d !! optionKanal i with
    | Some _ =>
        emit (Reply ("Der Kanal <#" +:+ optionKanal i +:+ "> ist bereits ein Relay-Kanal."));;
        mret true
    | None =>
        db_run (InsertRelayChannel (interactionGuildId i) (optionKanal i));;
        emit (Reply ("Der Kanal <#" +:+ optionKanal i
                     +:+ "> wurde erfolgreich als Relay-Kanal hinzugefügt."));;
        mret true
    end
  else if String.eqb (subcommand i) "removechannel" then
    d ← getDb;
    match relay_channels d !! optionKanal i with
    | None =>
        emit (Reply ("Der Kanal <#" +:+ optionKanal i +:+ "> ist kein Relay-Kanal."));;
        mret true
    | Some _ =>
        db_run (DeleteRelayChannel (optionKanal i));;
        emit (Reply ("Der Kanal <#" +:+ optionKanal i
                     +:+ "> wurde erfolgreich als Relay-Kanal entfernt."));;
        mret true
    end
  else mret false.

Definition webhookCommand (answers : RelayAnswers) (i : Interaction) : M unit :=
  relay ← isRelayChannel (interactionChannelId i);
  if negb relay
  then emit (Reply "Dieser Befehl kann in diesem Kanal nicht verwendet werden.")
  else if negb (truthy (optionMessage i)) && negb (truthy (optionAttachment i))
  then emit (Reply "Du musst entweder eine Nachricht oder einen Anhang angeben.")
  else
    emit (Reply "Deine Nachricht wird gesendet...");;
    sendWebhookMessage answers (optionMessage i) (optionAttachment i)
      (interactionChannelId i) (interactionDisplayName i)
      (displayAvatarURL (interactionUser i));;
    mret tt.

Definition interactionCreate (answers : RelayAnswers) (i : Interaction) : M unit :=
  if negb (isCommand i) then mret tt
  else
    returned ← (if String.eqb (commandName i) "relay"
                then relayCommand i
                else mret false);
    if (returned : bool) then mret tt
    else if String.eqb (commandName i) "webhook"
    then webhookCommand answers i
    else mret tt.

(** [client.on('messageCreate')] *)
Definition messageCreate (answers : RelayAnswers) (message : Message) : M unit :=
  if bot (author message) then mret tt
  else
    relay ← isRelayChannel (messageChannelId message);
    if negb relay then mret tt
    else
      try_catch
        (resolves (MessageDeleted (messageId message) (deleteResolves answers))
           (deleteResolves answers) OtherError;;
         limited ← (if memberIsAdministrator message
                    then mret false
                    else rateLimited (userId (author message)) (dateNow answers));
         if (limited : bool)
         then emit (DirectMessage (userId (author message)) rateLimitNotice)
         else
           result ← sendWebhookMessage answers
                      (Some (messageContent message)) (head (attachments message))
                      (messageChannelId message) (memberDisplayName message)
                      (displayAvatarURL (author message));
           match result with
           | Some (sentMessage, c) =>
               db_run (InsertMessageMap (messageId message) sentMessage
                         (messageChannelId message) (credId c) (credToken c))
           | None => mret tt
           end)
        (fun _ => mret tt).

Definition mappingCredentials (mapping : MessageMapRow) : Credentials :=
  {| credId := mapWebhookId mapping; credToken := mapWebhookToken mapping |}.

(** [client.on('messageUpdate')] *)
Definition messageUpdate (editResolves : bool) (newMessage : Message) : M unit :=
  if bot (author newMessage) then mret tt
  else
    d ← getDb;
    match message_map d !! messageId newMessage with
    | None => mret tt
    | Some mapping =>
        try_catch
          (resolves (WebhookEditMessage (mappingCredentials mapping)
                       (webhookMessageId mapping) (messageContent newMessage))
             editResolves OtherError)
          (fun _ => mret tt)
    end.

(** [client.on('messageDelete')] *)
Definition messageDelete (deleteMessageResolves : bool) (message : Message) : M unit :=
  d ← getDb;
  match message_map d !! messageId message with
  | None => mret tt
  | Some mapping =>
      try_finally
        (try_catch
           (resolves (WebhookDeleteMessage (mappingCredentials mapping)
                        (webhookMessageId mapping))
              deleteMessageResolves OtherError)
           (fun _ => mret tt))
        (db_run (DeleteMessageMap (messageId message)))
  end.

(** The body of the [for (const webhook of allWebhooks)] loop; the result
    tells whether [rotatedCount] was incremented. *)
Definition rotateOne (answers : RotationAnswers) (webhook : string * WebhookRow)
  : M bool :=
  let channelId := fst webhook in
  try_catch
    (emit (ChannelsFetch channelId);;
     match fetchAnswer answers channelId with
     | FetchRejected => throw OtherError
     | FetchedNothing => throw OtherError     (* new Error('Kanal nicht gefunden') *)
     | Fetched =>
         (* oldWebhookClient.delete().catch(() => {}) *)
         emit (WebhookDelete {| credId := webhookId (snd webhook);
                                credToken := webhookToken (snd webhook) |});;
         emit (CreateWebhook channelId "General Webhook");;
         match newWebhook answers channelId with
         | None => throw OtherError
         | Some (newId, newToken) =>
             db_run (UpdateWebhook newId newToken channelId);;
             mret true
         end
     end)
    (fun _ => db_run (DeleteWebhook channelId);; mret false).

Definition writeWatermark (answers : RotationAnswers) : M unit :=
  db_run (ReplaceBotMeta "lastRotationTimestamp" (Js.numberToString (passEnd answers))).

(** [rotateWebhooks()]; returns [rotatedCount] (the source logs it).  The
    SELECT has no ORDER BY: the rows come in the order SQLite visits them,
    for which [map_to_list] stands here.  What is stated of a pass below
    is stated of the rows visited up to their order. *)
Definition rotateWebhooks (answers : RotationAnswers) : M nat :=
  d ← getDb;
  let allWebhooks := map_to_list (webhooks d) in
  match allWebhooks with
  | [] => writeWatermark answers;; mret O
  | _ =>
      rotatedCount ← forEachWebhook (rotateOne answers) allWebhooks O;
      writeWatermark answers;;
      mret rotatedCount
  end.

(** [delay > 0 ? delay : 0]; a NaN delay compares false. *)
Definition timerDelay (delay : option Z) : Z :=
  match delay with
  | Some ms => if ms >? 0 then ms else 0
  | None => 0
  end.

(** [scheduleRotation()] up to and including [setTimeout]; returns
    [nextRotationTime] ([None] is NaN).  The timer's callback is
    [onTimeout] below. *)
Definition scheduleRotation (answers : ScheduleAnswers) : M (option Z) :=
  d ← getDb;
  let lastRotation := bot_meta d !! "lastRotationTimestamp" in
  let now := nowAtStart answers in
  nextRotationTime ←
    (if negb (truthy lastRotation)
     then rotateWebhooks (rotation answers);;
          mret (Some (nowAfterRotation answers + ROTATION_INTERVAL))
     else
       let lastRotationTimestamp := Js.parseInt (default "" lastRotation) in
       match lastRotationTimestamp with
       | Some last =>
           if now >=? last + ROTATION_INTERVAL
           then rotateWebhooks (rotation answers);;
                mret (Some (nowAfterRotation answers + ROTATION_INTERVAL))
           else mret (Some (last + ROTATION_INTERVAL))
       | None => mret None
       end);
  let delay := (fun t => t - nowAtDelay answers) <$> (nextRotationTime : option Z) in
  emit (SetTimeout (timerDelay delay));;
  mret nextRotationTime.

(** The callback handed to [setTimeout]. *)
Definition onTimeout (pass : RotationAnswers) (answers : ScheduleAnswers)
  : M (option Z) :=
  rotateWebhooks pass;;
  scheduleRotation answers.

(** *** The event loop *)

Inductive Event :=
  | Ready (answers : ScheduleAnswers)
  | Timeout (pass : RotationAnswers) (answers : ScheduleAnswers)
  | InteractionCreate (answers : RelayAnswers) (i : Interaction)
  | MessageCreate (answers : RelayAnswers) (message : Message)
  | MessageUpdate (editResolves : bool) (newMessage : Message)
  | MessageDelete (deleteMessageResolves : bool) (message : Message).

Definition handler (ev : Event) : M unit :=
  match ev with
  | Ready answers => scheduleRotation answers;; mret tt
  | Timeout pass answers => onTimeout pass answers;; mret tt
  | InteractionCreate answers i => interactionCreate answers i
  | MessageCreate answers message => messageCreate answers message
  | MessageUpdate editResolves newMessage => messageUpdate editResolves newMessage
  | MessageDelete deleteMessageResolves message =>
      messageDelete deleteMessageResolves message
  end.

(** One event handled to completion, from a clean list of effects.  The
    handlers of several events interleaved at their awaits are the subject
    of [Async] below. *)
Definition dispatch (ev : Event) (w : World) : World :=
  snd (handler ev {| db := db w; userMessageCounts := userMessageCounts w;
                     effects := [] |}).

(** A run of the bot: the world after the events, and for each event the
    effects of its handler. *)
Fixpoint run (evs : list Event) (w : World) : World * list (Event * list Effect) :=
  match evs with
  | [] => (w, [])
  | ev :: rest =>
      let w1 := dispatch ev w in
      let '(w2, trace) := run rest w1 in
      (w2, (ev, effects w1) :: trace)
  end.

Definition start : World :=
  {| db := emptyDb; userMessageCounts := ∅; effects := [] |}.

End Multi.

(** ** [src/bot.js]: allow-listed channels, one [webhooks] table *)

Module AllowList.

Section Config.

(** [process.env.ALLOWED_CHANNEL_IDS.split(',')] *)
Variable ALLOWED_CHANNEL_IDS : list string.

Definition includes (l : list string) (x : string) : bool :=
  existsb (String.eqb x) l.

Definition getOrCreateWebhook : string → CreateAnswers → M (option Credentials) :=
  getOrCreateWebhookNamed "General Webhook".

(** Returns nothing: this generation keeps no record of what was sent. *)
Definition sendWebhookMessage (answers : RelayAnswers)
    (message attachment : option string) (channelId name avatar : string)
  : M unit :=
  webhookClient ← getOrCreateWebhook channelId (createAnswers answers);
  match webhookClient with
  | None => mret tt
  | Some c =>
      try_catch
        (emit (WebhookSend c
                 {| content := orUndefined message;
                    username := name;
                    avatarURL := avatar;
                    files := match attachment with
                             | Some url => [url]
                             | None => []
                             end |}
                 (sendAnswer answers));;
         match sendAnswer answers with
         | Some _ => mret tt
         | None => throw OtherError
         end)
        (fun _ => mret tt)
  end.

Definition replied (effs : list Effect) : bool :=
  existsb (fun e => match e with Reply _ => true | _ => false end) effs.

(** [client.on('interactionCreate')] *)
Definition interactionCreate (answers : RelayAnswers) (i : Interaction) : M unit :=
  if negb (isCommand i) || negb (String.eqb (commandName i) "webhook")
  then mret tt
  else if negb (includes ALLOWED_CHANNEL_IDS (interactionChannelId i))
  then emit (Reply "Dieser Befehl kann in diesem Kanal nicht verwendet werden.")
  else
    try_catch
      (if negb (truthy (optionMessage i)) && negb (truthy (optionAttachment i))
       then emit (Reply "Du musst entweder eine Nachricht oder einen Anhang angeben.")
       else
         limited ← (if interactionIsAdministrator i
                    then mret false
                    else rateLimited (userId (interactionUser i)) (dateNow answers));
         if (limited : bool)
         then emit (Reply "Du sendest Befehle zu schnell. Bitte warte einen Moment.")
         else
           emit (Reply "Deine Nachricht wird gesendet...");;
           sendWebhookMessage answers (optionMessage i) (optionAttachment i)
             (interactionChannelId i) (interactionDisplayName i)
             (displayAvatarURL (interactionUser i)))
      (fun _ =>
         effs ← getEffects;
         if replied effs then mret tt
         else emit (FollowUp "Ein Fehler ist aufgetreten.")).

(** [client.on('messageCreate')] *)
Definition messageCreate (answers : RelayAnswers) (message : Message) : M unit :=
  if bot (author message)
     || negb (includes ALLOWED_CHANNEL_IDS (messageChannelId message))
  then mret tt
  else
    try_catch
      (limited ← (if memberIsAdministrator message
                  then mret false
                  else rateLimited (userId (author message)) (dateNow answers));
       if (limited : bool)
       then
         emit (DirectMessage (userId (author message)) rateLimitNotice);;
         emit (MessageDeleted (messageId message) (deleteResolves answers))
       else if negb (truthy (Some (messageContent message)))
               && (length (attachments message) =? 0)%nat
       then mret tt
       else
         sendWebhookMessage answers
           (Some (messageContent message)) (head (attachments message))
           (messageChannelId message) (memberDisplayName message)
           (displayAvatarURL (author message));;
         (* await message.delete().catch(() => {}) *)
         emit (MessageDeleted (messageId message) (deleteResolves answers)))
      (fun _ => mret tt).

End Config.

(** [rotateWebhooks()] of [src/bot.js]: the body of its loop is that of
    [part_001] word for word ([Multi.rotateOne]); it returns at once on an
    empty table and keeps no watermark. *)
Definition rotateWebhooks (answers : RotationAnswers) : M nat :=
  d ← getDb;
  match map_to_list (webhooks d) with
  | [] => mret O
  | allWebhooks => forEachWebhook (Multi.rotateOne answers) allWebhooks O
  end.

End AllowList.

(** ** [Buffer] and base64 of the Node runtime

    A [Buffer] is a list of bytes.  A JS string is held as the bytes of its
    UTF-8 encoding, so [Buffer.from(s, 'utf8')] and [buf.toString('utf8')]
    are the two readings of the same bytes (webhook tokens are ASCII). *)

Module Buffer.

Definition byteToZ (b : byte) : Z := Z.of_N (Byte.to_N b).

Definition byteOfZ (z : Z) : byte := default Byte.x00 (Byte.of_N (Z.to_N z)).

Definition alphabet : string :=
  "ABCDEFGHIJKLMNOPQRSTUVWXYZabcdefghijklmnopqrstuvwxyz0123456789+/".

Definition base64Char (sextet : Z) : ascii :=
  default "="%char (String.get (Z.to_nat sextet) alphabet).

(** The value of a base64 character; Node also takes the URL-safe [-] and
    [_]. *)
Definition unbase64 (c : ascii) : option Z :=
  let n := Z.of_nat (nat_of_ascii c) in
  if (65 <=? n) && (n <=? 90) then Some (n - 65)
  else if (97 <=? n) && (n <=? 122) then Some (n - 71)
  else if (48 <=? n) && (n <=? 57) then Some (n + 4)
  else if (n =? 43) || (n =? 45) then Some 62
  else if (n =? 47) || (n =? 95) then Some 63
  else None.

(** [buf.toString('base64')]: three bytes make four characters; one or two
    bytes left over are padded with [=]. *)
Fixpoint toBase64 (data : list byte) : string :=
  match data with
  | a :: b :: c :: rest =>
      let n := 65536 * byteToZ a + 256 * byteToZ b + byteToZ c in
      String (base64Char (n / 262144))
        (String (base64Char (n / 4096 mod 64))
           (String (base64Char (n / 64 mod 64))
              (String (base64Char (n mod 64)) (toBase64 rest))))
  | [a; b] =>
      let n := 65536 * byteToZ a + 256 * byteToZ b in
      String (base64Char (n / 262144))
        (String (base64Char (n / 4096 mod 64))
           (String (base64Char (n / 64 mod 64)) "="))
  | [a] =>
      let n := 65536 * byteToZ a in
      String (base64Char (n / 262144))
        (String (base64Char (n / 4096 mod 64)) "==")
  | [] => ""
  end.

(** The sextets of a base64 text: decoding stops at the first [=] and
    skips what is no base64 character. *)
Fixpoint sextets (text : string) : list Z :=
  match text with
  | EmptyString => []
  | String c rest =>
      if Ascii.eqb c "="%char then []
      else match unbase64 c with
           | Some v => v :: sextets rest
           | None => sextets rest
           end
  end.

Fixpoint fromSextets (l : list Z) : list byte :=
  match l with
  | s1 :: s2 :: s3 :: s4 :: rest =>
      let n := 262144 * s1 + 4096 * s2 + 64 * s3 + s4 in
      byteOfZ (n / 65536) :: byteOfZ (n / 256 mod 256) :: byteOfZ (n mod 256)
        :: fromSextets rest
  | [s1; s2; s3] =>
      let n := 262144 * s1 + 4096 * s2 + 64 * s3 in
      [byteOfZ (n / 65536); byteOfZ (n / 256 mod 256)]
  | [s1; s2] =>
      let n := 262144 * s1 + 4096 * s2 in
      [byteOfZ (n / 65536)]
  | _ => []
  end.

(** [Buffer.from(text, 'base64')] *)
Definition fromBase64 (text : string) : list byte := fromSextets (sextets text).

(** [text.slice(n)] *)
Definition slice (n : nat) (text : string) : string :=
  String.substring n (String.length text - n) text.

End Buffer.

(** ** [src/unnamed/part_000]: webhook tokens encrypted at rest *)

(** What the platform and [crypto.randomBytes(12)] answer during one
    rotation pass of [part_000], per channel. *)
Record EncryptedRotationAnswers := {
  platform : RotationAnswers;
  migrationIv : string -> list byte;   (* the nonce of ensureEncryptedToken *)
  rotationIv : string -> list byte     (* the nonce for the new webhook's token *)
}.

Module Encrypted.

Section Cipher.

(** [crypto.createHash('sha256').update(encryptionSecret).digest()] *)
Variable encryptionKey : list byte.

(** AES-256-GCM of Node's [crypto]: key, nonce and plaintext to ciphertext
    and authentication tag; key, nonce, tag and ciphertext to the
    plaintext, or nothing when [decipher] throws. *)
Variable aes256gcmEncrypt : list byte -> list byte -> list byte -> list byte * list byte.
Variable aes256gcmDecrypt :
  list byte -> list byte -> list byte -> list byte -> option (list byte).

Definition ENCRYPTED_TOKEN_PREFIX : string := "enc:".

(** [iv] is what [crypto.randomBytes(12)] returns. *)
Definition encryptWebhookToken (iv : list byte) (token : string) : string :=
  let '(ciphertext, authTag) :=
    aes256gcmEncrypt encryptionKey iv (list_byte_of_string token) in
  let payload := Buffer.toBase64 (iv ++ authTag ++ ciphertext) in
  ENCRYPTED_TOKEN_PREFIX +:+ payload.

Definition decryptWebhookToken (storedToken : string) : Outcome string :=
  if negb (String.prefix ENCRYPTED_TOKEN_PREFIX storedToken)
  then Thrown (DecryptionError true)
  else
    let data :=
      Buffer.fromBase64
        (Buffer.slice (String.length ENCRYPTED_TOKEN_PREFIX) storedToken) in
    let iv := take 12 data in
    let authTag := take 16 (drop 12 data) in
    let ciphertext := drop 28 data in
    match aes256gcmDecrypt encryptionKey iv authTag ciphertext with
    | Some decrypted => Returned (string_of_list_byte decrypted)
    | None => Thrown (DecryptionError false)
    end.

(** A pure call that may throw, inside a handler. *)
Definition run {A : Type} (o : Outcome A) : M A := fun w => (o, w).

Definition ensureEncryptedToken (channelId token : string) (iv : list byte)
  : M string :=
  let encrypted := encryptWebhookToken iv token in
  db_run (UpdateWebhookToken encrypted channelId);;
  mret encrypted.

(** The token to call the platform with, for a row that is there: the
    decrypted token; or the stored text itself when it is legacy plaintext
    (re-encrypted in place, failures of which are only logged); or nothing
    when the row could not be decrypted and was removed. *)
Definition tokenOfRow (channelId : string) (row : WebhookRow) (iv : list byte)
  : M (option string) :=
  try_catch
    (webhookToken ← run (decryptWebhookToken (webhookToken row));
     mret (Some webhookToken))
    (fun error =>
       match error with
       | DecryptionError true =>
           try_catch
             (ensureEncryptedToken channelId (webhookToken row) iv;; mret tt)
             (fun _ => mret tt);;
           mret (Some (webhookToken row))
       | _ =>
           db_run (DeleteWebhook channelId);;
           mret None
       end).

(** [getOrCreateWebhook] of [part_000].  The source calls itself in two
    places: after [channel.createWebhook] rejected with code 10015, which
    goes on with the remaining answers; and after an undecryptable row was
    deleted, where the call finds no row and takes the path [create]
    below. *)
Fixpoint getOrCreateWebhook (channelId : string) (answers : CreateAnswers)
    (migration fresh : list byte) : M (option Credentials) :=
  let create : M (option Credentials) :=
    try_catch
      (emit (CreateWebhook channelId "General Webhook");;
       match answers with
       | Created newId newToken =>
           db_run (InsertWebhook channelId newId (encryptWebhookToken fresh newToken));;
           mret (Some {| credId := newId; credToken := newToken |})
       | Rejected => throw OtherError
       | UnknownWebhook _ => throw (DiscordAPIError 10015)
       end)
      (fun error =>
         match error, answers with
         | DiscordAPIError code, UnknownWebhook next =>
             if code =? 10015
             then db_run (DeleteWebhook channelId);;
                  getOrCreateWebhook channelId next migration fresh
             else mret None
         | _, _ => mret None
         end) in
  d ← getDb;
  match webhooks d !! channelId with
  | Some row =>
      webhookToken ← tokenOfRow channelId row migration;
      match webhookToken with
      | Some token =>
          mret (Some {| credId := webhookId row; credToken := token |})
      | None => create
      end
  | None => create
  end.

(** The body of the loop of [rotateWebhooks]. *)
Definition rotateOne (answers : EncryptedRotationAnswers)
    (webhook : string * WebhookRow) : M bool :=
  let channelId := fst webhook in
  try_catch
    (emit (ChannelsFetch channelId);;
     match fetchAnswer (platform answers) channelId with
     | FetchRejected => throw OtherError
     | FetchedNothing => throw OtherError
     | Fetched =>
         webhookToken ← tokenOfRow channelId (snd webhook)
                          (migrationIv answers channelId);
         match webhookToken with
         | None => mret false                               (* continue *)
         | Some token =>
             emit (WebhookDelete {| credId := webhookId (snd webhook);
                                    credToken := token |});;
             emit (CreateWebhook channelId "General Webhook");;
             match newWebhook (platform answers) channelId with
             | None => throw OtherError
             | Some (newId, newToken) =>
                 db_run (UpdateWebhook newId
                           (encryptWebhookToken (rotationIv answers channelId) newToken)
                           channelId);;
                 mret true
             end
         end
     end)
    (fun _ => db_run (DeleteWebhook channelId);; mret false).

(** [rotateWebhooks()]: this generation keeps no watermark. *)
Definition rotateWebhooks (answers : EncryptedRotationAnswers) : M nat :=
  d ← getDb;
  forEachWebhook (rotateOne answers) (map_to_list (webhooks d)) O.

End Cipher.

End Encrypted.

(** ** [part_001] between its awaits

    In Node the handlers of several events are under way at once: a
    handler runs until it awaits, and while it waits the event loop runs
    the others.  Here each handler of [part_001] is written once more as a
    program whose steps are the operations it awaits (a query or statement
    of the database, a call of the platform); each step is one of the
    computations used above, taken whole.  [Async.complete] runs a program
    to its end without a pause, which gives the handler of [Multi] back;
    [Async.step] runs it up to its next await.  A synchronous call
    ([isUserRateLimited], [setTimeout]) and leaving a [try] block are
    steps of their own: the code runs them in one go with the await that
    follows, which is the run in which the handler is resumed again at
    once; so the runs of the code are among the runs described here. *)

Module Async.

Inductive Prog (A : Type) : Type :=
  | Ret (a : A)
  | Raise (e : Error)
  | Await {B : Type} (io : M B) (k : B -> Prog A)
  | Try {B : Type} (body : Prog B) (handler : Error -> Prog B) (k : B -> Prog A).
Arguments Ret {A} a.
Arguments Raise {A} e.
Arguments Await {A B} io k.
Arguments Try {A B} body handler k.

Fixpoint bind {A C : Type} (p : Prog A) (f : A -> Prog C) : Prog C :=
  match p with
  | Ret a => f a
  | Raise e => Raise e
  | Await io k => Await io (fun b => bind (k b) f)
  | Try body handler k => Try body handler (fun b => bind (k b) f)
  end.

#[global] Instance Prog_ret : MRet Prog := fun A a => Ret a.

#[global] Instance Prog_bind : MBind Prog := fun A B f p => bind p f.

(** [await io] *)
Definition await {B : Type} (io : M B) : Prog B := Await io Ret.

(** [try { body } catch (error) { handler }] *)
Definition tryCatch {A : Type} (body : Prog A) (handler : Error -> Prog A) : Prog A :=
  Try body handler Ret.

(** [try { body } finally { cleanup }] *)
Definition tryFinally {A : Type} (body : Prog A) (cleanup : Prog unit) : Prog A :=
  Try body (fun e => cleanup;; Raise e) (fun a => cleanup;; mret a).

(** The program up to its next await, and what is left of it.  Leaving a
    [try] block is a step that does nothing. *)
Fixpoint step {A : Type} (p : Prog A) (w : World) : Prog A * World :=
  match p with
  | Ret a => (Ret a, w)
  | Raise e => (Raise e, w)
  | Await io k =>
      match io w with
      | (Returned b, w1) => (k b, w1)
      | (Thrown e, w1) => (Raise e, w1)
      end
  | Try body handler k =>
      match body with
      | Ret b => (k b, w)
      | Raise e => (bind (handler e) k, w)
      | _ => let '(body1, w1) := step body w in (Try body1 handler k, w1)
      end
  end.

(** The program run to its end with no other handler in between. *)
Fixpoint complete {A : Type} (p : Prog A) : M A :=
  match p with
  | Ret a => mret a
  | Raise e => throw e
  | Await io k => b ← io; complete (k b)
  | Try body handler k =>
      b ← try_catch (complete body) (fun e => complete (handler e));
      complete (k b)
  end.

(** *** The handlers *)

Definition isRelayChannel (channelId : string) : Prog bool :=
  await (Multi.isRelayChannel channelId).

Fixpoint getOrCreateWebhook (channelId : string) (answers : CreateAnswers)
  : Prog (option Credentials) :=
  tryCatch
    (d ← await getDb;
     match webhooks d !! channelId with
     | Some row =>
         mret (Some {| credId := webhookId row; credToken := webhookToken row |})
     | None =>
         await (emit (CreateWebhook channelId "Relay Webhook"));;
         match answers with
         | Created newId newToken =>
             await (db_run (InsertWebhook channelId newId newToken));;
             mret (Some {| credId := newId; credToken := newToken |})
         | Rejected => Raise OtherError
         | UnknownWebhook _ => Raise (DiscordAPIError 10015)
         end
     end)
    (fun error =>
       match error, answers with
       | DiscordAPIError code, UnknownWebhook next =>
           if code =? 10015
           then await (db_run (DeleteWebhook channelId));;
                getOrCreateWebhook channelId next
           else mret None
       | _, _ => mret None
       end).

Definition sendWebhookMessage (answers : RelayAnswers)
    (message attachment : option string) (channelId name avatar : string)
  : Prog (option (string * Credentials)) :=
  webhookCredentials ← getOrCreateWebhook channelId (createAnswers answers);
  match webhookCredentials with
  | None => mret None
  | Some c =>
      tryCatch
        (await (emit (WebhookSend c
                        {| content := orUndefined message;
                           username := name;
                           avatarURL := avatar;
                           files := match attachment with
                                    | Some url => [url]
                                    | None => []
                                    end |}
                        (sendAnswer answers)));;
         match sendAnswer answers with
         | Some sentMessage => mret (Some (sentMessage, c))
         | None => Raise OtherError
         end)
        (fun _ => mret None)
  end.

Definition relayCommand (i : Interaction) : Prog bool :=
  if negb (interactionIsAdministrator i)
  then await (emit (Reply "Du hast keine Berechtigung, diesen Befehl zu verwenden."));;
       mret true
  else if String.eqb (subcommand i) "addchannel" then
    d ← await getDb;
    match relay_channels d !! optionKanal i with
    | Some _ =>
        await (emit (Reply ("Der Kanal <#" +:+ optionKanal i
                            +:+ "> ist bereits ein Relay-Kanal.")));;
        mret true
    | None =>
        await (db_run (InsertRelayChannel (interactionGuildId i) (optionKanal i)));;
        await (emit (Reply ("Der Kanal <#" +:+ optionKanal i
                            +:+ "> wurde erfolgreich als Relay-Kanal hinzugefügt.")));;
        mret true
    end
  else if String.eqb (subcommand i) "removechannel" then
    d ← await getDb;
    match relay_channels d !! optionKanal i with
    | None =>
        await (emit (Reply ("Der Kanal <#" +:+ optionKanal i
                            +:+ "> ist kein Relay-Kanal.")));;
        mret true
    | Some _ =>
        await (db_run (DeleteRelayChannel (optionKanal i)));;
        await (emit (Reply ("Der Kanal <#" +:+ optionKanal i
                            +:+ "> wurde erfolgreich als Relay-Kanal entfernt.")));;
        mret true
    end
  else mret false.

Definition webhookCommand (answers : RelayAnswers) (i : Interaction) : Prog unit :=
  relay ← isRelayChannel (interactionChannelId i);
  if negb relay
  then await (emit (Reply "Dieser Befehl kann in diesem Kanal nicht verwendet werden."))
  else if negb (truthy (optionMessage i)) && negb (truthy (optionAttachment i))
  then await (emit (Reply "Du musst entweder eine Nachricht oder einen Anhang angeben."))
  else
    await (emit (Reply "Deine Nachricht wird gesendet..."));;
    sendWebhookMessage answers (optionMessage i) (optionAttachment i)
      (interactionChannelId i) (interactionDisplayName i)
      (displayAvatarURL (interactionUser i));;
    mret tt.

(** [client.on('interactionCreate')] *)
Definition interactionCreate (answers : RelayAnswers) (i : Interaction) : Prog unit :=
  if negb (isCommand i) then mret tt
  else
    returned ← (if String.eqb (commandName i) "relay"
                then relayCommand i
                else mret false);
    if (returned : bool) then mret tt
    else if String.eqb (commandName i) "webhook"
    then webhookCommand answers i
    else mret tt.

(** [client.on('messageCreate')] *)
Definition messageCreate (answers : RelayAnswers) (message : Message) : Prog unit :=
  if bot (author message) then mret tt
  else
    relay ← isRelayChannel (messageChannelId message);
    if negb relay then mret tt
    else
      tryCatch
        (await (resolves (MessageDeleted (messageId message) (deleteResolves answers))
                  (deleteResolves answers) OtherError);;
         limited ← (if memberIsAdministrator message
                    then mret false
                    else await (rateLimited (userId (author message)) (dateNow answers)));
         if (limited : bool)
         then await (emit (DirectMessage (userId (author message)) rateLimitNotice))
         else
           result ← sendWebhookMessage answers
                      (Some (messageContent message)) (head (attachments message))
                      (messageChannelId message) (memberDisplayName message)
                      (displayAvatarURL (author message));
           match result with
           | Some (sentMessage, c) =>
               await (db_run (InsertMessageMap (messageId message) sentMessage
                                (messageChannelId message) (credId c) (credToken c)))
           | None => mret tt
           end)
        (fun _ => mret tt).

(** [client.on('messageUpdate')] *)
Definition messageUpdate (editResolves : bool) (newMessage : Message) : Prog unit :=
  if bot (author newMessage) then mret tt
  else
    d ← await getDb;
    match message_map d !! messageId newMessage with
    | None => mret tt
    | Some mapping =>
        tryCatch
          (await (resolves (WebhookEditMessage (Multi.mappingCredentials mapping)
                              (webhookMessageId mapping) (messageContent newMessage))
                    editResolves OtherError))
          (fun _ => mret tt)
    end.

(** [client.on('messageDelete')] *)
Definition messageDelete (deleteMessageResolves : bool) (message : Message) : Prog unit :=
  d ← await getDb;
  match message_map d !! messageId message with
  | None => mret tt
  | Some mapping =>
      tryFinally
        (tryCatch
           (await (resolves (WebhookDeleteMessage (Multi.mappingCredentials mapping)
                               (webhookMessageId mapping))
                     deleteMessageResolves OtherError))
           (fun _ => mret tt))
        (await (db_run (DeleteMessageMap (messageId message))))
  end.

Definition rotateOne (answers : RotationAnswers) (webhook : string * WebhookRow)
  : Prog bool :=
  let channelId := fst webhook in
  tryCatch
    (await (emit (ChannelsFetch channelId));;
     match fetchAnswer answers channelId with
     | FetchRejected => Raise OtherError
     | FetchedNothing => Raise OtherError
     | Fetched =>
         await (emit (WebhookDelete {| credId := webhookId (snd webhook);
                                       credToken := webhookToken (snd webhook) |}));;
         await (emit (CreateWebhook channelId "General Webhook"));;
         match newWebhook answers channelId with
         | None => Raise OtherError
         | Some (newId, newToken) =>
             await (db_run (UpdateWebhook newId newToken channelId));;
             mret true
         end
     end)
    (fun _ => await (db_run (DeleteWebhook channelId));; mret false).

Fixpoint forEachWebhook (body : string * WebhookRow -> Prog bool)
    (allWebhooks : list (string * WebhookRow)) (rotatedCount : nat) : Prog nat :=
  match allWebhooks with
  | [] => mret rotatedCount
  | webhook :: rest =>
      rotated ← body webhook;
      forEachWebhook body rest (if (rotated : bool) then S rotatedCount else rotatedCount)
  end.

Definition writeWatermark (answers : RotationAnswers) : Prog unit :=
  await (Multi.writeWatermark answers).

Definition rotateWebhooks (answers : RotationAnswers) : Prog nat :=
  d ← await getDb;
  let allWebhooks := map_to_list (webhooks d) in
  match allWebhooks with
  | [] => writeWatermark answers;; mret O
  | _ =>
      rotatedCount ← forEachWebhook (rotateOne answers) allWebhooks O;
      writeWatermark answers;;
      mret rotatedCount
  end.

Definition scheduleRotation (answers : ScheduleAnswers) : Prog (option Z) :=
  d ← await getDb;
  let lastRotation := bot_meta d !! "lastRotationTimestamp" in
  let now := nowAtStart answers in
  nextRotationTime ←
    (if negb (truthy lastRotation)
     then rotateWebhooks (rotation answers);;
          mret (Some (nowAfterRotation answers + ROTATION_INTERVAL))
     else
       let lastRotationTimestamp := Js.parseInt (default "" lastRotation) in
       match lastRotationTimestamp with
       | Some last =>
           if now >=? last + ROTATION_INTERVAL
           then rotateWebhooks (rotation answers);;
                mret (Some (nowAfterRotation answers + ROTATION_INTERVAL))
           else mret (Some (last + ROTATION_INTERVAL))
       | None => mret None
       end);
  let delay := (fun t => t - nowAtDelay answers) <$> (nextRotationTime : option Z) in
  await (emit (SetTimeout (Multi.timerDelay delay)));;
  mret nextRotationTime.

(** The callback handed to [setTimeout]. *)
Definition onTimeout (pass : RotationAnswers) (answers : ScheduleAnswers)
  : Prog (option Z) :=
  rotateWebhooks pass;;
  scheduleRotation answers.

Definition handler (ev : Multi.Event) : Prog unit :=
  match ev with
  | Multi.Ready answers => scheduleRotation answers;; mret tt
  | Multi.Timeout pass answers => onTimeout pass answers;; mret tt
  | Multi.InteractionCreate answers i => interactionCreate answers i
  | Multi.MessageCreate answers message => messageCreate answers message
  | Multi.MessageUpdate editResolves newMessage => messageUpdate editResolves newMessage
  | Multi.MessageDelete deleteMessageResolves message =>
      messageDelete deleteMessageResolves message
  end.

(** *** The event loop

    The handlers under way, each with the event it handles and what is
    left of it; the journal holds every effect with the handler that
    caused it, in the order of time. *)

Record Task := { origin : Multi.Event; rest : Prog unit }.

Record System := {
  world : World;
  tasks : list Task;
  journal : list (nat * Effect)
}.

(** An event arrives and its handler is started; or a handler that was
    waiting goes on up to its next await. *)
Inductive Move :=
  | Arrive (ev : Multi.Event)
  | Resume (task : nat).

Definition move (m : Move) (s : System) : System :=
  match m with
  | Arrive ev =>
      {| world := world s;
         tasks := tasks s ++ [{| origin := ev; rest := handler ev |}];
         journal := journal s |}
  | Resume t =>
      match tasks s !! t with
      | Some task =>
          let '(p, w) := step (rest task) (world s) in
          {| world := w;
             tasks := <[t := {| origin := origin task; rest := p |}]> (tasks s);
             journal := journal s
                        ++ (pair t <$> drop (length (effects (world s))) (effects w)) |}
      | None => s
      end
  end.

Definition run (moves : list Move) (s : System) : System :=
  foldl (fun s m => move m s) s moves.

Definition start : System :=
  {| world := Multi.start; tasks := []; journal := [] |}.

(** The effects of one handler, in its own order. *)
Definition ownLog (task : nat) (entries : list (nat * Effect)) : list Effect :=
  (filter (fun entry => fst entry = task) entries).*2.

(** *** The statements on [message_map], replayed *)

Definition isMapStatement (e : Effect) : bool :=
  match e with
  | DbRun (InsertMessageMap _ _ _ _ _) | DbRun (DeleteMessageMap _) => true
  | _ => false
  end.

(** What a logged statement does to the table: an INSERT on a key that is
    taken is rejected and changes nothing. *)
Definition applyToMap (table : gmap string MessageMapRow) (e : Effect)
  : gmap string MessageMapRow :=
  match e with
  | DbRun (InsertMessageMap originalMessageId wmid channelId wid token) =>
      match table !! originalMessageId with
      | Some _ => table
      | None =>
          <[originalMessageId :=
              {| webhookMessageId := wmid; mapChannelId := channelId;
                 mapWebhookId := wid; mapWebhookToken := token |}]> table
      end
  | DbRun (DeleteMessageMap originalMessageId) => delete originalMessageId table
  | _ => table
  end.

Definition replay (effs : list Effect) (table : gmap string MessageMapRow)
  : gmap string MessageMapRow :=
  foldl applyToMap table effs.

(** *** What a program may do from here on

    [wp shape p own post]: whatever the database holds when [p] resumes,
    each of its steps only appends to the effects, changes [message_map] as
    the statements it logs say, and leaves the handler's own log ([own]
    so far) in [shape]; and when [p] ends, with the outcome [r], the own
    log satisfies [post r]. *)
Fixpoint wp {A : Type} (shape : list Effect -> Prop) (p : Prog A) (own : list Effect)
    (post : Outcome A -> list Effect -> Prop) : Prop :=
  match p with
  | Ret a => post (Returned a) own
  | Raise e => post (Thrown e) own
  | Await io k =>
      forall w, exists delta,
        effects (snd (io w)) = effects w ++ delta
        /\ message_map (db (snd (io w))) = replay delta (message_map (db w))
        /\ shape (own ++ delta)
        /\ match fst (io w) with
           | Returned b => wp shape (k b) (own ++ delta) post
           | Thrown e => post (Thrown e) (own ++ delta)
           end
  | Try body handler k =>
      wp shape body own
        (fun r own1 =>
           match r with
           | Returned b => wp shape (k b) own1 post
           | Thrown e =>
               wp shape (handler e) own1
                 (fun r2 own2 =>
                    match r2 with
                    | Returned b => wp shape (k b) own2 post
                    | Thrown e2 => post (Thrown e2) own2
                    end)
           end)
  end.

(** A program all of whose steps log effects in [calm] only, none of them a
    statement on [message_map]. *)
Fixpoint quiet {A : Type} (calm : Effect -> Prop) (p : Prog A) : Prop :=
  match p with
  | Ret _ | Raise _ => True
  | Await io k =>
      (forall w, exists delta,
          effects (snd (io w)) = effects w ++ delta
          /\ message_map (db (snd (io w))) = message_map (db w)
          /\ Forall (fun e => calm e /\ isMapStatement e = false) delta)
      /\ forall b, quiet calm (k b)
  | Try body handler k =>
      quiet calm body /\ (forall e, quiet calm (handler e)) /\ forall b, quiet calm (k b)
  end.

(** The program and the computation do the same. *)
Definition agrees {A : Type} (p : Prog A) (m : M A) : Prop :=
  forall w, complete p w = m w.

End Async.

(** ** Vocabulary of the properties *)

(** A computation keeps a relation between the world before and after. *)
Definition preserves {A : Type} (R : World -> World -> Prop) (m : M A) : Prop :=
  ∀ w, R w (snd (m w)).

(** The world with more effects recorded and nothing else changed. *)
Definition recording (w : World) (more : list Effect) : World :=
  {| db := db w; userMessageCounts := userMessageCounts w;
     effects := effects w ++ more |}.

(** The effects of the identity manager: creating a webhook and writing the
    [webhooks] table. *)
Definition isIdentityEffect (e : Effect) : Prop :=
  match e with
  | CreateWebhook _ _ => True
  | DbRun (InsertWebhook _ _ _) => True
  | DbRun (DeleteWebhook _) => True
  | _ => False
  end.

(** Only the [webhooks] table may differ, and only identity effects were
    recorded. *)
Definition identityOnly (w w' : World) : Prop :=
  relay_channels (db w') = relay_channels (db w)
  ∧ message_map (db w') = message_map (db w)
  ∧ bot_meta (db w') = bot_meta (db w)
  ∧ userMessageCounts w' = userMessageCounts w
  ∧ ∃ more, effects w' = effects w ++ more ∧ Forall isIdentityEffect more.

(** The message map is what it was. *)
Definition sameMessageMap (w w' : World) : Prop :=
  message_map (db w') = message_map (db w).

(** The rate-limit map is what it was. *)
Definition sameCounts (w w' : World) : Prop :=
  userMessageCounts w' = userMessageCounts w.

(** The four steps of the relay pipeline, as they show in the effects. *)
Inductive Step := StepDelete | StepRateCheck | StepSend | StepMap.

Definition stepOf (e : Effect) : option Step :=
  match e with
  | MessageDeleted _ _ => Some StepDelete
  | RateLimitChecked _ _ => Some StepRateCheck
  | WebhookSend _ _ _ => Some StepSend
  | DbRun (InsertMessageMap _ _ _ _ _) => Some StepMap
  | _ => None
  end.

Definition steps (effs : list Effect) : list Step := omap stepOf effs.

(** The order delete, rate check, send, map. *)
Definition stepRank (s : Step) : nat :=
  match s with
  | StepDelete => 0
  | StepRateCheck => 1
  | StepSend => 2
  | StepMap => 3
  end.

(** The order [src/bot.js] has: rate check, send, delete; it never maps. *)
Definition botJsRank (s : Step) : nat :=
  match s with
  | StepRateCheck => 0
  | StepSend => 1
  | StepDelete => 2
  | StepMap => 3
  end.

(** A webhook send resolved with a sent message. *)
Definition sendReportedSuccess (effs : list Effect) : bool :=
  existsb (fun e => match e with
                    | WebhookSend _ _ (Some _) => true
                    | _ => false
                    end) effs.

(** The world of [part_001]'s [messageCreate] once the original is deleted
    and the sender is let through: an administrator is not checked, anybody
    else is checked and recorded. *)
Inductive letThrough (answers : RelayAnswers) (message : Message) (w : World)
  : World → Prop :=
  | through_administrator :
      memberIsAdministrator message = true →
      letThrough answers message w
        (recording w [MessageDeleted (messageId message) true])
  | through_under_limit counts :
      memberIsAdministrator message = false →
      RateLimiter.isUserRateLimited (userMessageCounts w)
        (userId (author message)) (dateNow answers) = (false, counts) →
      letThrough answers message w
        {| db := db w; userMessageCounts := counts;
           effects := effects w
                      ++ [MessageDeleted (messageId message) true;
                          RateLimitChecked (userId (author message)) false] |}.

(** The ways one accepted message goes through [part_001]'s
    [messageCreate], each with the world it ends in. *)
Inductive pipeline (answers : RelayAnswers) (message : Message) (w : World)
  : World → Prop :=
  | pipeline_delete_rejected :
      deleteResolves answers = false →
      pipeline answers message w
        (recording w [MessageDeleted (messageId message) false])
  | pipeline_rate_limited counts :
      deleteResolves answers = true →
      memberIsAdministrator message = false →
      RateLimiter.isUserRateLimited (userMessageCounts w)
        (userId (author message)) (dateNow answers) = (true, counts) →
      pipeline answers message w
        {| db := db w; userMessageCounts := counts;
           effects := effects w
                      ++ [MessageDeleted (messageId message) true;
                          RateLimitChecked (userId (author message)) true;
                          DirectMessage (userId (author message)) rateLimitNotice] |}
  | pipeline_no_webhook w0 w1 :
      deleteResolves answers = true →
      letThrough answers message w w0 →
      identityOnly w0 w1 →
      pipeline answers message w w1
  | pipeline_send_rejected w0 w1 c p :
      deleteResolves answers = true →
      letThrough answers message w w0 →
      identityOnly w0 w1 →
      sendAnswer answers = None →
      pipeline answers message w (recording w1 [WebhookSend c p None])
  | pipeline_sent w0 w1 c p sentMessage :
      deleteResolves answers = true →
      letThrough answers message w w0 →
      identityOnly w0 w1 →
      sendAnswer answers = Some sentMessage →
      let insert := InsertMessageMap (messageId message) sentMessage
                      (messageChannelId message) (credId c) (credToken c) in
      pipeline answers message w
        {| db := default (db w1) (execute insert (db w1));
           userMessageCounts := userMessageCounts w1;
           effects := effects w1
                      ++ [WebhookSend c p (Some sentMessage); DbRun insert] |}.

(** Every statement but the two on [message_map] leaves that table alone. *)
Definition sparesMessageMap (s : Statement) : Prop :=
  match s with
  | InsertMessageMap _ _ _ _ _ | DeleteMessageMap _ => False
  | _ => True
  end.

(** [!message.content && message.attachments.size === 0] *)
Definition nothingToRelay (message : Message) : bool :=
  negb (truthy (Some (messageContent message)))
  && (length (attachments message) =? 0)%nat.

(** The world of [src/bot.js]'s [messageCreate] once the sender is let
    through. *)
Inductive botJsLetThrough (answers : RelayAnswers) (message : Message) (w : World)
  : World → Prop :=
  | bot_js_through_administrator :
      memberIsAdministrator message = true →
      botJsLetThrough answers message w w
  | bot_js_through_under_limit counts :
      memberIsAdministrator message = false →
      RateLimiter.isUserRateLimited (userMessageCounts w)
        (userId (author message)) (dateNow answers) = (false, counts) →
      botJsLetThrough answers message w
        {| db := db w; userMessageCounts := counts;
           effects := effects w
                      ++ [RateLimitChecked (userId (author message)) false] |}.

(** The ways one accepted message goes through [src/bot.js]'s
    [messageCreate]. *)
Inductive botJsPipeline (answers : RelayAnswers) (message : Message) (w : World)
  : World → Prop :=
  | bot_js_rate_limited counts :
      memberIsAdministrator message = false →
      RateLimiter.isUserRateLimited (userMessageCounts w)
        (userId (author message)) (dateNow answers) = (true, counts) →
      botJsPipeline answers message w
        {| db := db w; userMessageCounts := counts;
           effects := effects w
                      ++ [RateLimitChecked (userId (author message)) true;
                          DirectMessage (userId (author message)) rateLimitNotice;
                          MessageDeleted (messageId message) (deleteResolves answers)] |}
  | bot_js_nothing_to_relay w0 :
      botJsLetThrough answers message w w0 →
      nothingToRelay message = true →
      botJsPipeline answers message w w0
  | bot_js_no_webhook w0 w1 :
      botJsLetThrough answers message w w0 →
      nothingToRelay message = false →
      identityOnly w0 w1 →
      botJsPipeline answers message w
        (recording w1 [MessageDeleted (messageId message) (deleteResolves answers)])
  | bot_js_send_attempted w0 w1 c p :
      botJsLetThrough answers message w w0 →
      nothingToRelay message = false →
      identityOnly w0 w1 →
      botJsPipeline answers message w
        (recording w1 [WebhookSend c p (sendAnswer answers);
                       MessageDeleted (messageId message) (deleteResolves answers)]).

(** The two things [scheduleRotation] can do: run a rotation pass at once
    and set the timer one interval after it, or only set the timer for
    [due]. *)
Definition rotateNow (answers : ScheduleAnswers) : M (option Z) :=
  Multi.rotateWebhooks (rotation answers);;
  emit (SetTimeout
          (Multi.timerDelay
             (Some (nowAfterRotation answers + ROTATION_INTERVAL - nowAtDelay answers))));;
  mret (Some (nowAfterRotation answers + ROTATION_INTERVAL)).

Definition waitUntil (due : Z) (answers : ScheduleAnswers) : M (option Z) :=
  emit (SetTimeout (Multi.timerDelay (Some (due - nowAtDelay answers))));;
  mret (Some due).

(** The process started again: the database is kept, the rate-limit map
    is empty. *)
Definition restarted (w : World) : World :=
  {| db := db w; userMessageCounts := ∅; effects := [] |}.

(** The key of the watermark in [bot_meta]. *)
Definition watermarkKey : string := "lastRotationTimestamp".

(** What a rotation pass makes of one row of [webhooks]: replaced by [Some]
    new row, or deleted. *)
Definition settle (outcome : option WebhookRow) (channelId : string)
    (table : gmap string WebhookRow) : gmap string WebhookRow :=
  match outcome with
  | Some row => alter (fun _ => row) channelId table
  | None => delete channelId table
  end.

(** The fate of a channel's row in a pass of [part_001]: the new webhook
    when the channel was fetched and the webhook created, and no row in
    every other case. *)
Definition rotatedRow (answers : RotationAnswers) (channelId : string)
  : option WebhookRow :=
  match fetchAnswer answers channelId with
  | Fetched =>
      match newWebhook answers channelId with
      | Some (newId, newToken) =>
          Some {| webhookId := newId; webhookToken := newToken |}
      | None => None
      end
  | FetchedNothing | FetchRejected => None
  end.

(** The same for [part_000], where a stored token that is neither
    decryptable nor legacy plaintext also costs the row. *)
Definition encryptedRotatedRow (encryptionKey : list byte)
    (aes256gcmEncrypt : list byte -> list byte -> list byte -> list byte * list byte)
    (aes256gcmDecrypt :
       list byte -> list byte -> list byte -> list byte -> option (list byte))
    (answers : EncryptedRotationAnswers) (channelId : string) (row : WebhookRow)
  : option WebhookRow :=
  match fetchAnswer (platform answers) channelId with
  | Fetched =>
      match Encrypted.decryptWebhookToken encryptionKey aes256gcmDecrypt
              (webhookToken row) with
      | Returned _ | Thrown (DecryptionError true) =>
          match newWebhook (platform answers) channelId with
          | Some (newId, newToken) =>
              Some {| webhookId := newId;
                      webhookToken :=
                        Encrypted.encryptWebhookToken encryptionKey aes256gcmEncrypt
                          (rotationIv answers channelId) newToken |}
          | None => None
          end
      | Thrown _ => None
      end
  | FetchedNothing | FetchRejected => None
  end.

(** The entry of a run's trace is the relay of original [id] with a send
    that reported success. *)
Definition relayedOk (id : string) (entry : Multi.Event * list Effect) : Prop :=
  match fst entry with
  | Multi.MessageCreate _ message =>
      messageId message = id ∧ sendReportedSuccess (snd entry) = true
  | _ => False
  end.

(** The entry is the handling of the deletion of original [id]. *)
Definition deletionOf (id : string) (entry : Multi.Event * list Effect) : Prop :=
  match fst entry with
  | Multi.MessageDelete _ message => messageId message = id
  | _ => False
  end.

(** Somewhere in the trace original [id] was relayed with a send that
    reported success, and no deletion of [id] was handled after that. *)
Definition relayedAndKept (id : string) (trace : list (Multi.Event * list Effect))
  : Prop :=
  ∃ before entry after,
    trace = before ++ entry :: after
    ∧ relayedOk id entry
    ∧ Forall (fun later => ¬ deletionOf id later) after.

(** ** Sample inputs *)

Module Sample.

Definition alice : User :=
  {| userId := "alice"; bot := false;
     displayAvatarURL := "https://cdn.example/alice.png" |}.

Definition root : User :=
  {| userId := "root"; bot := false;
     displayAvatarURL := "https://cdn.example/root.png" |}.

(** "hello", posted by alice (no administrator). *)
Definition original (id channel : string) : Message :=
  {| messageId := id; messageChannelId := channel; author := alice;
     memberIsAdministrator := false; memberDisplayName := "Alice";
     messageContent := "hello"; attachments := [] |}.

(** The platform does all it is asked; the webhook created on demand is
    [wh1]/[tok1] and the relayed copy gets id [sent]. *)
Definition platformOk (now : Z) (sent : string) : RelayAnswers :=
  {| deleteResolves := true; dateNow := now;
     createAnswers := Created "wh1" "tok1"; sendAnswer := Some sent |}.

(** [/relay <sub> kanal:<channel>] by an administrator. *)
Definition relay (sub channel : string) : Interaction :=
  {| isCommand := true; commandName := "relay";
     interactionChannelId := "lobby"; interactionGuildId := "guild";
     interactionUser := root; interactionIsAdministrator := true;
     interactionDisplayName := "Root"; subcommand := sub;
     optionKanal := channel; optionMessage := None;
     optionAttachment := None |}.

(** [/webhook message:<text>] by alice in [channel]. *)
Definition webhook (channel text : string) : Interaction :=
  {| isCommand := true; commandName := "webhook";
     interactionChannelId := channel; interactionGuildId := "guild";
     interactionUser := alice; interactionIsAdministrator := false;
     interactionDisplayName := "Alice"; subcommand := "";
     optionKanal := ""; optionMessage := Some text;
     optionAttachment := None |}.

(** [c1] made a relay channel, [m1] relayed there as [r1], [c1] removed
    from the relay channels again. *)
Definition afterChannelRemoved : World :=
  fst (Multi.run
         [Multi.InteractionCreate (platformOk 0 "") (relay "addchannel" "c1");
          Multi.MessageCreate (platformOk 1 "r1") (original "m1" "c1");
          Multi.InteractionCreate (platformOk 2 "") (relay "removechannel" "c1")]
         Multi.start).

(** An empty database but for relay channel [c1]. *)
Definition channelAdded : World :=
{| db := withRelayChannels emptyDb {["c1" := "guild"]};
   userMessageCounts := ∅; effects := [] |}.

(** alice posts in relay channel [c1] at 0, 1, 2 and 3 ms: three messages
    relayed, the fourth refused. *)
Definition fourMessages : list Multi.Event :=
[Multi.InteractionCreate (platformOk 0 "") (relay "addchannel" "c1");
 Multi.MessageCreate (platformOk 0 "r1") (original "m1" "c1");
 Multi.MessageCreate (platformOk 1 "r2") (original "m2" "c1");
 Multi.MessageCreate (platformOk 2 "r3") (original "m3" "c1");
 Multi.MessageCreate (platformOk 3 "r4") (original "m4" "c1")].

(** A platform on which every channel is reachable and gets the webhook
    [new]/[newtok]; the pass ends at [finished]. *)
Definition passOk (finished : Z) : RotationAnswers :=
{| fetchAnswer := fun _ => Fetched;
   newWebhook := fun _ => Some ("new", "newtok");
   passEnd := finished |}.

(** [scheduleRotation] called at [now], the clock standing still. *)
Definition scheduleAt (now : Z) : ScheduleAnswers :=
{| nowAtStart := now; rotation := passOk now;
   nowAfterRotation := now; nowAtDelay := now |}.

(** The database of a bot that last rotated at 5000 ms. *)
Definition rotatedAt5000 : World :=
{| db := withBotMeta emptyDb {[watermarkKey := "5000"]};
   userMessageCounts := ∅; effects := [] |}.

(** A stand-in for AES-256-GCM that meets its contract: the ciphertext is
    the plaintext and the tag sixteen zero bytes. *)
Definition plainCipher (key iv plaintext : list byte) : list byte * list byte :=
(plaintext, repeat Byte.x00 16).

Definition plainDecipher (key iv authTag ciphertext : list byte)
  : option (list byte) :=
Some ciphertext.

Definition nonce : list byte := repeat Byte.x2a 12.

(** One row with a legacy plaintext token. *)
Definition legacyRow : World :=
{| db := withWebhooks emptyDb
           {["c1" := {| webhookId := "wh1"; webhookToken := "legacy-token" |}]};
   userMessageCounts := ∅; effects := [] |}.

(** Rows for [c1] and [c2]. *)
Definition twoRows : World :=
{| db := withWebhooks emptyDb
           {["c1" := {| webhookId := "wh1"; webhookToken := "tok1" |};
             "c2" := {| webhookId := "wh2"; webhookToken := "tok2" |}]};
   userMessageCounts := ∅; effects := [] |}.

(** Every channel is fetched; creating the new webhook fails on [c1]. *)
Definition createFailsOnC1 : RotationAnswers :=
{| fetchAnswer := fun _ => Fetched;
   newWebhook := fun c => if String.eqb c "c1" then None else Some ("new", "newtok");
   passEnd := 9000 |}.

End Sample.

(** ** Vocabulary of the further properties *)

(** Clock readings that never go back and lie less than [gap] apart. *)
Fixpoint withinGaps (gap : Z) (times : list Z) : Prop :=
  match times with
  | t1 :: rest =>
      match rest with
      | t2 :: _ => t1 ≤ t2 < t1 + gap ∧ withinGaps gap rest
      | [] => True
      end
  | [] => True
  end.

(** The row of [webhooks] that holds the credentials [c]. *)
Definition rowOf (c : Credentials) : WebhookRow :=
  {| webhookId := credId c; webhookToken := credToken c |}.

(** A view of the world is what it was. *)
Definition keeps {B : Type} (view : World → B) (w w' : World) : Prop :=
  view w' = view w.

(** What [messageCreate] hands to [webhookClient.send] for a message. *)
Definition payloadOf (message : Message) : Payload :=
  {| content := orUndefined (Some (messageContent message));
     username := memberDisplayName message;
     avatarURL := displayAvatarURL (author message);
     files := match head (attachments message) with
              | Some url => [url]
              | None => []
              end |}.

(** Every send recorded since [w] carries the payload [p]. *)
Definition sendsOnly (p : Payload) (w w' : World) : Prop :=
  ∃ more, effects w' = effects w ++ more
          ∧ Forall (fun e => match e with
                             | WebhookSend _ q _ => q = p
                             | _ => True
                             end) more.

(** An administrator's [/relay] command. *)
Definition isRelayCommandOfAdministrator (ev : Multi.Event) : Prop :=
  match ev with
  | Multi.InteractionCreate _ i =>
      isCommand i = true ∧ commandName i = "relay"
      ∧ interactionIsAdministrator i = true
  | _ => False
  end.

(** The timers set among the effects. *)
Definition timersSet (effs : list Effect) : list Z :=
  omap (fun e => match e with SetTimeout d => Some d | _ => None end) effs.

(** The channels fetched among the effects, in order. *)
Definition channelsFetched (effs : list Effect) : list string :=
  omap (fun e => match e with ChannelsFetch c => Some c | _ => None end) effs.

(** Every row of the message map is still there, unchanged. *)
Definition mappingsKept (w w' : World) : Prop :=
  ∀ id mapping,
    message_map (db w) !! id = Some mapping →
    message_map (db w') !! id = Some mapping.

(** The rate checks recorded among the effects. *)
Definition rateChecks (effs : list Effect) : list (string * bool) :=
  omap (fun e => match e with
                 | RateLimitChecked u limited => Some (u, limited)
                 | _ => None
                 end) effs.

(** ** Further sample inputs *)

Module Cases.

(** [/relay <sub> kanal:<channel>] by alice, who is no administrator. *)
Definition relayByAlice (sub channel : string) : Interaction :=
  {| isCommand := true; commandName := "relay";
     interactionChannelId := "lobby"; interactionGuildId := "guild";
     interactionUser := Sample.alice; interactionIsAdministrator := false;
     interactionDisplayName := "Alice"; subcommand := sub;
     optionKanal := channel; optionMessage := None;
     optionAttachment := None |}.

(** "hello" with two attachments, posted by the administrator root. *)
Definition byRoot (id channel : string) : Message :=
  {| messageId := id; messageChannelId := channel; author := Sample.root;
     memberIsAdministrator := true; memberDisplayName := "Root";
     messageContent := "hello";
     attachments := ["https://cdn.example/a.png"; "https://cdn.example/b.png"] |}.

(** A message with neither text nor attachment, posted by alice. *)
Definition emptyMessage (id channel : string) : Message :=
  {| messageId := id; messageChannelId := channel; author := Sample.alice;
     memberIsAdministrator := false; memberDisplayName := "Alice";
     messageContent := ""; attachments := [] |}.

(** [/webhook message:<text>] by the administrator root in [channel]. *)
Definition webhookByRoot (channel text : string) : Interaction :=
  {| isCommand := true; commandName := "webhook";
     interactionChannelId := channel; interactionGuildId := "guild";
     interactionUser := Sample.root; interactionIsAdministrator := true;
     interactionDisplayName := "Root"; subcommand := "";
     optionKanal := ""; optionMessage := Some text;
     optionAttachment := None |}.

(** The platform refuses to delete the original. *)
Definition deleteRefused (now : Z) : RelayAnswers :=
  {| deleteResolves := false; dateNow := now;
     createAnswers := Created "wh1" "tok1"; sendAnswer := Some "r1" |}.

(** A watermark that is no number. *)
Definition brokenWatermark : World :=
  {| db := withBotMeta emptyDb {[watermarkKey := "yesterday"]};
     userMessageCounts := ∅; effects := [] |}.

(** A pass of [part_000] on a platform that does all it is asked, with the
    nonce [Sample.nonce] drawn each time. *)
Definition encryptedPassOk : EncryptedRotationAnswers :=
  {| platform := Sample.passOk 9000;
     migrationIv := fun _ => Sample.nonce;
     rotationIv := fun _ => Sample.nonce |}.

End Cases.

(** ** Vocabulary of the message map between awaits *)

Definition noSend (e : Effect) : Prop :=
  match e with
  | WebhookSend _ _ _ => False
  | _ => True
  end.

(** What a relay does before it sends: neither a webhook send nor a
    statement on [message_map]. *)
Definition prelude (e : Effect) : Prop :=
  noSend e ∧ Async.isMapStatement e = false.

Definition spared (e : Effect) : Prop := Async.isMapStatement e = false.

(** The INSERT of [part_001]:346-356 for [message], relayed as [sent] by
    the webhook [c]. *)
Definition insertOf (message : Message) (sent : string) (c : Credentials) : Effect :=
  DbRun (InsertMessageMap (messageId message) sent (messageChannelId message)
           (credId c) (credToken c)).

(** The own log of the handler of [messageCreate], at any of its awaits:
    nothing sent yet; or one send as its last effect; or one send that
    resolved, and the INSERT of its message directly after it. *)
Inductive relayLog (message : Message) : list Effect → Prop :=
  | relay_not_sent (own : list Effect) :
      Forall prelude own → relayLog message own
  | relay_sent (pre : list Effect) (c : Credentials) (p : Payload)
        (answer : option string) :
      Forall prelude pre → relayLog message (pre ++ [WebhookSend c p answer])
  | relay_mapped (pre : list Effect) (c : Credentials) (p : Payload) (sent : string) :
      Forall prelude pre →
      relayLog message (pre ++ [WebhookSend c p (Some sent); insertOf message sent c]).

(** ... and when the handler has ended: no resolved send is left without
    its INSERT. *)
Definition relayLogAtEnd (message : Message) (own : list Effect) : Prop :=
  relayLog message own
  ∧ ∀ c p sent, last own ≠ Some (WebhookSend c p (Some sent)).

(** The own log of the handler of [messageDelete], at any of its awaits:
    nothing; or the attempt to delete the relayed copy; or the attempt and
    the DELETE of the message's row. *)
Definition deletionLog (message : Message) (own : list Effect) : Prop :=
  own = []
  ∨ ∃ c relayed,
      own = [WebhookDeleteMessage c relayed]
      ∨ own = [WebhookDeleteMessage c relayed; DbRun (DeleteMessageMap (messageId message))].

Definition deletionLogAtEnd (message : Message) (own : list Effect) : Prop :=
  own = []
  ∨ ∃ c relayed,
      own = [WebhookDeleteMessage c relayed; DbRun (DeleteMessageMap (messageId message))].

Definition ownLogOf (ev : Multi.Event) : list Effect → Prop :=
  match ev with
  | Multi.MessageCreate _ message => relayLog message
  | Multi.MessageDelete _ message => deletionLog message
  | _ => Forall spared
  end.

Definition ownLogAtEnd (ev : Multi.Event) : list Effect → Prop :=
  match ev with
  | Multi.MessageCreate _ message => relayLogAtEnd message
  | Multi.MessageDelete _ message => deletionLogAtEnd message
  | _ => Forall spared
  end.

(** The log holds an INSERT of a row for [id] and no DELETE of that row
    after it. *)
Definition insertedAndKept (id : string) (log : list Effect) : Prop :=
  ∃ before sent channelId wid token after,
    log = before ++ DbRun (InsertMessageMap id sent channelId wid token) :: after
    ∧ DbRun (DeleteMessageMap id) ∉ after.

(** A handler under way keeps to the log of its event, now and in
    whatever it does when it goes on. *)
Definition onTrack (s : Async.System) (t : nat) (task : Async.Task) : Prop :=
  ownLogOf (Async.origin task) (Async.ownLog t (Async.journal s))
  ∧ Async.wp (ownLogOf (Async.origin task)) (Async.rest task)
      (Async.ownLog t (Async.journal s))
      (λ _ own, ownLogAtEnd (Async.origin task) own).

Definition consistent (s : Async.System) : Prop :=
  effects (Async.world s) = (Async.journal s).*2
  ∧ message_map (db (Async.world s)) = Async.replay (effects (Async.world s)) ∅
  ∧ (∀ entry, entry ∈ Async.journal s → (fst entry < length (Async.tasks s))%nat)
  ∧ ∀ t task, Async.tasks s !! t = Some task → onTrack s t task.

(** The schedule that the comment of [part_001]:325-327 has in mind:
    alice posts [m1] in relay channel [c1]; while the handler of
    [messageCreate] waits for the platform, the deletion of [m1] that it
    asked for arrives and is handled; then the relay is sent and mapped. *)
Definition relayWithDeletionInBetween : list Async.Move :=
  [Async.Arrive (Multi.InteractionCreate (Sample.platformOk 0 "") (Sample.relay "addchannel" "c1"));
   Async.Resume 0; Async.Resume 0; Async.Resume 0;
   Async.Arrive (Multi.MessageCreate (Sample.platformOk 1 "r1") (Sample.original "m1" "c1"));
   Async.Resume 1; Async.Resume 1;
   Async.Arrive (Multi.MessageDelete true (Sample.original "m1" "c1"));
   Async.Resume 2] ++ repeat (Async.Resume 1) 12.

(** An awaited computation that logs calm effects only and leaves
    [message_map] alone. *)
Definition quietly (calm : Effect → Prop) {B} (io : M B) : Prop :=
  ∀ w, ∃ delta,
    effects (snd (io w)) = effects w ++ delta
    ∧ message_map (db (snd (io w))) = message_map (db w)
    ∧ Forall (λ e, calm e ∧ Async.isMapStatement e = false) delta.


(** The handler has returned or thrown. *)
Definition ended {A : Type} (p : Async.Prog A) : bool :=
  match p with
  | Async.Ret _ | Async.Raise _ => true
  | _ => false
  end.

(** Resumed often enough the program ends, whatever the state it is
    resumed in each time. *)
Inductive halts {A : Type} : Async.Prog A → Prop :=
  | halts_ended (p : Async.Prog A) : ended p = true → halts p
  | halts_step (p : Async.Prog A) :
      (∀ w, halts (fst (Async.step p w))) → halts p.

(** The same relay, but the deletion of [m1] arrives only after the row
    was written: it is mirrored, and the relayed copy goes with it. *)
Definition relayWithDeletionAfterwards : list Async.Move :=
  [Async.Arrive (Multi.InteractionCreate (Sample.platformOk 0 "") (Sample.relay "addchannel" "c1"));
   Async.Resume 0; Async.Resume 0; Async.Resume 0;
   Async.Arrive (Multi.MessageCreate (Sample.platformOk 1 "r1") (Sample.original "m1" "c1"))]
  ++ repeat (Async.Resume 1) 14
  ++ [Async.Arrive (Multi.MessageDelete false (Sample.original "m1" "c1"))]
  ++ repeat (Async.Resume 2) 6.

(** * Properties *)

Example rl_four_in_window :
  fst (RateLimiter.checks ∅ "u" [0; 1; 2; 3]) = [false; false; false; true].
Proof. reflexivity. Qed.

Example rl_after_rejected :
  fst (RateLimiter.checks ∅ "u" [0; 1; 2; 3; 60000]) = [false; false; false; true; true].
Proof. reflexivity. Qed.

Example rl_after_expiry :
  fst (RateLimiter.checks ∅ "u" [0; 1; 2; 60000]) = [false; false; false; false].
Proof. reflexivity. Qed.

(** ** The rate limiter *)

Section RateLimiterFacts.

Import RateLimiter.

Lemma shiftExpired_split cutoff ts :
  ∃ dropped, ts = dropped ++ shiftExpired cutoff ts
             ∧ Forall (λ t, t ≤ cutoff) dropped.
Proof.
  induction ts as [|t rest [dropped [Heq Hall]]]; simpl.
  - exists []. split; [done | constructor].
  - destruct (Z.leb_spec t cutoff) as [Hle | Hgt].
    + exists (t :: dropped). split; [simpl; by f_equal | by constructor].
    + exists []. split; [done | constructor].
Qed.

Lemma shiftExpired_head cutoff ts t rest :
  shiftExpired cutoff ts = t :: rest → cutoff < t.
Proof.
  induction ts as [|u us IH]; simpl; [done |].
  destruct (Z.leb_spec u cutoff) as [Hle | Hgt]; [done |].
  intros [= -> _]. done.
Qed.

Lemma shiftExpired_expired_prefix cutoff expired ts :
  Forall (λ t, t ≤ cutoff) expired →
  shiftExpired cutoff (expired ++ ts) = shiftExpired cutoff ts.
Proof.
  induction 1 as [|t l Ht _ IH]; simpl; [done |].
  destruct (Z.leb_spec t cutoff); [done | lia].
Qed.

Lemma shiftExpired_keeps_live cutoff older t rest :
  cutoff < t →
  ∃ older', shiftExpired cutoff (older ++ t :: rest) = older' ++ t :: rest.
Proof.
  intros Hlive. induction older as [|u us [older' IH]]; simpl.
  - destruct (Z.leb_spec t cutoff); [lia |]. by exists [].
  - destruct (Z.leb_spec u cutoff).
    + by exists older'.
    + by exists (u :: us).
Qed.

Lemma shiftExpired_length cutoff ts :
  (length (shiftExpired cutoff ts) ≤ length ts)%nat.
Proof.
  induction ts as [|t rest IH]; simpl; [done |].
  destruct (t <=? cutoff); simpl; lia.
Qed.

Lemma shiftExpired_sorted cutoff ts :
  StronglySorted Z.le ts → StronglySorted Z.le (shiftExpired cutoff ts).
Proof.
  induction 1 as [|t rest Hrest IH Hall]; simpl; [constructor |].
  destruct (t <=? cutoff); [done | by constructor].
Qed.

(** With a clock that does not go back, the window stays sorted, oldest
    first. *)
Lemma windowAfter_sorted ts now :
  StronglySorted Z.le ts → Forall (λ t, t ≤ now) ts →
  StronglySorted Z.le (windowAfter ts now)
  ∧ Forall (λ t, t ≤ now) (windowAfter ts now).
Proof.
  intros Hsorted Hpast. unfold windowAfter.
  destruct (shiftExpired_split (now - RATE_LIMIT_WINDOW) ts) as [dropped [Heq _]].
  assert (Hkept : Forall (λ t, t ≤ now)
                    (shiftExpired (now - RATE_LIMIT_WINDOW) ts)).
  { rewrite Heq in Hpast. by apply Forall_app in Hpast as [_ ?]. }
  split.
  - apply StronglySorted_app; split_and!.
    + intros x1 x2 Hx1 ->%list_elem_of_singleton.
      by eapply Forall_forall in Hkept.
    + by apply shiftExpired_sorted.
    + repeat constructor.
  - apply Forall_app. split; [done |]. repeat constructor. lia.
Qed.

Lemma isUserRateLimited_window m userId now :
  snd (isUserRateLimited m userId now) !! userId
  = Some (windowAfter (timestampsOf m userId) now).
Proof. unfold isUserRateLimited. simpl. apply lookup_insert_eq. Qed.

Lemma isUserRateLimited_other m userId now other :
  other ≠ userId →
  snd (isUserRateLimited m userId now) !! other = m !! other.
Proof. intros Hne. unfold isUserRateLimited. simpl. by apply lookup_insert_ne. Qed.

(** So every window the limiter reaches under such a clock is sorted. *)
Lemma isUserRateLimited_keeps_sorted m userId now :
  StronglySorted Z.le (timestampsOf m userId) →
  Forall (λ t, t ≤ now) (timestampsOf m userId) →
  StronglySorted Z.le (timestampsOf (snd (isUserRateLimited m userId now)) userId)
  ∧ Forall (λ t, t ≤ now) (timestampsOf (snd (isUserRateLimited m userId now)) userId).
Proof.
  intros Hsorted Hpast.
  assert (Hafter : timestampsOf (snd (isUserRateLimited m userId now)) userId
                   = windowAfter (timestampsOf m userId) now).
  { unfold timestampsOf at 1. by rewrite isUserRateLimited_window. }
  rewrite Hafter. by apply windowAfter_sorted.
Qed.

End RateLimiterFacts.

Lemma three_recent_decide_the_fourth
    (m : gmap string (list Z)) (userId : string) (older : list Z)
    (t1 t2 t3 now : Z) :
  m !! userId = Some (older ++ [t1; t2; t3]) →
  StronglySorted Z.le (older ++ [t1; t2; t3]) →
  fst (RateLimiter.isUserRateLimited m userId now)
  = bool_decide (now - RATE_LIMIT_WINDOW < t1).
Proof.
  intros Hm Hsorted.
  unfold RateLimiter.isUserRateLimited, RateLimiter.timestampsOf,
    RateLimiter.windowAfter.
  rewrite Hm. simpl. case_bool_decide as Ht1.
  - destruct (shiftExpired_keeps_live (now - RATE_LIMIT_WINDOW) older t1 [t2; t3] Ht1)
      as [older' ->].
    rewrite !length_app. simpl. unfold RATE_LIMIT_MAX. apply Z.ltb_lt. lia.
  - assert (Hexp : Forall (λ t, t ≤ now - RATE_LIMIT_WINDOW) (older ++ [t1])).
    { apply Forall_app. split; [| repeat constructor; lia].
      apply Forall_forall. intros t Ht.
      assert (t ≤ t1); [| lia].
      eapply (StronglySorted_app_1_elem_of _ older [t1; t2; t3]); [done | done |].
      by left. }
    replace (older ++ [t1; t2; t3]) with ((older ++ [t1]) ++ [t2; t3])
      by (by rewrite <- app_assoc).
    rewrite shiftExpired_expired_prefix by done.
    pose proof (shiftExpired_length (now - RATE_LIMIT_WINDOW) [t2; t3]) as Hlen.
    rewrite length_app. simpl in *. unfold RATE_LIMIT_MAX. apply Z.ltb_ge. lia.
Qed.




(** C9.  One call of [isUserRateLimited] at clock reading [now]: the
    timestamps shifted out are exactly a prefix of entries at or before
    [now - 60000]; [now] is then pushed, whatever the answer; the answer is
    taken on the length that includes [now]; and at any later call that
    still has [now] inside its window, [now] is among the timestamps
    counted. *)
Theorem isUserRateLimited_records_before_deciding
    (m : gmap string (list Z)) (userId : string) (now later : Z) :
  let kept := RateLimiter.shiftExpired (now - 60000) (RateLimiter.timestampsOf m userId) in
  let first := RateLimiter.isUserRateLimited m userId now in
  let second := RateLimiter.isUserRateLimited (snd first) userId later in
  (∃ dropped, RateLimiter.timestampsOf m userId = dropped ++ kept
              ∧ Forall (λ t, t ≤ now - 60000) dropped
              ∧ ∀ t rest, kept = t :: rest → now - 60000 < t)
  ∧ snd first !! userId = Some (kept ++ [now])
  ∧ fst first = (3 <? Z.of_nat (length (kept ++ [now])))
  ∧ (later - 60000 < now →
     ∃ counted, snd second !! userId = Some counted
                ∧ now ∈ counted
                ∧ fst second = (3 <? Z.of_nat (length counted))).
Proof.
  intros kept first second. split_and!.
  - destruct (shiftExpired_split (now - 60000) (RateLimiter.timestampsOf m userId))
      as [dropped [Heq Hall]].
    exists dropped. split_and!; [done | done |].
    intros t rest Hk. by eapply shiftExpired_head.
  - apply isUserRateLimited_window.
  - reflexivity.
  - intros Hlive.
    exists (RateLimiter.windowAfter (kept ++ [now]) later). split_and!.
    + subst second. rewrite isUserRateLimited_window. f_equal.
      unfold RateLimiter.timestampsOf at 1.
      subst first. by rewrite isUserRateLimited_window.
    + unfold RateLimiter.windowAfter, RATE_LIMIT_WINDOW.
      destruct (shiftExpired_keeps_live (later - 60000) kept now [] Hlive)
        as [older' ->].
      set_solver.
    + subst second. unfold RateLimiter.isUserRateLimited at 1.
      unfold RateLimiter.timestampsOf at 1.
      subst first. rewrite isUserRateLimited_window. reflexivity.
Qed.

Lemma isUserRateLimited_records_before_deciding_witness :
  ∃ counted,
    snd (RateLimiter.isUserRateLimited
           (snd (RateLimiter.isUserRateLimited {["u" := [0; 1; 2]]} "u" 3)) "u" 60000)
      !! "u" = Some counted
    ∧ 3 ∈ counted
    ∧ fst (RateLimiter.isUserRateLimited
             (snd (RateLimiter.isUserRateLimited {["u" := [0; 1; 2]]} "u" 3)) "u" 60000)
      = (3 <? Z.of_nat (length counted)).
Proof.
  destruct (isUserRateLimited_records_before_deciding {["u" := [0; 1; 2]]} "u" 3 60000)
    as (_ & _ & _ & Hnext).
  apply Hnext. lia.
Defined.

#[local] Set Warnings "-clear-no-such-hyp".

(** ** Reasoning about handlers *)

Ltac unfold_M :=
  repeat (progress (unfold mbind, M_bind, mret, M_ret, try_catch, try_finally,
                      throw, emit, getDb, getEffects, db_run, commit, resolves,
                      rateLimited in *; simpl in *)).

Section Preservation.

Context (R : World → World → Prop) `{!PreOrder R}.

Lemma preserves_ret {A} (a : A) : preserves R (mret a).
Proof. intros w. simpl. reflexivity. Qed.

Lemma preserves_throw {A} (e : Error) : preserves R (@throw A e).
Proof. intros w. simpl. reflexivity. Qed.

Lemma preserves_getDb : preserves R getDb.
Proof. intros w. simpl. reflexivity. Qed.

Lemma preserves_getEffects : preserves R getEffects.
Proof. intros w. simpl. reflexivity. Qed.

Lemma preserves_bind {A B} (m : M A) (f : A → M B) :
  preserves R m → (∀ a, preserves R (f a)) → preserves R (m ≫= f).
Proof.
  intros Hm Hf w. unfold mbind, M_bind.
  specialize (Hm w). destruct (m w) as [[a | e] w1]; simpl in *; [| done].
  etrans; [exact Hm | apply Hf].
Qed.

Lemma preserves_try_catch {A} (body : M A) (handler : Error → M A) :
  preserves R body → (∀ e, preserves R (handler e)) →
  preserves R (try_catch body handler).
Proof.
  intros Hm Hf w. unfold try_catch.
  specialize (Hm w). destruct (body w) as [[a | e] w1]; simpl in *; [done |].
  etrans; [exact Hm | apply Hf].
Qed.

Lemma preserves_try_finally {A} (body : M A) (cleanup : M unit) :
  preserves R body → preserves R cleanup →
  preserves R (try_finally body cleanup).
Proof.
  intros Hm Hc w. unfold try_finally.
  specialize (Hm w). destruct (body w) as [r w1]; simpl in *.
  specialize (Hc w1). destruct (cleanup w1) as [[[] | e] w2]; simpl in *;
    by etrans.
Qed.

End Preservation.

(** Syntax-directed proof that a computation preserves a preorder: what is
    left are the primitive writes. *)
Ltac preserve_step :=
  lazymatch goal with
  | |- preserves _ (mret _) => apply preserves_ret; apply _
  | |- preserves _ (throw _) => apply preserves_throw; apply _
  | |- preserves _ getDb => apply preserves_getDb; apply _
  | |- preserves _ getEffects => apply preserves_getEffects; apply _
  | |- preserves _ (_ ≫= _) => apply preserves_bind; [apply _ | | intros ?]
  | |- preserves _ (try_catch _ _) =>
      apply preserves_try_catch; [apply _ | | intros ?]
  | |- preserves _ (try_finally _ _) => apply preserves_try_finally; [apply _ | |]
  | |- preserves _ (resolves _ _ _) => unfold resolves
  | |- preserves _ (if ?b then _ else _) => destruct b
  | |- preserves _ (match ?x with _ => _ end) => destruct x
  end.

Ltac preserve := repeat preserve_step.

#[local] Instance identityOnly_preorder : PreOrder identityOnly.
Proof.
  split.
  - intros w. repeat split; try done. exists []. by rewrite app_nil_r.
  - intros w1 w2 w3 (Hr1 & Hm1 & Hb1 & Hc1 & l1 & He1 & Hl1)
      (Hr2 & Hm2 & Hb2 & Hc2 & l2 & He2 & Hl2).
    repeat split; try congruence.
    exists (l1 ++ l2). split.
    + by rewrite He2, He1, <- app_assoc.
    + by apply Forall_app.
Qed.

#[local] Instance sameMessageMap_preorder : PreOrder sameMessageMap.
Proof.
  split; [by intros w | intros w1 w2 w3; unfold sameMessageMap; congruence].
Qed.

Lemma identityOnly_sameMessageMap w w' : identityOnly w w' → sameMessageMap w w'.
Proof. by intros (_ & ? & _). Qed.

Lemma preserves_weaken {A} (R S : World → World → Prop) (m : M A) :
  (∀ w w', R w w' → S w w') → preserves R m → preserves S m.
Proof. intros HRS Hm w. apply HRS, Hm. Qed.

Lemma identityOnly_emit e : isIdentityEffect e → preserves identityOnly (emit e).
Proof.
  intros He w. simpl. repeat split; try done.
  exists [e]. split; [done | by constructor].
Qed.

Lemma identityOnly_db_run s :
  isIdentityEffect (DbRun s) → preserves identityOnly (db_run s).
Proof.
  intros He w. unfold db_run, commit, emit, mbind, M_bind. simpl.
  destruct s; try done; simpl.
  - destruct (webhooks (db w) !! channelId); simpl;
      (repeat split; try done; exists [DbRun (InsertWebhook channelId webhookId0 webhookToken0)];
       split; [done | by constructor]).
  - repeat split; try done. exists [DbRun (DeleteWebhook channelId)].
    split; [done | by constructor].
Qed.

Lemma getOrCreateWebhook_identityOnly name channelId answers :
  preserves identityOnly (getOrCreateWebhookNamed name channelId answers).
Proof.
  induction answers as [newId newToken | | next IH]; simpl; preserve;
    try (apply identityOnly_emit; exact I);
    try (apply identityOnly_db_run; exact I);
    exact IH.
Qed.


Lemma getOrCreateWebhook_returns name channelId answers w :
  ∃ r, fst (getOrCreateWebhookNamed name channelId answers w) = Returned r.
Proof.
  revert w. induction answers as [newId newToken | | next IH]; intros w; simpl;
    unfold_M.
  - destruct (webhooks (db w) !! channelId) eqn:Hrow; simpl; [by eauto |].
    rewrite Hrow. simpl. by eauto.
  - destruct (webhooks (db w) !! channelId) eqn:Hrow; simpl; by eauto.
  - destruct (webhooks (db w) !! channelId) eqn:Hrow; simpl; [by eauto |].
    apply IH.
Qed.

(** What [sendWebhookMessage] comes back with: no webhook, a rejected send,
    or a sent message. *)
Lemma sendWebhookMessage_cases answers message attachment channelId name avatar w :
  ∃ w1, identityOnly w w1 ∧
    (Multi.sendWebhookMessage answers message attachment channelId name avatar w
       = (Returned None, w1)
     ∨ (∃ c p, sendAnswer answers = None ∧
          Multi.sendWebhookMessage answers message attachment channelId name avatar w
            = (Returned None, recording w1 [WebhookSend c p None]))
     ∨ (∃ c p sent, sendAnswer answers = Some sent ∧
          Multi.sendWebhookMessage answers message attachment channelId name avatar w
            = (Returned (Some (sent, c)), recording w1 [WebhookSend c p (Some sent)]))).
Proof.
  unfold Multi.sendWebhookMessage, Multi.getOrCreateWebhook.
  pose proof (getOrCreateWebhook_identityOnly "Relay Webhook" channelId
                (createAnswers answers) w) as Hid.
  destruct (getOrCreateWebhook_returns "Relay Webhook" channelId
              (createAnswers answers) w) as [r Hr].
  unfold mbind, M_bind.
  destruct (getOrCreateWebhookNamed "Relay Webhook" channelId (createAnswers answers) w)
    as [o w1].
  simpl in Hr, Hid. subst o. exists w1. split; [done |].
  destruct r as [c |]; [| by left].
  right. unfold_M.
  destruct (sendAnswer answers) as [sent |]; simpl.
  - right. by eauto.
  - left. by eauto.
Qed.

Lemma messageCreate_gate_closed answers message w :
  bot (author message) = true
  ∨ relay_channels (db w) !! messageChannelId message = None →
  Multi.messageCreate answers message w = (Returned tt, w).
Proof.
  unfold Multi.messageCreate, Multi.isRelayChannel.
  destruct (bot (author message)); [done |].
  intros [? | Hgate]; [done |]. unfold_M. by rewrite Hgate.
Qed.

Lemma messageCreate_pipeline answers message w :
  bot (author message) = false →
  is_Some (relay_channels (db w) !! messageChannelId message) →
  pipeline answers message w (snd (Multi.messageCreate answers message w)).
Proof.
  intros Hbot [guild Hgate].
  unfold Multi.messageCreate, Multi.isRelayChannel. rewrite Hbot.
  unfold mbind at 1, M_bind at 1. unfold getDb at 1.
  unfold mbind at 1, M_bind at 1. unfold mret at 1, M_ret at 1.
  rewrite Hgate. cbn [negb].
  unfold try_catch at 1. unfold mbind at 1, M_bind at 1.
  destruct (deleteResolves answers) eqn:Hdel.
  2:{ unfold_M. by apply pipeline_delete_rejected. }
  unfold resolves at 1. unfold mbind at 1, M_bind at 1. unfold emit at 1.
  unfold mret at 1, M_ret at 1. unfold mbind at 1, M_bind at 1.
  set (w0 := {| db := db w; userMessageCounts := userMessageCounts w;
                effects := effects w ++ [MessageDeleted (messageId message) true] |}).
  destruct (memberIsAdministrator message) eqn:Hadmin.
  - unfold mret at 1, M_ret at 1.
    assert (Hthrough : letThrough answers message w w0)
      by (by apply through_administrator).
    destruct (sendWebhookMessage_cases answers (Some (messageContent message))
                (head (attachments message)) (messageChannelId message)
                (memberDisplayName message) (displayAvatarURL (author message)) w0)
      as (w1 & Hid & [Hsend | [(c & p & Hans & Hsend) | (c & p & sent & Hans & Hsend)]]);
      unfold mbind at 1, M_bind at 1; rewrite Hsend.
    + by eapply pipeline_no_webhook.
    + by eapply pipeline_send_rejected.
    + unfold_M. pose proof (pipeline_sent answers message w w0 w1 c p sent
                              Hdel Hthrough Hid Hans) as Hp.
      simpl in Hp.
      destruct (message_map (db w1) !! messageId message); simpl in *;
        rewrite <- ?app_assoc; exact Hp.
  - unfold rateLimited at 1.
    destruct (RateLimiter.isUserRateLimited (userMessageCounts w0)
                (userId (author message)) (dateNow answers)) as [limited counts] eqn:Hrl.
    destruct limited.
    + unfold_M. rewrite <- !app_assoc. by apply pipeline_rate_limited.
    + set (w0' := {| db := db w0; userMessageCounts := counts;
                     effects := effects w0 ++ [RateLimitChecked (userId (author message)) false] |}).
      assert (Hthrough : letThrough answers message w w0').
      { unfold w0', w0. simpl. rewrite <- app_assoc. by apply through_under_limit. }
      destruct (sendWebhookMessage_cases answers (Some (messageContent message))
                  (head (attachments message)) (messageChannelId message)
                  (memberDisplayName message) (displayAvatarURL (author message)) w0')
        as (w1 & Hid & [Hsend | [(c & p & Hans & Hsend) | (c & p & sent & Hans & Hsend)]]);
        unfold mbind at 1, M_bind at 1; fold w0'; rewrite Hsend.
      * by eapply pipeline_no_webhook.
      * by eapply pipeline_send_rejected.
      * unfold_M. pose proof (pipeline_sent answers message w w0' w1 c p sent
                                Hdel Hthrough Hid Hans) as Hp.
        simpl in Hp.
        destruct (message_map (db w1) !! messageId message); simpl in *;
          rewrite <- ?app_assoc; exact Hp.
Qed.

Lemma sameMessageMap_emit e : preserves sameMessageMap (emit e).
Proof. by intros w. Qed.

Lemma sameMessageMap_rateLimited userId now :
  preserves sameMessageMap (rateLimited userId now).
Proof. by intros w. Qed.

Lemma execute_sparesMessageMap s d d' :
  sparesMessageMap s → execute s d = Some d' → message_map d' = message_map d.
Proof.
  intros Hs. destruct s; try done; simpl; repeat case_match;
    intros [= <-]; done.
Qed.

Lemma sameMessageMap_db_run s :
  sparesMessageMap s → preserves sameMessageMap (db_run s).
Proof.
  intros Hs w. unfold db_run, commit, emit, mbind, M_bind, sameMessageMap. simpl.
  destruct (execute s (db w)) as [d |] eqn:Hexec; simpl; [| done].
  by eapply execute_sparesMessageMap.
Qed.

Create HintDb frame.
#[local] Hint Resolve sameMessageMap_emit sameMessageMap_rateLimited : frame.

Lemma getOrCreateWebhook_sameMessageMap name channelId answers :
  preserves sameMessageMap (getOrCreateWebhookNamed name channelId answers).
Proof.
  eapply preserves_weaken;
    [apply identityOnly_sameMessageMap | apply getOrCreateWebhook_identityOnly].
Qed.

Lemma sendWebhookMessage_sameMessageMap answers message attachment channelId name avatar :
  preserves sameMessageMap
    (Multi.sendWebhookMessage answers message attachment channelId name avatar).
Proof.
  unfold Multi.sendWebhookMessage. preserve; auto with frame.
  apply getOrCreateWebhook_sameMessageMap.
Qed.

Lemma interactionCreate_sameMessageMap answers i :
  preserves sameMessageMap (Multi.interactionCreate answers i).
Proof.
  unfold Multi.interactionCreate, Multi.relayCommand, Multi.webhookCommand,
    Multi.isRelayChannel.
  preserve; auto with frame;
    try (by apply sameMessageMap_db_run);
    apply sendWebhookMessage_sameMessageMap.
Qed.

Lemma messageUpdate_sameMessageMap editResolves newMessage :
  preserves sameMessageMap (Multi.messageUpdate editResolves newMessage).
Proof. unfold Multi.messageUpdate. preserve; auto with frame. Qed.

Lemma rotateOne_sameMessageMap answers webhook :
  preserves sameMessageMap (Multi.rotateOne answers webhook).
Proof.
  unfold Multi.rotateOne. preserve; auto with frame;
    by apply sameMessageMap_db_run.
Qed.

Lemma rotateEach_sameMessageMap answers allWebhooks rotatedCount :
  preserves sameMessageMap
    (forEachWebhook (Multi.rotateOne answers) allWebhooks rotatedCount).
Proof.
  revert rotatedCount. induction allWebhooks as [|webhook rest IH];
    intros rotatedCount; simpl.
  - preserve.
  - apply preserves_bind; [apply _ | apply rotateOne_sameMessageMap |].
    intros rotated. apply IH.
Qed.

Lemma rotateWebhooks_sameMessageMap answers :
  preserves sameMessageMap (Multi.rotateWebhooks answers).
Proof.
  unfold Multi.rotateWebhooks, Multi.writeWatermark.
  apply preserves_bind; [apply _ | preserve |]. intros d.
  destruct (map_to_list (webhooks d)) as [|webhook rest].
  - preserve. by apply sameMessageMap_db_run.
  - apply preserves_bind; [apply _ | apply rotateEach_sameMessageMap |].
    intros n. preserve. by apply sameMessageMap_db_run.
Qed.

Lemma scheduleRotation_sameMessageMap answers :
  preserves sameMessageMap (Multi.scheduleRotation answers).
Proof.
  unfold Multi.scheduleRotation.
  apply preserves_bind; [apply _ | preserve |]. intros d.
  apply preserves_bind; [apply _ | | intros next; preserve; auto with frame].
  destruct (negb _).
  - apply preserves_bind; [apply _ | apply rotateWebhooks_sameMessageMap |].
    intros n. preserve.
  - destruct (Js.parseInt _) as [last |]; [| preserve].
    destruct (_ >=? _); [| preserve].
    apply preserves_bind; [apply _ | apply rotateWebhooks_sameMessageMap |].
    intros n. preserve.
Qed.

(** ** The message map follows the sends *)

Lemma identity_effects_no_send more :
  Forall isIdentityEffect more → sendReportedSuccess more = false.
Proof.
  induction 1 as [|e l He _ IH]; [done |]. simpl. rewrite IH.
  destruct e as [| | | | | | | ? ? [?|] | | | | |]; simpl in *; done.
Qed.

Lemma sendReportedSuccess_app l1 l2 :
  sendReportedSuccess (l1 ++ l2) = sendReportedSuccess l1 || sendReportedSuccess l2.
Proof. apply existsb_app. Qed.

Lemma letThrough_no_send answers message w w0 :
  letThrough answers message w w0 →
  sendReportedSuccess (effects w0) = sendReportedSuccess (effects w)
  ∧ db w0 = db w.
Proof.
  intros [Hadmin | counts Hadmin Hrl]; simpl;
    rewrite sendReportedSuccess_app; simpl; by rewrite orb_false_r.
Qed.

Lemma identityOnly_no_send w0 w1 :
  identityOnly w0 w1 →
  sendReportedSuccess (effects w1) = sendReportedSuccess (effects w0)
  ∧ message_map (db w1) = message_map (db w0).
Proof.
  intros (_ & Hmap & _ & _ & more & -> & Hmore). split; [| done].
  rewrite sendReportedSuccess_app, (identity_effects_no_send more Hmore).
  by rewrite orb_false_r.
Qed.

(** One accepted message: the table gains a row for the original exactly
    when the send reported success, and is untouched otherwise. *)
Lemma pipeline_message_map answers message w w' :
  pipeline answers message w w' → effects w = [] →
  (sendReportedSuccess (effects w') = true
   ∧ ∀ id, is_Some (message_map (db w') !! id)
           ↔ id = messageId message ∨ is_Some (message_map (db w) !! id))
  ∨ (sendReportedSuccess (effects w') = false
     ∧ message_map (db w') = message_map (db w)).
Proof.
  intros Hp Hclean.
  destruct Hp as [Hdel | counts Hdel Hadmin Hrl | w0 w1 Hdel Hthrough Hid
                 | w0 w1 c p Hdel Hthrough Hid Hans
                 | w0 w1 c p sent Hdel Hthrough Hid Hans insert].
  - right. simpl. by rewrite Hclean.
  - right. simpl. by rewrite Hclean.
  - right. destruct (letThrough_no_send _ _ _ _ Hthrough) as [Hs0 Hdb0].
    destruct (identityOnly_no_send _ _ Hid) as [Hs1 Hm1].
    rewrite Hs1, Hs0, Hclean, Hm1, Hdb0. done.
  - right. destruct (letThrough_no_send _ _ _ _ Hthrough) as [Hs0 Hdb0].
    destruct (identityOnly_no_send _ _ Hid) as [Hs1 Hm1].
    simpl. rewrite sendReportedSuccess_app, Hs1, Hs0, Hclean, Hm1, Hdb0. done.
  - left. destruct (letThrough_no_send _ _ _ _ Hthrough) as [Hs0 Hdb0].
    destruct (identityOnly_no_send _ _ Hid) as [Hs1 Hm1].
    simpl. split.
    + rewrite sendReportedSuccess_app. simpl. by rewrite orb_true_r.
    + intros id. rewrite <- Hdb0, <- Hm1. subst insert. simpl.
      destruct (message_map (db w1) !! messageId message) as [row |] eqn:Hrow; simpl.
      * split; [by right | intros [-> | ?]; [by eexists | done]].
      * rewrite lookup_insert. case_decide as Heq; subst.
        -- split; [by left | by eexists].
        -- split; [by right | intros [-> | ?]; done].
Qed.

Lemma messageDelete_message_map deleteMessageResolves message w :
  message_map (db (snd (Multi.messageDelete deleteMessageResolves message w)))
  = delete (messageId message) (message_map (db w)).
Proof.
  unfold Multi.messageDelete. unfold_M.
  destruct (message_map (db w) !! messageId message) as [mapping |] eqn:Hrow;
    simpl.
  - by destruct deleteMessageResolves.
  - symmetry. by apply delete_id.
Qed.

(** One event of the loop, seen from the message map. *)
Lemma dispatch_message_map ev w id :
  is_Some (message_map (db (Multi.dispatch ev w)) !! id)
  ↔ relayedOk id (ev, effects (Multi.dispatch ev w))
    ∨ (is_Some (message_map (db w) !! id)
       ∧ ¬ deletionOf id (ev, effects (Multi.dispatch ev w))).
Proof.
  unfold Multi.dispatch, relayedOk, deletionOf.
  set (w0 := {| db := db w; userMessageCounts := userMessageCounts w; effects := [] |}).
  assert (Hsame : ∀ m : M unit, preserves sameMessageMap m →
            is_Some (message_map (db (snd (m w0))) !! id)
            ↔ is_Some (message_map (db w) !! id)).
  { intros m Hm. specialize (Hm w0). unfold sameMessageMap in Hm. by rewrite Hm. }
  destruct ev as [answers | pass answers | answers i | answers message
                 | editResolves newMessage | deleteMessageResolves message]; simpl.
  - rewrite Hsame; [tauto |].
    apply preserves_bind; [apply _ | apply scheduleRotation_sameMessageMap |].
    intros ?. preserve.
  - rewrite Hsame; [tauto |]. unfold Multi.onTimeout.
    apply preserves_bind; [apply _ | | intros ?; preserve].
    apply preserves_bind; [apply _ | apply rotateWebhooks_sameMessageMap |].
    intros ?. apply scheduleRotation_sameMessageMap.
  - rewrite Hsame; [tauto | apply interactionCreate_sameMessageMap].
  - destruct (bot (author message)) eqn:Hbot.
    { rewrite messageCreate_gate_closed by (by left). simpl. naive_solver. }
    destruct (relay_channels (db w0) !! messageChannelId message) as [guild |] eqn:Hgate.
    2:{ rewrite messageCreate_gate_closed by (by right). simpl. naive_solver. }
    destruct (pipeline_message_map answers message w0 _
                (messageCreate_pipeline answers message w0 Hbot (mk_is_Some _ _ Hgate))
                eq_refl) as [[Hsent Hmap] | [Hsent Hmap]].
    + rewrite Hmap, Hsent. simpl. naive_solver.
    + rewrite Hmap, Hsent. simpl. naive_solver.
  - rewrite Hsame; [tauto | apply messageUpdate_sameMessageMap].
  - rewrite messageDelete_message_map. simpl. rewrite lookup_delete.
    case_decide as Heq; [| naive_solver].
    split; [by intros [? ?] | naive_solver].
Qed.

Lemma relayedAndKept_cons id entry trace :
  relayedAndKept id (entry :: trace)
  ↔ (relayedOk id entry ∧ Forall (λ later, ¬ deletionOf id later) trace)
    ∨ relayedAndKept id trace.
Proof.
  unfold relayedAndKept. split.
  - intros ([|first before] & e & after & Heq & Hok & Hkept); simplify_eq/=.
    + by left.
    + right. by exists before, e, after.
  - intros [[Hok Hkept] | (before & e & after & -> & Hok & Hkept)].
    + by exists [], entry, trace.
    + by exists (entry :: before), e, after.
Qed.

Lemma run_message_map evs w id :
  is_Some (message_map (db (fst (Multi.run evs w))) !! id)
  ↔ relayedAndKept id (snd (Multi.run evs w))
    ∨ (is_Some (message_map (db w) !! id)
       ∧ Forall (λ later, ¬ deletionOf id later) (snd (Multi.run evs w))).
Proof.
  revert w. induction evs as [|ev rest IH]; intros w; simpl.
  - split; [intros ?; right; by split | intros [Hrel | [? _]]; [| done]].
    destruct Hrel as ([|??] & ? & ? & ? & _); done.
  - specialize (IH (Multi.dispatch ev w)).
    destruct (Multi.run rest (Multi.dispatch ev w)) as [w2 trace]. simpl in *.
    rewrite IH, relayedAndKept_cons, Forall_cons, dispatch_message_map. tauto.
Qed.

(** With the handlers run one after the other, each to its end: after any
    run of the bot from an empty database, the message map has a row for
    an original message id exactly when the trace holds a relay of that
    message whose webhook send reported success with no deletion of that
    message handled afterwards; and handling the deletion leaves no row
    for the message whether or not deleting the relayed copy resolved. *)
Lemma message_map_after_whole_handlers (evs : list Multi.Event) (id : string) :
  (is_Some (message_map (db (fst (Multi.run evs Multi.start))) !! id)
   ↔ relayedAndKept id (snd (Multi.run evs Multi.start)))
  ∧ (∀ deleteMessageResolves message w,
       message_map (db (Multi.dispatch
                          (Multi.MessageDelete deleteMessageResolves message) w))
         !! messageId message = None).
Proof.
  split.
  - rewrite run_message_map. simpl. rewrite lookup_empty.
    split; [intros [? | [[? ?] _]]; done | by left].
  - intros flag message w. unfold Multi.dispatch. simpl.
    rewrite messageDelete_message_map. apply lookup_delete_eq.
Qed.

(** ** Programs between their awaits *)

Section ProgramLogic.

Import Async.

Lemma wp_mono {A} shape (p : Prog A) :
  ∀ own (post post' : Outcome A → list Effect → Prop),
    (∀ r o, post r o → post' r o) →
    wp shape p own post → wp shape p own post'.
Proof.
  induction p as [A a | A e | A B io k IH | A B body IHbody handler IHhandler k IHk];
    intros own post post' Himp; simpl.
  - apply Himp.
  - apply Himp.
  - intros Hwp w. destruct (Hwp w) as (delta & Heffs & Hmap & Hshape & Hnext).
    exists delta. split_and!; try done.
    destruct (fst (io w)) as [b | e]; [by eapply IH | by apply Himp].
  - apply IHbody. intros [b | e] o; [by apply IHk |].
    apply IHhandler. intros [b | e2] o2; [by apply IHk | by apply Himp].
Qed.

Lemma wp_bind {A C} shape (p : Prog A) (f : A → Prog C) :
  ∀ own (post : Outcome C → list Effect → Prop),
    wp shape p own
      (λ r o, match r with
              | Returned a => wp shape (f a) o post
              | Thrown e => post (Thrown e) o
              end) →
    wp shape (bind p f) own post.
Proof.
  induction p as [A a | A e | A B io k IH | A B body IHbody handler IHhandler k IHk];
    intros own post; simpl.
  - done.
  - done.
  - intros Hwp w. destruct (Hwp w) as (delta & Heffs & Hmap & Hshape & Hnext).
    exists delta. split_and!; try done.
    destruct (fst (io w)) as [b | e]; [by apply IH | done].
  - apply wp_mono. intros [b | e] o; [by apply IHk |].
    apply wp_mono. intros [b | e2] o2; [by apply IHk | done].
Qed.

(** One step: the effects grow, the table follows the statements logged,
    and what is left of the program is as good as the program was. *)
Lemma wp_step {A} shape (p : Prog A) :
  ∀ own (post : Outcome A → list Effect → Prop) w,
    wp shape p own post →
    ∃ delta,
      effects (snd (step p w)) = effects w ++ delta
      ∧ message_map (db (snd (step p w))) = replay delta (message_map (db w))
      ∧ (shape own → shape (own ++ delta))
      ∧ wp shape (fst (step p w)) (own ++ delta) post.
Proof.
  induction p as [A a | A e | A B io k IH | A B body IHbody handler IHhandler k IHk];
    intros own post w Hwp.
  - exists []. simpl. rewrite !app_nil_r. done.
  - exists []. simpl. rewrite !app_nil_r. done.
  - simpl in Hwp. destruct (Hwp w) as (delta & Heffs & Hmap & Hshape & Hnext).
    exists delta. simpl. destruct (io w) as [[b | e] w1]; simpl in *; done.
  - simpl in Hwp. destruct body as [b | e | B' io k' | B' body' handler' k'].
    + exists []. simpl in *. rewrite !app_nil_r. done.
    + exists []. simpl in *. rewrite !app_nil_r. split_and!; try done.
      by apply wp_bind.
    + destruct (IHbody own _ w Hwp) as (delta & Heffs & Hmap & Hshape & Hnext).
      exists delta. cbn [step]. cbn [step] in Heffs, Hmap, Hnext.
      destruct (io w) as [[b | e] w1]; simpl in *; done.
    + destruct (IHbody own _ w Hwp) as (delta & Heffs & Hmap & Hshape & Hnext).
      exists delta.
      change (step (Try (Try body' handler' k') handler k) w)
        with (let '(body1, w1) := step (Try body' handler' k') w in
              (Try body1 handler k, w1)).
      destruct (step (Try body' handler' k') w) as [body1 w1]. simpl in *. done.
Qed.

(** Run to its end, the program leaves its own log as promised. *)
Lemma wp_complete {A} shape (p : Prog A) :
  ∀ own (post : Outcome A → list Effect → Prop) w,
    wp shape p own post →
    ∃ delta,
      effects (snd (complete p w)) = effects w ++ delta
      ∧ message_map (db (snd (complete p w))) = replay delta (message_map (db w))
      ∧ post (fst (complete p w)) (own ++ delta).
Proof.
  induction p as [A a | A e | A B io k IH | A B body IHbody handler IHhandler k IHk];
    intros own post w Hwp.
  - exists []. simpl. rewrite !app_nil_r. done.
  - exists []. simpl. rewrite !app_nil_r. done.
  - simpl in Hwp. destruct (Hwp w) as (delta & Heffs & Hmap & Hshape & Hnext).
    simpl. unfold mbind, M_bind.
    destruct (io w) as [[b | e] w1]; simpl in *.
    + destruct (IH b _ _ w1 Hnext) as (delta2 & Heffs2 & Hmap2 & Hpost).
      exists (delta ++ delta2). rewrite Heffs2, Heffs, Hmap2, Hmap, !app_assoc.
      split_and!; try done. unfold replay. by rewrite foldl_app.
    + exists delta. done.
  - simpl in Hwp. simpl. unfold mbind, M_bind, try_catch.
    destruct (IHbody own _ w Hwp) as (delta & Heffs & Hmap & Hpost).
    destruct (complete body w) as [[b | e] w1]; simpl in *.
    + destruct (IHk b _ _ w1 Hpost) as (delta2 & Heffs2 & Hmap2 & Hpost2).
      exists (delta ++ delta2). rewrite Heffs2, Heffs, Hmap2, Hmap, !app_assoc.
      split_and!; try done. unfold replay. by rewrite foldl_app.
    + destruct (IHhandler e _ _ w1 Hpost) as (delta2 & Heffs2 & Hmap2 & Hpost2).
      destruct (complete (handler e) w1) as [[b | e2] w2]; simpl in *.
      * destruct (IHk b _ _ w2 Hpost2) as (delta3 & Heffs3 & Hmap3 & Hpost3).
        exists (delta ++ delta2 ++ delta3).
        rewrite Heffs3, Heffs2, Heffs, Hmap3, Hmap2, Hmap, !app_assoc.
        split_and!; try done. unfold replay. by rewrite !foldl_app.
      * exists (delta ++ delta2). rewrite Heffs2, Heffs, Hmap2, Hmap, !app_assoc.
        split_and!; try done. unfold replay. by rewrite foldl_app.
Qed.

End ProgramLogic.

(** ** Quiet programs *)

Section QuietPrograms.

Import Async.

Lemma replay_spared delta table :
  Forall spared delta → replay delta table = table.
Proof.
  unfold replay. revert table.
  induction delta as [|e delta IH]; intros table Hall; [done |].
  apply Forall_cons in Hall as [He Hall]. simpl. rewrite IH by done.
  unfold spared in He. by destruct e as [| | | | | | | | | | | | []].
Qed.

Lemma replay_app delta1 delta2 table :
  replay (delta1 ++ delta2) table = replay delta2 (replay delta1 table).
Proof. unfold replay. apply foldl_app. Qed.

Lemma quiet_mono {A} (calm calm' : Effect → Prop) (p : Prog A) :
  (∀ e, calm e → calm' e) → quiet calm p → quiet calm' p.
Proof.
  intros Himp.
  induction p as [A a | A e | A B io k IH | A B body IHbody handler IHhandler k IHk];
    simpl; try done.
  - intros [Hio Hk]. split; [| intros b; by apply IH].
    intros w. destruct (Hio w) as (delta & Heffs & Hmap & Hcalm).
    exists delta. split_and!; try done.
    eapply Forall_impl; [exact Hcalm |]. intros e [? ?]. split; [by apply Himp | done].
  - intros (Hbody & Hhandler & Hk). split_and!.
    + by apply IHbody.
    + intros e. by apply IHhandler.
    + intros b. by apply IHk.
Qed.

Lemma quiet_bind {A C} calm (p : Prog A) (f : A → Prog C) :
  quiet calm p → (∀ a, quiet calm (f a)) → quiet calm (p ≫= f).
Proof.
  intros Hp Hf. change (quiet calm (bind p f)).
  induction p as [A a | A e | A B io k IH | A B body IHbody handler IHhandler k IHk];
    simpl in *; try done.
  - destruct Hp as [Hio Hk]. split; [done |]. intros b. by apply IH.
  - destruct Hp as (Hbody & Hhandler & Hk). split_and!; try done.
    intros b. by apply IHk.
Qed.

Lemma quiet_tryCatch {A} calm (body : Prog A) (handler : Error → Prog A) :
  quiet calm body → (∀ e, quiet calm (handler e)) → quiet calm (tryCatch body handler).
Proof. intros Hbody Hhandler. simpl. done. Qed.

Lemma quiet_await {B} calm (io : M B) : quietly calm io → quiet calm (await io).
Proof. intros Hio. simpl. done. Qed.

Lemma quiet_Await {A B} calm (io : M B) (k : B → Prog A) :
  quietly calm io → (∀ b, quiet calm (k b)) → quiet calm (Await io k).
Proof. intros Hio Hk. simpl. done. Qed.

Lemma quietly_getDb calm : quietly calm getDb.
Proof. intros w. exists []. simpl. by rewrite app_nil_r. Qed.

Lemma quietly_isRelayChannel calm channelId :
  quietly calm (Multi.isRelayChannel channelId).
Proof. intros w. exists []. simpl. by rewrite app_nil_r. Qed.

Lemma quietly_emit (calm : Effect → Prop) e :
  calm e → isMapStatement e = false → quietly calm (emit e).
Proof. intros Hcalm He w. exists [e]. simpl. split_and!; try done. by repeat constructor. Qed.

Lemma quietly_resolves (calm : Effect → Prop) e ok err :
  calm e → isMapStatement e = false → quietly calm (resolves e ok err).
Proof.
  intros Hcalm He w. exists [e]. unfold_M.
  destruct ok; simpl; split_and!; try done; by repeat constructor.
Qed.

Lemma quietly_rateLimited (calm : Effect → Prop) user now :
  (∀ limited, calm (RateLimitChecked user limited)) →
  quietly calm (rateLimited user now).
Proof.
  intros Hcalm w. unfold rateLimited.
  destruct (RateLimiter.isUserRateLimited (userMessageCounts w) user now)
    as [limited counts].
  exists [RateLimitChecked user limited]. simpl. split_and!; try done.
  by repeat constructor.
Qed.

Lemma quietly_db_run (calm : Effect → Prop) s :
  calm (DbRun s) → isMapStatement (DbRun s) = false → quietly calm (db_run s).
Proof.
  intros Hcalm Hs w. exists [DbRun s]. unfold_M.
  destruct s; try discriminate Hs; simpl; repeat case_match; simplify_eq/=;
    split_and!; try done; by repeat constructor.
Qed.

End QuietPrograms.

Section QuietHandlers.

Import Async.

Ltac quiet_io :=
  first [ apply quietly_getDb
        | apply quietly_isRelayChannel
        | apply quietly_emit; [first [exact I | done] | reflexivity]
        | apply quietly_resolves; [first [exact I | done] | reflexivity]
        | apply quietly_rateLimited; intros; exact I
        | apply quietly_db_run; [first [exact I | done] | reflexivity] ].

Ltac quiet_go :=
  repeat first
    [ exact I
    | match goal with |- quiet _ (match ?x with _ => _ end) => destruct x end
    | apply quiet_tryCatch; [| intros ?]
    | apply quiet_await; quiet_io
    | apply quiet_bind; [| intros ?]
    | apply quiet_Await; [quiet_io | intros ?] ].

Lemma getOrCreateWebhook_noSend channelId answers :
  quiet noSend (getOrCreateWebhook channelId answers).
Proof.
  induction answers as [newId newToken | | next IH]; simpl getOrCreateWebhook.
  - quiet_go.
  - quiet_go.
  - apply quiet_tryCatch; [quiet_go |].
    intros [code | | |]; try exact I.
    destruct (code =? 10015); [| exact I].
    split; [by apply quietly_db_run | intros _; exact IH].
Qed.

Lemma getOrCreateWebhook_quiet (calm : Effect → Prop) channelId answers :
  (∀ e, noSend e → calm e) → quiet calm (getOrCreateWebhook channelId answers).
Proof. intros Himp. eapply quiet_mono; [exact Himp | apply getOrCreateWebhook_noSend]. Qed.

Lemma sendWebhookMessage_quiet answers text attachment channelId name avatar :
  quiet (λ _, True) (sendWebhookMessage answers text attachment channelId name avatar).
Proof.
  unfold sendWebhookMessage.
  apply quiet_bind; [by apply getOrCreateWebhook_quiet |]. intros ?. quiet_go.
Qed.

Lemma interactionCreate_quiet answers i :
  quiet (λ _, True) (interactionCreate answers i).
Proof.
  unfold interactionCreate, relayCommand, webhookCommand, isRelayChannel.
  destruct (negb (isCommand i)); [exact I |].
  apply quiet_bind; [quiet_go |]. intros returned.
  destruct returned; [exact I |].
  destruct (commandName i =? "webhook")%string; [| exact I].
  apply quiet_bind; [quiet_go |]. intros relay.
  destruct (negb relay); [quiet_go |].
  destruct (negb (truthy (optionMessage i)) && negb (truthy (optionAttachment i)));
    [quiet_go |].
  apply quiet_bind; [quiet_go |]. intros _.
  apply quiet_bind; [apply sendWebhookMessage_quiet |]. intros _. exact I.
Qed.

Lemma messageUpdate_quiet editResolves newMessage :
  quiet (λ _, True) (messageUpdate editResolves newMessage).
Proof. unfold messageUpdate. quiet_go. Qed.

Lemma rotateOne_quiet answers webhook : quiet (λ _, True) (rotateOne answers webhook).
Proof. unfold rotateOne. quiet_go. Qed.

Lemma forEachWebhook_quiet answers allWebhooks rotatedCount :
  quiet (λ _, True) (forEachWebhook (rotateOne answers) allWebhooks rotatedCount).
Proof.
  revert rotatedCount.
  induction allWebhooks as [|webhook others IH]; intros rotatedCount; [exact I |].
  change (quiet (λ _, True)
            (rotateOne answers webhook ≫= λ rotated : bool,
               forEachWebhook (rotateOne answers) others
                 (if rotated then S rotatedCount else rotatedCount))).
  apply quiet_bind; [apply rotateOne_quiet |].
  intros rotated. apply IH.
Qed.

Lemma rotateWebhooks_quiet answers : quiet (λ _, True) (rotateWebhooks answers).
Proof.
  unfold rotateWebhooks, writeWatermark, Multi.writeWatermark.
  apply quiet_bind; [quiet_go |]. intros d.
  destruct (map_to_list (webhooks d)) as [|webhook others] eqn:Hrows; [quiet_go |].
  apply quiet_bind; [apply forEachWebhook_quiet |]. intros ?. quiet_go.
Qed.

Lemma scheduleRotation_quiet answers : quiet (λ _, True) (scheduleRotation answers).
Proof.
  unfold scheduleRotation.
  apply quiet_bind; [quiet_go |]. intros d.
  apply quiet_bind; [| intros ?; quiet_go].
  destruct (negb (truthy (bot_meta d !! "lastRotationTimestamp"))).
  { apply quiet_bind; [apply rotateWebhooks_quiet | intros ?; exact I]. }
  destruct (Js.parseInt _) as [last |]; [| exact I].
  destruct (_ >=? _); [| exact I].
  apply quiet_bind; [apply rotateWebhooks_quiet | intros ?; exact I].
Qed.

Lemma onTimeout_quiet pass answers : quiet (λ _, True) (onTimeout pass answers).
Proof.
  unfold onTimeout.
  apply quiet_bind; [apply rotateWebhooks_quiet | intros ?; apply scheduleRotation_quiet].
Qed.

End QuietHandlers.

(** ** The handlers keep to their logs *)

Section HandlerLogs.

Import Async.

Lemma quiet_wp {A} shape calm (inv : list Effect → Prop) (p : Prog A) :
  (∀ own, inv own → shape own) →
  (∀ own delta,
     inv own → Forall (λ e, calm e ∧ isMapStatement e = false) delta →
     inv (own ++ delta)) →
  quiet calm p →
  ∀ own (post : Outcome A → list Effect → Prop),
    inv own → (∀ r own1, inv own1 → post r own1) → wp shape p own post.
Proof.
  intros Hshape Hgrow.
  induction p as [A a | A e | A B io k IH | A B body IHbody handler IHhandler k IHk];
    intros Hquiet own post Hown Hpost; simpl in *.
  - by apply Hpost.
  - by apply Hpost.
  - destruct Hquiet as [Hio Hk]. intros w.
    destruct (Hio w) as (delta & Heffs & Hmap & Hcalm).
    exists delta. split_and!; try done.
    + rewrite replay_spared; [done |].
      eapply Forall_impl; [exact Hcalm |]. by intros e [_ ?].
    + apply Hshape. by apply Hgrow.
    + destruct (fst (io w)) as [b | e].
      * apply IH; [done | by apply Hgrow | done].
      * apply Hpost. by apply Hgrow.
  - destruct Hquiet as (Hbody & Hhandler & Hk).
    apply IHbody; [done | done |]. intros [b | e] own1 Hown1.
    + by apply IHk.
    + apply IHhandler; [done | done |]. intros [b | e2] own2 Hown2.
      * by apply IHk.
      * by apply Hpost.
Qed.

Lemma wp_tryCatch {A} shape (body : Prog A) (handler : Error → Prog A) own post :
  wp shape body own
    (λ r own1, match r with
               | Returned a => post (Returned a) own1
               | Thrown e => wp shape (handler e) own1 post
               end) →
  wp shape (tryCatch body handler) own post.
Proof.
  simpl. apply wp_mono. intros [a | e] own1; [done |].
  apply wp_mono. by intros [a | e2] own2.
Qed.

Lemma effect_replay e table :
  isMapStatement e = false → replay [e] table = table.
Proof. intros He. apply replay_spared. by repeat constructor. Qed.

Lemma wp_emit {C} shape e (f : unit → Prog C) own post :
  isMapStatement e = false → shape (own ++ [e]) →
  wp shape (f tt) (own ++ [e]) post →
  wp shape (await (emit e) ≫= f) own post.
Proof.
  intros He Hshape Hnext w. exists [e].
  split_and!; [done | by rewrite effect_replay | done | exact Hnext].
Qed.

Lemma wp_getDb {C} shape (f : Db → Prog C) own post :
  shape own → (∀ d, wp shape (f d) own post) →
  wp shape (await getDb ≫= f) own post.
Proof.
  intros Hshape Hnext w. exists []. simpl. rewrite !app_nil_r.
  split_and!; [done | done | done | apply Hnext].
Qed.

(** A statement does to [message_map] what its replay does. *)
Lemma db_run_replay s w :
  effects (snd (db_run s w)) = effects w ++ [DbRun s]
  ∧ message_map (db (snd (db_run s w))) = replay [DbRun s] (message_map (db w)).
Proof.
  unfold_M. destruct s; simpl; repeat case_match; simplify_eq/=; done.
Qed.

Lemma wp_db_run (shape : list Effect → Prop) s own (post : Outcome unit → list Effect → Prop) :
  shape (own ++ [DbRun s]) → (∀ r, post r (own ++ [DbRun s])) →
  wp shape (await (db_run s)) own post.
Proof.
  intros Hshape Hpost w. exists [DbRun s].
  destruct (db_run_replay s w) as [Heffs Hmap]. split_and!; try done.
  destruct (fst (db_run s w)); apply Hpost.
Qed.

Lemma prelude_relayLogAtEnd message own :
  Forall prelude own → relayLogAtEnd message own.
Proof.
  intros Hown. split; [by constructor |].
  intros c p sent Hlast. apply last_Some in Hlast as [front ->].
  apply Forall_app in Hown as [_ Hsend].
  apply Forall_singleton in Hsend as [[] _].
Qed.

Lemma prelude_grows own delta :
  Forall prelude own → Forall (λ e, noSend e ∧ isMapStatement e = false) delta →
  Forall prelude (own ++ delta).
Proof. intros Hown Hdelta. apply Forall_app. done. Qed.

(** The part of a relay before the send. *)
Lemma wp_prelude {A C} message (p : Prog A) (f : A → Prog C) own post :
  quiet noSend p → Forall prelude own →
  (∀ a own1, Forall prelude own1 → wp (relayLog message) (f a) own1 post) →
  (∀ e own1, Forall prelude own1 → post (Thrown e) own1) →
  wp (relayLog message) (p ≫= f) own post.
Proof.
  intros Hquiet Hown Hnext Hthrown. apply wp_bind.
  apply (quiet_wp (relayLog message) noSend (Forall prelude)); try done.
  - intros own1 Hown1. by constructor.
  - apply prelude_grows.
  - intros [a | e] own1 Hown1; [by apply Hnext | by apply Hthrown].
Qed.

Lemma wp_prelude_only {A} message (p : Prog A) own post :
  quiet noSend p → Forall prelude own →
  (∀ r own1, Forall prelude own1 → post r own1) →
  wp (relayLog message) p own post.
Proof.
  intros Hquiet Hown Hpost.
  apply (quiet_wp (relayLog message) noSend (Forall prelude)); try done.
  - intros own1 Hown1. by constructor.
  - apply prelude_grows.
Qed.

(** [sendWebhookMessage] in a relay: nothing is sent, or the send is the
    last effect, and the result tells whether it resolved. *)
Lemma sendWebhookMessage_wp message answers text attachment channelId name avatar
    own (post : Outcome (option (string * Credentials)) → list Effect → Prop) :
  Forall prelude own →
  (∀ r own1, Forall prelude own1 → r ≠ Returned None → (∀ x, r ≠ Returned (Some x)) → post r own1) →
  (∀ own1, Forall prelude own1 → post (Returned None) own1) →
  (∀ pre c p, Forall prelude pre → post (Returned None) (pre ++ [WebhookSend c p None])) →
  (∀ pre c p sent,
     Forall prelude pre →
     post (Returned (Some (sent, c))) (pre ++ [WebhookSend c p (Some sent)])) →
  wp (relayLog message)
    (sendWebhookMessage answers text attachment channelId name avatar) own post.
Proof.
  intros Hown Hthrown Hnone Hrejected Hresolved. unfold sendWebhookMessage.
  apply wp_prelude; [apply getOrCreateWebhook_noSend | done | |].
  2:{ intros e own1 Hown1. by apply Hthrown. }
  intros [c |] own1 Hown1; [| by apply Hnone].
  apply wp_tryCatch. apply wp_emit; [done | by constructor |].
  destruct (sendAnswer answers) as [sentMessage |]; simpl.
  - by apply Hresolved.
  - by apply Hrejected.
Qed.

Lemma relayLogAtEnd_rejected message pre c p :
  Forall prelude pre → relayLogAtEnd message (pre ++ [WebhookSend c p None]).
Proof.
  intros Hpre. split; [by constructor |].
  intros c' p' sent. by rewrite last_snoc.
Qed.

Lemma relayLogAtEnd_mapped message pre c p sent :
  Forall prelude pre →
  relayLogAtEnd message
    ((pre ++ [WebhookSend c p (Some sent)]) ++ [insertOf message sent c]).
Proof.
  intros Hpre. split.
  - rewrite <- app_assoc. by constructor.
  - intros c' p' sent'. by rewrite last_snoc.
Qed.

Lemma messageCreate_wp answers message :
  wp (relayLog message) (messageCreate answers message) []
    (λ _ own, relayLogAtEnd message own).
Proof.
  unfold messageCreate.
  destruct (bot (author message)); [by apply prelude_relayLogAtEnd |].
  apply wp_prelude; [apply quiet_await, quietly_isRelayChannel | done | |].
  2:{ intros e own1 Hown1. by apply prelude_relayLogAtEnd. }
  intros relay own1 Hown1.
  destruct relay; simpl negb; cbv iota; [| by apply prelude_relayLogAtEnd].
  apply wp_tryCatch.
  apply wp_prelude; [by apply quiet_await, quietly_resolves | done | |].
  2:{ intros e own2 Hown2. by apply prelude_relayLogAtEnd. }
  intros _ own2 Hown2.
  apply wp_prelude; [| done | |].
  { destruct (memberIsAdministrator message); [exact I |].
    by apply quiet_await, quietly_rateLimited. }
  2:{ intros e own3 Hown3. by apply prelude_relayLogAtEnd. }
  intros limited own3 Hown3. destruct limited.
  { apply wp_prelude_only; [by apply quiet_await, quietly_emit | done |].
    intros [[] | e] own4 Hown4; by apply prelude_relayLogAtEnd. }
  apply wp_bind. apply sendWebhookMessage_wp; [done | | | |].
  - intros [[x |] | e] own4 Hown4 Hnone Hsome; [by destruct (Hsome x) | done |].
    by apply prelude_relayLogAtEnd.
  - intros own4 Hown4. by apply prelude_relayLogAtEnd.
  - intros pre c p Hpre. by apply relayLogAtEnd_rejected.
  - intros pre c p sent Hpre.
    apply wp_db_run.
    + rewrite <- app_assoc. by constructor.
    + intros r. destruct r; by apply relayLogAtEnd_mapped.
Qed.

Lemma messageDelete_wp deleteMessageResolves message :
  wp (deletionLog message) (messageDelete deleteMessageResolves message) []
    (λ _ own, deletionLogAtEnd message own).
Proof.
  unfold messageDelete. apply wp_getDb; [by left |]. intros d.
  destruct (message_map d !! messageId message) as [mapping |]; [| by left].
  set (attempt := WebhookDeleteMessage (Multi.mappingCredentials mapping)
                    (webhookMessageId mapping)).
  assert (Hcleanup : ∀ r : Outcome unit,
            wp (deletionLog message)
              (await (db_run (DeleteMessageMap (messageId message))))
              [attempt]
              (λ _ own, deletionLogAtEnd message own)).
  { intros _. apply wp_db_run.
    - right. exists (Multi.mappingCredentials mapping), (webhookMessageId mapping).
      by right.
    - intros _. right.
      by exists (Multi.mappingCredentials mapping), (webhookMessageId mapping). }
  simpl. intros w. exists [attempt]. unfold_M. split_and!.
  - by destruct deleteMessageResolves.
  - by destruct deleteMessageResolves.
  - right. exists (Multi.mappingCredentials mapping), (webhookMessageId mapping).
    by left.
  - destruct deleteMessageResolves; simpl.
    + intros w1. destruct (Hcleanup (Returned tt) w1) as (delta & ? & ? & ? & Hend).
      exists delta. split_and!; try done; by destruct (fst _).
    + intros w1. destruct (Hcleanup (Returned tt) w1) as (delta & ? & ? & ? & Hend).
      exists delta. split_and!; try done; by destruct (fst _).
Qed.

Lemma spared_wp {A} (p : Prog A) :
  quiet (λ _, True) p →
  wp (Forall spared) p [] (λ _ own, Forall spared own).
Proof.
  intros Hquiet.
  apply (quiet_wp (Forall spared) (λ _, True) (Forall spared)); try done.
  intros own delta Hown Hdelta. apply Forall_app. split; [done |].
  eapply Forall_impl; [exact Hdelta |]. by intros e [_ ?].
Qed.

(** Each handler, started, keeps to the log of its event. *)
Lemma handler_wp ev :
  wp (ownLogOf ev) (handler ev) [] (λ _ own, ownLogAtEnd ev own).
Proof.
  destruct ev as [answers | pass answers | answers i | answers message
                 | editResolves newMessage | deleteMessageResolves message];
    simpl ownLogOf; simpl ownLogAtEnd; unfold handler.
  - apply spared_wp.
    apply quiet_bind; [apply scheduleRotation_quiet | intros ?; exact I].
  - apply spared_wp.
    apply quiet_bind; [apply onTimeout_quiet | intros ?; exact I].
  - apply spared_wp, interactionCreate_quiet.
  - apply messageCreate_wp.
  - apply spared_wp, messageUpdate_quiet.
  - apply messageDelete_wp.
Qed.

End HandlerLogs.

(** ** The statements on the message map, in the order of time *)

Section StatementsInTime.

Import Async.

Lemma insertedAndKept_snoc id log e :
  insertedAndKept id (log ++ [e])
  ↔ (∃ sent channelId wid token, e = DbRun (InsertMessageMap id sent channelId wid token))
    ∨ (insertedAndKept id log ∧ e ≠ DbRun (DeleteMessageMap id)).
Proof.
  unfold insertedAndKept. split.
  - intros (before & sent & channelId & wid & token & after & Hlog & Hkept).
    destruct after as [|y after _] using rev_ind.
    + apply app_inj_tail in Hlog as [_ ->]. left. by exists sent, channelId, wid, token.
    + rewrite app_comm_cons, app_assoc in Hlog.
      apply app_inj_tail in Hlog as [-> ->].
      apply not_elem_of_app in Hkept as [Hkept He]. right. split.
      * by exists before, sent, channelId, wid, token, after.
      * intros ->. apply He. by left.
  - intros [(sent & channelId & wid & token & ->)
           | [(before & sent & channelId & wid & token & after & -> & Hkept) He]].
    + exists log, sent, channelId, wid, token, []. split; [done |]. by intros ?%elem_of_nil.
    + exists before, sent, channelId, wid, token, (after ++ [e]). split.
      * by rewrite <- app_assoc.
      * apply not_elem_of_app. split; [done |].
        intros Hin%list_elem_of_singleton. done.
Qed.

(** The table after a log of statements: a row for [id] is there exactly
    when an INSERT of it was logged with no DELETE of it afterwards, or it
    was there from the start and no DELETE of it was logged. *)
Lemma replay_lookup id log table :
  is_Some (replay log table !! id)
  ↔ insertedAndKept id log
    ∨ (is_Some (table !! id) ∧ DbRun (DeleteMessageMap id) ∉ log).
Proof.
  induction log as [|e log IH] using rev_ind.
  - simpl. split.
    + intros Hrow. right. split; [done |]. by intros ?%elem_of_nil.
    + intros [(before & ? & ? & ? & ? & after & Hlog & _) | [Hrow _]]; [| done].
      by destruct before.
  - rewrite replay_app, insertedAndKept_snoc, not_elem_of_app. simpl.
    assert (Hother : (∀ s, e ≠ DbRun s) ∨ ∃ s, e = DbRun s).
    { destruct e; try (left; by intros ?); right; by eexists. }
    assert (Hnot : DbRun (DeleteMessageMap id) ∉ [e] ↔ e ≠ DbRun (DeleteMessageMap id)).
    { rewrite list_elem_of_singleton. naive_solver. }
    rewrite Hnot.
    destruct e as [| | | | | | | | | | | | s]; simpl; try (rewrite IH; naive_solver).
    destruct s as [| | | | | | id' sent channelId wid token | id' |]; simpl;
      try (rewrite IH; naive_solver).
    + destruct (replay log table !! id') as [row |] eqn:Hrow.
      * rewrite IH. destruct (decide (id' = id)) as [-> |]; [| naive_solver].
        assert (is_Some (replay log table !! id)) as Hsome by (by eexists).
        apply IH in Hsome. naive_solver.
      * rewrite lookup_insert. case_decide as Heq.
        -- subst. split; [intros _; left; left; by do 4 eexists | by eexists].
        -- rewrite IH. naive_solver.
    + rewrite lookup_delete. case_decide as Heq.
      * subst. split; [by intros [? ?] | naive_solver].
      * rewrite IH. naive_solver.
Qed.

Lemma ownLog_app task entries1 entries2 :
  ownLog task (entries1 ++ entries2) = ownLog task entries1 ++ ownLog task entries2.
Proof. unfold ownLog. by rewrite filter_app, fmap_app. Qed.

Lemma ownLog_own task delta : ownLog task (pair task <$> delta) = delta.
Proof.
  unfold ownLog. induction delta as [|e delta IH]; [done |].
  rewrite fmap_cons, filter_cons. case_decide as Htag; [| done].
  rewrite fmap_cons. f_equal. exact IH.
Qed.

Lemma ownLog_other task other delta :
  other ≠ task → ownLog task (pair other <$> delta) = [].
Proof.
  intros Hne. unfold ownLog. induction delta as [|e delta IH]; [done |].
  rewrite fmap_cons, filter_cons. case_decide as Htag; [done | exact IH].
Qed.

Lemma ownLog_fresh task entries :
  (∀ entry, entry ∈ entries → (fst entry < task)%nat) → ownLog task entries = [].
Proof.
  intros Hold. unfold ownLog. induction entries as [|entry entries IH]; [done |].
  rewrite filter_cons. case_decide as Htag.
  - assert (fst entry < task)%nat by (apply Hold; by left). lia.
  - apply IH. intros e He. apply Hold. by right.
Qed.

Lemma ownLog_entry task before e after :
  ownLog task (before ++ (task, e) :: after)
  = ownLog task before ++ e :: ownLog task after.
Proof.
  rewrite ownLog_app. f_equal. unfold ownLog. rewrite filter_cons.
  by case_decide.
Qed.

Lemma tagged_effects (task : nat) (delta : list Effect) :
  (pair task <$> delta).*2 = delta.
Proof.
  induction delta as [|e delta IH]; [done |]. rewrite !fmap_cons. f_equal. exact IH.
Qed.

Lemma start_consistent : consistent start.
Proof.
  split_and!; try done.
  - intros entry Hin. by apply elem_of_nil in Hin.
Qed.

Lemma move_consistent m s : consistent s → consistent (move m s).
Proof.
  intros (Heffs & Hmap & Htags & Htasks).
  destruct m as [ev | t]; simpl.
  - split_and!; simpl; try done.
    + intros entry Hin. rewrite length_app. simpl. specialize (Htags entry Hin). lia.
    + intros t task [Hold | [Hlen Hnew]]%lookup_app_Some.
      * by apply Htasks.
      * destruct (t - length (tasks s))%nat as [|n] eqn:Hn; [| done].
        simpl in Hnew. injection Hnew as <-.
        assert (t = length (tasks s)) as -> by lia.
        unfold onTrack. simpl. rewrite ownLog_fresh by done.
        split; [| apply handler_wp].
        destruct ev; simpl; first [by constructor | by left].
  - destruct (tasks s !! t) as [task |] eqn:Htask; [| done].
    destruct (Htasks t task Htask) as [Hshape Hwp].
    destruct (wp_step _ _ _ _ (world s) Hwp) as (delta & Heffs1 & Hmap1 & Hshape1 & Hwp1).
    destruct (step (rest task) (world s)) as [p w] eqn:Hstep. simpl in *.
    rewrite Heffs1, drop_app_length.
    split_and!; simpl.
    + by rewrite fmap_app, tagged_effects, Heffs1, Heffs.
    + by rewrite Hmap1, Hmap, Heffs1, replay_app.
    + intros entry [Hin | Hin]%elem_of_app; rewrite length_insert.
      * by apply Htags.
      * apply list_elem_of_fmap in Hin as (e & -> & _). simpl.
        by eapply lookup_lt_Some.
    + intros t' task' Hlookup. unfold onTrack. simpl.
      rewrite ownLog_app.
      destruct (decide (t = t')) as [<- | Hne].
      * rewrite list_lookup_insert_eq in Hlookup by (by eapply lookup_lt_Some).
        injection Hlookup as <-. simpl. rewrite ownLog_own. split; [by apply Hshape1 | done].
      * rewrite list_lookup_insert_ne in Hlookup by done.
        rewrite ownLog_other, app_nil_r by done. by apply Htasks.
Qed.

Lemma run_consistent moves s : consistent s → consistent (run moves s).
Proof.
  unfold run. revert s. induction moves as [|m moves IH]; intros s Hs; [done |].
  simpl. apply IH. by apply move_consistent.
Qed.

(** *** What a log of a handler tells about its statements *)

Lemma snoc2_split {A} (front : list A) (a b e : A) (before after : list A) :
  front ++ [a; b] = before ++ e :: after → e ∉ front → e ≠ a →
  before = front ++ [a] ∧ e = b ∧ after = [].
Proof.
  intros Heq Hfront Ha.
  change (front ++ [a; b]) with (front ++ [a] ++ [b]) in Heq. rewrite app_assoc in Heq.
  destruct after as [|y after _] using rev_ind.
  - apply app_inj_tail in Heq as [-> ->]. done.
  - rewrite app_comm_cons, app_assoc in Heq. apply app_inj_tail in Heq as [Heq ->].
    destruct after as [|z after _] using rev_ind.
    + apply app_inj_tail in Heq as [_ ->]. done.
    + rewrite app_comm_cons, app_assoc in Heq. apply app_inj_tail in Heq as [-> _].
      destruct Hfront. apply elem_of_app. right. by left.
Qed.

Lemma prelude_statement e : prelude e → isMapStatement e = true → False.
Proof. intros [_ He] Hmap. congruence. Qed.

Lemma relayLog_statement message before e after :
  relayLog message (before ++ e :: after) → isMapStatement e = true →
  after = []
  ∧ ∃ pre c p sent,
      Forall prelude pre
      ∧ before = pre ++ [WebhookSend c p (Some sent)]
      ∧ e = insertOf message sent c.
Proof.
  intros Hlog He. inversion Hlog as [own Hown | pre c p answer Hpre Heq | pre c p sent Hpre Heq].
  - apply Forall_app in Hown as [_ Hown]. apply Forall_cons in Hown as [Hown _].
    destruct (prelude_statement e Hown He).
  - assert (Hin : e ∈ pre ++ [WebhookSend c p answer]).
    { rewrite Heq. apply elem_of_app. right. by left. }
    apply elem_of_app in Hin as [Hin | Hin%list_elem_of_singleton].
    + rewrite Forall_forall in Hpre. destruct (prelude_statement e (Hpre e Hin) He).
    + by subst.
  - apply snoc2_split in Heq as (-> & -> & ->).
    + split; [done |]. by exists pre, c, p, sent.
    + intros Hin. rewrite Forall_forall in Hpre.
      destruct (prelude_statement e (Hpre e Hin) He).
    + intros ->. done.
Qed.

Lemma deletionLog_statement message before e after :
  deletionLog message (before ++ e :: after) → isMapStatement e = true →
  after = []
  ∧ e = DbRun (DeleteMessageMap (messageId message))
  ∧ ∃ c relayed, before = [WebhookDeleteMessage c relayed].
Proof.
  intros [Hnil | (c & relayed & [Hone | Htwo])] He.
  - by destruct before.
  - destruct before as [|x [|x' before]]; simplify_eq/=; try (by destruct before).
  - destruct before as [|x [|x' before]]; simplify_eq/=; try (by destruct before).
    split; [done |]. split; [done |]. by exists c, relayed.
Qed.

Lemma spared_statement before e after :
  Forall spared (before ++ e :: after) → isMapStatement e = true → False.
Proof.
  intros Hall He. apply Forall_app in Hall as [_ Hall].
  apply Forall_cons in Hall as [Hspared _]. unfold spared in Hspared. congruence.
Qed.

(** After its send resolved, a relay has nothing left to log but the
    INSERT. *)
Lemma relayLog_after_send message pre c p sent delta :
  relayLog message ((pre ++ [WebhookSend c p (Some sent)]) ++ delta) →
  delta = [] ∨ delta = [insertOf message sent c].
Proof.
  intros Hlog.
  inversion Hlog as [own Hown | pre' c' p' answer Hpre Heq | pre' c' p' sent' Hpre Heq].
  - apply Forall_app in Hown as [Hown _]. apply Forall_app in Hown as [_ Hown].
    apply Forall_singleton in Hown as [[] _].
  - destruct delta as [|y delta _] using rev_ind; [by left |].
    rewrite app_assoc in Heq. apply app_inj_tail in Heq as [-> _].
    apply Forall_app in Hpre as [Hpre _]. apply Forall_app in Hpre as [_ Hpre].
    apply Forall_singleton in Hpre as [[] _].
  - destruct delta as [|y delta _] using rev_ind; [by left |].
    change (pre' ++ [WebhookSend c' p' (Some sent'); insertOf message sent' c'])
      with (pre' ++ [WebhookSend c' p' (Some sent')] ++ [insertOf message sent' c']) in Heq.
    rewrite !app_assoc in Heq. apply app_inj_tail in Heq as [Heq <-].
    destruct delta as [|z delta _] using rev_ind.
    + rewrite app_nil_r in Heq. apply app_inj_tail in Heq as [_ Heq].
      injection Heq as -> _ ->. by right.
    + rewrite app_assoc in Heq. apply app_inj_tail in Heq as [-> _].
      apply Forall_app in Hpre as [Hpre _]. apply Forall_app in Hpre as [_ Hpre].
      apply Forall_singleton in Hpre as [[] _].
Qed.

End StatementsInTime.

(** ** Run without a pause, the programs are the handlers *)

Section WithoutPause.

Local Abbreviation forEachInOneGo := forEachWebhook (only parsing).

Import Async.

Lemma complete_bind {A C} (p : Prog A) (f : A → Prog C) w :
  complete (p ≫= f) w = (complete p ≫= λ a, complete (f a)) w.
Proof.
  change (complete (bind p f) w = (complete p ≫= λ a, complete (f a)) w).
  revert w.
  induction p as [A a | A e | A B io k IH | A B body IHbody handler IHhandler k IHk];
    intros w; simpl.
  - done.
  - done.
  - unfold mbind, M_bind. destruct (io w) as [[b | e] w1]; [apply IH | done].
  - unfold mbind, M_bind.
    destruct (try_catch (complete body) (λ e, complete (handler e)) w)
      as [[b | e] w1]; [apply IHk | done].
Qed.

Lemma agrees_ret {A} (a : A) : agrees (mret a) (mret a).
Proof. by intros w. Qed.

Lemma agrees_raise {A} (e : Error) : agrees (Raise e : Prog A) (throw e).
Proof. by intros w. Qed.

Lemma agrees_await {B} (io : M B) : agrees (await io) io.
Proof. intros w. simpl. unfold mbind, M_bind. by destruct (io w) as [[b | e] w1]. Qed.

Lemma agrees_bind {A C} (p : Prog A) (f : A → Prog C) (m : M A) (g : A → M C) :
  agrees p m → (∀ a, agrees (f a) (g a)) → agrees (p ≫= f) (m ≫= g).
Proof.
  intros Hp Hf w. rewrite complete_bind. unfold mbind, M_bind. rewrite Hp.
  destruct (m w) as [[a | e] w1]; [apply Hf | done].
Qed.

Lemma agrees_tryCatch {A} (body : Prog A) (handler : Error → Prog A)
    (m : M A) (h : Error → M A) :
  agrees body m → (∀ e, agrees (handler e) (h e)) →
  agrees (tryCatch body handler) (try_catch m h).
Proof.
  intros Hbody Hhandler w. simpl. unfold mbind, M_bind, try_catch. rewrite Hbody.
  destruct (m w) as [[a | e] w1]; [done |]. rewrite Hhandler.
  by destruct (h e w1) as [[a | e2] w2].
Qed.

Lemma agrees_tryFinally {A} (body : Prog A) (cleanup : Prog unit)
    (m : M A) (c : M unit) :
  agrees body m → agrees cleanup c →
  agrees (tryFinally body cleanup) (try_finally m c).
Proof.
  intros Hbody Hcleanup w. unfold tryFinally. simpl.
  unfold mbind at 1. unfold M_bind, try_catch, try_finally. rewrite Hbody.
  destruct (m w) as [[a | e] w1].
  - rewrite complete_bind. unfold mbind, M_bind. rewrite Hcleanup.
    by destruct (c w1) as [[[] | e] w2].
  - rewrite complete_bind. unfold mbind, M_bind. rewrite Hcleanup.
    by destruct (c w1) as [[[] | e2] w2].
Qed.

Ltac agree_go :=
  repeat first
    [ apply agrees_ret
    | apply agrees_raise
    | apply agrees_await
    | match goal with |- agrees (match ?x with _ => _ end) _ => destruct x end
    | apply agrees_tryFinally
    | apply agrees_tryCatch; [| intros ?]
    | apply agrees_bind; [| intros ?] ].

Lemma getOrCreateWebhook_agrees channelId answers :
  agrees (getOrCreateWebhook channelId answers)
    (Multi.getOrCreateWebhook channelId answers).
Proof.
  unfold Multi.getOrCreateWebhook.
  induction answers as [newId newToken | | next IH].
  - unfold getOrCreateWebhook, getOrCreateWebhookNamed. agree_go.
  - unfold getOrCreateWebhook, getOrCreateWebhookNamed. agree_go.
  - change (agrees
      (tryCatch
         (d ← await getDb;
          match webhooks d !! channelId with
          | Some row =>
              mret (Some {| credId := webhookId row; credToken := webhookToken row |})
          | None =>
              await (emit (CreateWebhook channelId "Relay Webhook"));;
              Raise (DiscordAPIError 10015)
          end)
         (λ error,
            match error with
            | DiscordAPIError code =>
                if code =? 10015
                then await (db_run (DeleteWebhook channelId));;
                     getOrCreateWebhook channelId next
                else mret None
            | _ => mret None
            end))
      (try_catch
         (d ← getDb;
          match webhooks d !! channelId with
          | Some row =>
              mret (Some {| credId := webhookId row; credToken := webhookToken row |})
          | None =>
              emit (CreateWebhook channelId "Relay Webhook");;
              throw (DiscordAPIError 10015)
          end)
         (λ error,
            match error with
            | DiscordAPIError code =>
                if code =? 10015
                then db_run (DeleteWebhook channelId);;
                     getOrCreateWebhookNamed "Relay Webhook" channelId next
                else mret None
            | _ => mret None
            end))).
    apply agrees_tryCatch; [agree_go |].
    intros [code | | |]; try apply agrees_ret.
    destruct (code =? 10015); [| apply agrees_ret].
    apply agrees_bind; [apply agrees_await | intros _; exact IH].
Qed.

Lemma sendWebhookMessage_agrees answers text attachment channelId name avatar :
  agrees (sendWebhookMessage answers text attachment channelId name avatar)
    (Multi.sendWebhookMessage answers text attachment channelId name avatar).
Proof.
  unfold sendWebhookMessage, Multi.sendWebhookMessage.
  apply agrees_bind; [apply getOrCreateWebhook_agrees |]. intros ?. agree_go.
Qed.

Lemma interactionCreate_agrees answers i :
  agrees (interactionCreate answers i) (Multi.interactionCreate answers i).
Proof.
  unfold interactionCreate, Multi.interactionCreate, relayCommand, Multi.relayCommand,
    webhookCommand, Multi.webhookCommand, isRelayChannel.
  destruct (negb (isCommand i)); [apply agrees_ret |].
  apply agrees_bind; [agree_go |]. intros returned.
  destruct returned; [apply agrees_ret |].
  destruct (commandName i =? "webhook")%string; [| apply agrees_ret].
  apply agrees_bind; [apply agrees_await |]. intros relay.
  destruct (negb relay); [apply agrees_await |].
  destruct (negb (truthy (optionMessage i)) && negb (truthy (optionAttachment i)));
    [apply agrees_await |].
  apply agrees_bind; [apply agrees_await |]. intros _.
  apply agrees_bind; [apply sendWebhookMessage_agrees |]. intros _. apply agrees_ret.
Qed.

Lemma messageCreate_agrees answers message :
  agrees (messageCreate answers message) (Multi.messageCreate answers message).
Proof.
  unfold messageCreate, Multi.messageCreate, isRelayChannel.
  destruct (bot (author message)); [apply agrees_ret |].
  apply agrees_bind; [apply agrees_await |]. intros relay.
  destruct (negb relay); [apply agrees_ret |].
  apply agrees_tryCatch; [| intros ?; apply agrees_ret].
  apply agrees_bind; [apply agrees_await |]. intros _.
  apply agrees_bind; [agree_go |]. intros limited.
  destruct limited; [apply agrees_await |].
  apply agrees_bind; [apply sendWebhookMessage_agrees |].
  intros [[sentMessage c] |]; [apply agrees_await | apply agrees_ret].
Qed.

Lemma messageUpdate_agrees editResolves newMessage :
  agrees (messageUpdate editResolves newMessage)
    (Multi.messageUpdate editResolves newMessage).
Proof. unfold messageUpdate, Multi.messageUpdate. agree_go. Qed.

Lemma messageDelete_agrees deleteMessageResolves message :
  agrees (messageDelete deleteMessageResolves message)
    (Multi.messageDelete deleteMessageResolves message).
Proof. unfold messageDelete, Multi.messageDelete. agree_go. Qed.

Lemma rotateOne_agrees answers webhook :
  agrees (rotateOne answers webhook) (Multi.rotateOne answers webhook).
Proof. unfold rotateOne, Multi.rotateOne. agree_go. Qed.

Lemma forEachWebhook_agrees answers allWebhooks rotatedCount :
  agrees (forEachWebhook (rotateOne answers) allWebhooks rotatedCount)
    (forEachInOneGo (Multi.rotateOne answers) allWebhooks rotatedCount).
Proof.
  revert rotatedCount.
  induction allWebhooks as [|webhook others IH]; intros rotatedCount;
    [apply agrees_ret |].
  change (agrees
            (rotateOne answers webhook ≫= λ rotated : bool,
               forEachWebhook (rotateOne answers) others
                 (if rotated then S rotatedCount else rotatedCount))
            (Multi.rotateOne answers webhook ≫= λ rotated : bool,
               forEachInOneGo (Multi.rotateOne answers) others
                 (if rotated then S rotatedCount else rotatedCount))).
  apply agrees_bind; [apply rotateOne_agrees |]. intros rotated. apply IH.
Qed.

Lemma rotateWebhooks_agrees answers :
  agrees (rotateWebhooks answers) (Multi.rotateWebhooks answers).
Proof.
  unfold rotateWebhooks, Multi.rotateWebhooks, writeWatermark.
  apply agrees_bind; [apply agrees_await |]. intros d.
  destruct (map_to_list (webhooks d)) as [|webhook others] eqn:Hrows; [agree_go |].
  apply agrees_bind; [apply forEachWebhook_agrees |]. intros ?. agree_go.
Qed.

Lemma scheduleRotation_agrees answers :
  agrees (scheduleRotation answers) (Multi.scheduleRotation answers).
Proof.
  unfold scheduleRotation, Multi.scheduleRotation.
  apply agrees_bind; [apply agrees_await |]. intros d.
  apply agrees_bind; [| intros ?; agree_go].
  destruct (negb (truthy (bot_meta d !! "lastRotationTimestamp"))).
  { apply agrees_bind; [apply rotateWebhooks_agrees | intros ?; apply agrees_ret]. }
  destruct (Js.parseInt _) as [last |]; [| apply agrees_ret].
  destruct (_ >=? _); [| apply agrees_ret].
  apply agrees_bind; [apply rotateWebhooks_agrees | intros ?; apply agrees_ret].
Qed.

Lemma handler_agrees ev : agrees (handler ev) (Multi.handler ev).
Proof.
  destruct ev as [answers | pass answers | answers i | answers message
                 | editResolves newMessage | deleteMessageResolves message];
    unfold handler, Multi.handler.
  - apply agrees_bind; [apply scheduleRotation_agrees | intros ?; apply agrees_ret].
  - apply agrees_bind; [| intros ?; apply agrees_ret].
    unfold onTimeout, Multi.onTimeout.
    apply agrees_bind; [apply rotateWebhooks_agrees |].
    intros ?. apply scheduleRotation_agrees.
  - apply interactionCreate_agrees.
  - apply messageCreate_agrees.
  - apply messageUpdate_agrees.
  - apply messageDelete_agrees.
Qed.

End WithoutPause.

(** ** Step by step *)

Section StepByStep.

Import Async.

(** A step and then the rest is the whole. *)
Lemma step_then_complete {A} (p : Prog A) w :
  complete (fst (step p w)) (snd (step p w)) = complete p w.
Proof.
  revert w.
  induction p as [A a | A e | A B io k IH | A B body IHbody handler IHhandler k IHk];
    intros w.
  - done.
  - done.
  - simpl. unfold mbind, M_bind. by destruct (io w) as [[b | e] w1].
  - destruct body as [b | e | B' io k' | B' body' handler' k'].
    + done.
    + simpl. rewrite (complete_bind (handler e) k). done.
    + specialize (IHbody w). cbn [step] in *.
      destruct (io w) as [[b | e] w1]; simpl in *;
        unfold mbind, M_bind, try_catch in *; by rewrite IHbody.
    + specialize (IHbody w).
      change (step (Try (Try body' handler' k') handler k) w)
        with (let '(body1, w1) := step (Try body' handler' k') w in
              (Try body1 handler k, w1)).
      destruct (step (Try body' handler' k') w) as [body1 w1]. simpl in *.
      unfold mbind, M_bind, try_catch in *. by rewrite IHbody.
Qed.

Lemma halts_Try {A B} (body : Prog B) (handler : Error → Prog B) (k : B → Prog A) :
  halts body → (∀ e, halts (handler e ≫= k)) → (∀ b, halts (k b)) →
  halts (Try body handler k).
Proof.
  intros Hbody Hhandler Hk.
  induction Hbody as [body Hended | body Hsteps IH].
  - apply halts_step. intros w.
    destruct body as [b | e | B' io k' | B' body' handler' k']; try done.
    + apply Hk.
    + apply Hhandler.
  - apply halts_step. intros w.
    destruct body as [b | e | B' io k' | B' body' handler' k'].
    + apply Hk.
    + apply Hhandler.
    + specialize (IH w). cbn [step] in *. by destruct (io w) as [[b | e] w1].
    + specialize (IH w).
      change (step (Try (Try body' handler' k') handler k) w)
        with (let '(body1, w1) := step (Try body' handler' k') w in
              (Try body1 handler k, w1)).
      by destruct (step (Try body' handler' k') w) as [body1 w1].
Qed.

Lemma halts_bound {A} (p : Prog A) :
  halts p ∧ ∀ C (f : A → Prog C), (∀ a, halts (f a)) → halts (p ≫= f).
Proof.
  induction p as [A a | A e | A B io k IH | A B body IHbody handler IHhandler k IHk].
  - split; [by apply halts_ended | intros C f Hf; apply Hf].
  - split; [by apply halts_ended | intros C f Hf; by apply halts_ended].
  - split.
    + apply halts_step. intros w. simpl.
      destruct (io w) as [[b | e] w1]; [apply IH | by apply halts_ended].
    + intros C f Hf. apply halts_step. intros w. simpl.
      destruct (io w) as [[b | e] w1]; [by apply IH | by apply halts_ended].
  - split.
    + apply halts_Try; [apply IHbody | | intros b; apply IHk].
      intros e. apply IHhandler. intros b. apply IHk.
    + intros C f Hf.
      change (halts (Try body handler (λ b, k b ≫= f))).
      apply halts_Try; [apply IHbody | | intros b; by apply IHk].
      intros e. apply IHhandler. intros b. by apply IHk.
Qed.

(** Every program ends when it is resumed often enough. *)
Lemma every_program_halts {A} (p : Prog A) : halts p.
Proof. apply halts_bound. Qed.

End StepByStep.

(** ** The message map at every await *)

Section MessageMapInTime.

Import Async.

(** C1.  However the handlers of [part_001] are interleaved at their
    awaits, at every point of the execution: the message map has a row
    for an original message id exactly when the log holds an INSERT of
    that row with no DELETE of it afterwards; every INSERT was run by a
    handler of [messageCreate], for its own message, directly after its
    own webhook send had resolved with the sent message, and every DELETE
    by a handler of [messageDelete], for its own message, directly after
    its attempt to delete the relayed copy; a handler keeps to the log of
    its event, and one that has ended has left no resolved send without
    its INSERT and no attempt without its DELETE; a relay whose send has
    resolved has the INSERT, and nothing else, left to do, and a deletion
    that has attempted to delete the relayed copy has the DELETE left to
    do, whether or not the attempt resolved, after which the row is gone;
    run without a pause, the handlers are those of [Multi], a step and
    then the rest being the whole; and every handler ends when it is
    resumed often enough, whatever the others did in between. *)
Theorem message_mapping_iff_send_succeeded (moves : list Move) :
  let s := run moves start in
  (∀ id, is_Some (message_map (db (world s)) !! id)
         ↔ insertedAndKept id (effects (world s)))
  ∧ effects (world s) = (journal s).*2
  ∧ (∀ before task id sent channelId wid token after,
       journal s
       = before ++ (task, DbRun (InsertMessageMap id sent channelId wid token)) :: after →
       ∃ answers message rest pre p,
         tasks s !! task
         = Some {| origin := Multi.MessageCreate answers message; rest := rest |}
         ∧ id = messageId message
         ∧ channelId = messageChannelId message
         ∧ ownLog task before
           = pre ++ [WebhookSend {| credId := wid; credToken := token |} p (Some sent)]
         ∧ Forall prelude pre
         ∧ ownLog task after = [])
  ∧ (∀ before task id after,
       journal s = before ++ (task, DbRun (DeleteMessageMap id)) :: after →
       ∃ deleteMessageResolves message rest c relayed,
         tasks s !! task
         = Some {| origin := Multi.MessageDelete deleteMessageResolves message;
                   rest := rest |}
         ∧ id = messageId message
         ∧ ownLog task before = [WebhookDeleteMessage c relayed]
         ∧ ownLog task after = [])
  ∧ (∀ t task,
       tasks s !! t = Some task →
       ownLogOf (origin task) (ownLog t (journal s))
       ∧ (ended (rest task) = true →
          ownLogAtEnd (origin task) (ownLog t (journal s))))
  ∧ (∀ t answers message rest pre c p sent w,
       tasks s !! t
       = Some {| origin := Multi.MessageCreate answers message; rest := rest |} →
       ownLog t (journal s) = pre ++ [WebhookSend c p (Some sent)] →
       effects (snd (complete rest w)) = effects w ++ [insertOf message sent c]
       ∧ is_Some (message_map (db (snd (complete rest w))) !! messageId message))
  ∧ (∀ t deleteMessageResolves message rest c relayed w,
       tasks s !! t
       = Some {| origin := Multi.MessageDelete deleteMessageResolves message;
                 rest := rest |} →
       ownLog t (journal s) = [WebhookDeleteMessage c relayed] →
       effects (snd (complete rest w))
       = effects w ++ [DbRun (DeleteMessageMap (messageId message))]
       ∧ message_map (db (snd (complete rest w))) !! messageId message = None)
  ∧ (∀ ev w, complete (handler ev) w = Multi.handler ev w)
  ∧ (∀ (p : Prog unit) w, complete (fst (step p w)) (snd (step p w)) = complete p w)
  ∧ (∀ t task, tasks s !! t = Some task → halts (rest task)).
Proof.
  intros s.
  destruct (run_consistent moves start start_consistent)
    as (Heffs & Hmap & Htags & Htasks).
  fold s in Heffs, Hmap, Htags, Htasks.
  assert (Hentry : ∀ before task e after,
            journal s = before ++ (task, e) :: after →
            ∃ tk, tasks s !! task = Some tk
                  ∧ ownLogOf (origin tk) (ownLog task before ++ e :: ownLog task after)).
  { intros before task e after Hjournal.
    assert (Hlt : (task < length (tasks s))%nat).
    { apply (Htags (task, e)). rewrite Hjournal. apply elem_of_app. right. by left. }
    apply lookup_lt_is_Some in Hlt as [tk Htk]. exists tk. split; [done |].
    destruct (Htasks task tk Htk) as [Hshape _].
    by rewrite Hjournal, ownLog_entry in Hshape. }
  split_and!.
  - intros id. rewrite Hmap, replay_lookup, lookup_empty.
    split; [intros [? | [[? ?] _]]; done | by left].
  - done.
  - intros before task id sent channelId wid token after Hjournal.
    destruct (Hentry _ _ _ _ Hjournal) as ([ev rest] & Htk & Hshape).
    destruct ev as [answers | pass answers | answers i | answers message
                   | editResolves newMessage | deleteMessageResolves message];
      simpl in Hshape;
      try (by destruct (spared_statement _ _ _ Hshape eq_refl)).
    + apply relayLog_statement in Hshape as (Hafter & pre & c & p & sent' & Hpre & Hbefore & Hins);
        [| done].
      injection Hins as -> -> -> -> ->.
      exists answers, message, rest, pre, p. by destruct c.
    + by apply deletionLog_statement in Hshape as (_ & ? & _).
  - intros before task id after Hjournal.
    destruct (Hentry _ _ _ _ Hjournal) as ([ev rest] & Htk & Hshape).
    destruct ev as [answers | pass answers | answers i | answers message
                   | editResolves newMessage | deleteMessageResolves message];
      simpl in Hshape;
      try (by destruct (spared_statement _ _ _ Hshape eq_refl)).
    + by apply relayLog_statement in Hshape as (_ & ? & ? & ? & ? & _ & _ & ?).
    + apply deletionLog_statement in Hshape as (Hafter & Hdel & c & relayed & Hbefore);
        [| done].
      injection Hdel as ->.
      by exists deleteMessageResolves, message, rest, c, relayed.
  - intros t task Htask. destruct (Htasks t task Htask) as [Hshape Hwp].
    split; [done |]. intros Hended.
    destruct (rest task) as [[] | e | B io k | B body handler k]; try done.
  - intros t answers message rest pre c p sent w Htask Hown.
    destruct (Htasks t _ Htask) as [_ Hwp]. simpl in Hwp. rewrite Hown in Hwp.
    destruct (wp_complete _ _ _ _ w Hwp) as (delta & Hdelta & Htable & [Hlog Hlast]).
    destruct (relayLog_after_send _ _ _ _ _ _ Hlog) as [-> | ->].
    + rewrite app_nil_r in Hlast. destruct (Hlast c p sent). apply last_snoc.
    + split; [done |]. rewrite Htable. simpl.
      destruct (message_map (db w) !! messageId message) as [row |] eqn:Hrow.
      * by rewrite Hrow.
      * rewrite lookup_insert_eq. by eexists.
  - intros t deleteMessageResolves message rest c relayed w Htask Hown.
    destruct (Htasks t _ Htask) as [_ Hwp]. simpl in Hwp. rewrite Hown in Hwp.
    destruct (wp_complete _ _ _ _ w Hwp)
      as (delta & Hdelta & Htable & [Hnil | (c' & relayed' & Hlog)]).
    + done.
    + injection Hlog as _ _ ->. split; [done |]. rewrite Htable. simpl.
      apply lookup_delete_eq.
  - intros ev. apply handler_agrees.
  - intros p w. apply step_then_complete.
  - intros t task _. apply every_program_halts.
Qed.

(** The relay of [part_001]:325-327, its own deletion handled while it
    waits.  The deletion finds no row and does nothing; right after the
    send has resolved the row is not there yet; at the end it is. *)
Example deletion_handled_during_the_relay :
  let sent := WebhookSend {| credId := "wh1"; credToken := "tok1" |}
                {| content := Some "hello"; username := "Alice";
                   avatarURL := "https://cdn.example/alice.png"; files := [] |}
                (Some "r1") in
  let atSend := run (take 16 relayWithDeletionInBetween) start in
  let atEnd := run relayWithDeletionInBetween start in
  ownLog 2 (journal atEnd) = []
  ∧ ownLog 1 (journal atSend)
    = [MessageDeleted "m1" true; RateLimitChecked "alice" false;
       CreateWebhook "c1" "Relay Webhook"; DbRun (InsertWebhook "c1" "wh1" "tok1");
       sent]
  ∧ message_map (db (world atSend)) !! "m1" = None
  ∧ ownLog 1 (journal atEnd)
    = ownLog 1 (journal atSend) ++ [DbRun (InsertMessageMap "m1" "r1" "c1" "wh1" "tok1")]
  ∧ message_map (db (world atEnd)) !! "m1"
    = Some {| webhookMessageId := "r1"; mapChannelId := "c1";
              mapWebhookId := "wh1"; mapWebhookToken := "tok1" |}
  ∧ Forall (λ task, ended (rest task) = true) (tasks atEnd).
Proof. vm_compute. split_and!; try done. repeat constructor. Qed.

(** The deletion handled after the row was written: the relayed copy is
    deleted with the credentials of the row, and though that is refused
    the row goes. *)
Example deletion_handled_after_the_relay :
  let atEnd := run relayWithDeletionAfterwards start in
  ownLog 2 (journal atEnd)
  = [WebhookDeleteMessage {| credId := "wh1"; credToken := "tok1" |} "r1";
     DbRun (DeleteMessageMap "m1")]
  ∧ message_map (db (world atEnd)) !! "m1" = None
  ∧ Forall (λ task, ended (rest task) = true) (tasks atEnd).
Proof. vm_compute. split_and!; try done. repeat constructor. Qed.

End MessageMapInTime.

(** ** What lets an event through *)

Lemma messageUpdate_unmapped editResolves newMessage w :
  message_map (db w) !! messageId newMessage = None →
  Multi.messageUpdate editResolves newMessage w = (Returned tt, w).
Proof.
  intros Hrow. unfold Multi.messageUpdate.
  destruct (bot (author newMessage)); [done |]. unfold_M. by rewrite Hrow.
Qed.

Lemma messageDelete_unmapped deleteMessageResolves message w :
  message_map (db w) !! messageId message = None →
  Multi.messageDelete deleteMessageResolves message w = (Returned tt, w).
Proof. intros Hrow. unfold Multi.messageDelete. unfold_M. by rewrite Hrow. Qed.

Lemma messageUpdate_mapped editResolves newMessage mapping w :
  bot (author newMessage) = false →
  message_map (db w) !! messageId newMessage = Some mapping →
  Multi.messageUpdate editResolves newMessage w
  = (Returned tt,
     recording w [WebhookEditMessage (Multi.mappingCredentials mapping)
                    (webhookMessageId mapping) (messageContent newMessage)]).
Proof.
  intros Hbot Hrow. unfold Multi.messageUpdate. rewrite Hbot.
  unfold_M. rewrite Hrow. by destruct editResolves.
Qed.

Lemma messageDelete_mapped deleteMessageResolves message mapping w :
  message_map (db w) !! messageId message = Some mapping →
  Multi.messageDelete deleteMessageResolves message w
  = (Returned tt,
     {| db := withMessageMap (db w) (delete (messageId message) (message_map (db w)));
        userMessageCounts := userMessageCounts w;
        effects := effects w
                   ++ [WebhookDeleteMessage (Multi.mappingCredentials mapping)
                         (webhookMessageId mapping);
                       DbRun (DeleteMessageMap (messageId message))] |}).
Proof.
  intros Hrow. unfold Multi.messageDelete. unfold_M. rewrite Hrow.
  destruct deleteMessageResolves; simpl; by rewrite <- app_assoc.
Qed.

(** C5, as the code has it.  A message created in a channel that is not a
    relay channel leaves the world as it was: nothing deleted, no webhook
    call, no table written.  Edits and deletions are gated by the message
    map instead, and the relay channels are not consulted: without a row for
    the message nothing happens; with a row the edit is mirrored, and the
    deletion is mirrored and the row dropped. *)
Theorem gate_channel_for_create_mapping_for_edit_delete (w : World) (message : Message) :
  (relay_channels (db w) !! messageChannelId message = None →
   ∀ answers, Multi.messageCreate answers message w = (Returned tt, w))
  ∧ (message_map (db w) !! messageId message = None →
     ∀ resolved,
       Multi.messageUpdate resolved message w = (Returned tt, w)
       ∧ Multi.messageDelete resolved message w = (Returned tt, w))
  ∧ (∀ mapping resolved,
       message_map (db w) !! messageId message = Some mapping →
       (bot (author message) = false →
        Multi.messageUpdate resolved message w
        = (Returned tt,
           recording w [WebhookEditMessage (Multi.mappingCredentials mapping)
                          (webhookMessageId mapping) (messageContent message)]))
       ∧ Multi.messageDelete resolved message w
         = (Returned tt,
            {| db := withMessageMap (db w)
                       (delete (messageId message) (message_map (db w)));
               userMessageCounts := userMessageCounts w;
               effects := effects w
                          ++ [WebhookDeleteMessage (Multi.mappingCredentials mapping)
                                (webhookMessageId mapping);
                              DbRun (DeleteMessageMap (messageId message))] |})).
Proof.
  split_and!.
  - intros Hgate answers. apply messageCreate_gate_closed. by right.
  - intros Hrow resolved. split.
    + by apply messageUpdate_unmapped.
    + by apply messageDelete_unmapped.
  - intros mapping resolved Hrow. split.
    + intros Hbot. by apply messageUpdate_mapped.
    + by apply messageDelete_mapped.
Qed.

Lemma gate_channel_for_create_mapping_for_edit_delete_witness :
  Multi.messageCreate (Sample.platformOk 3 "r2") (Sample.original "m2" "c1")
    Sample.afterChannelRemoved
  = (Returned tt, Sample.afterChannelRemoved)
  ∧ Multi.messageDelete true (Sample.original "m2" "c1") Sample.afterChannelRemoved
    = (Returned tt, Sample.afterChannelRemoved)
  ∧ effects (snd (Multi.messageDelete false (Sample.original "m1" "c1")
                    Sample.afterChannelRemoved))
    = effects Sample.afterChannelRemoved
      ++ [WebhookDeleteMessage {| credId := "wh1"; credToken := "tok1" |} "r1";
          DbRun (DeleteMessageMap "m1")].
Proof.
  destruct (gate_channel_for_create_mapping_for_edit_delete
              Sample.afterChannelRemoved (Sample.original "m2" "c1"))
    as (Hcreate & Hunmapped & _).
  destruct (gate_channel_for_create_mapping_for_edit_delete
              Sample.afterChannelRemoved (Sample.original "m1" "c1"))
    as (_ & _ & Hmapped).
  split_and!.
  - apply Hcreate. reflexivity.
  - apply Hunmapped. reflexivity.
  - destruct (Hmapped {| webhookMessageId := "r1"; mapChannelId := "c1";
                         mapWebhookId := "wh1"; mapWebhookToken := "tok1" |}
                false) as [_ Hdelete]; [reflexivity |].
    rewrite Hdelete. reflexivity.
Defined.

(** C5, as stated, fails: [c1] is no relay channel any more, and the
    deletion of [m1], a message of [c1], still calls the webhook and
    rewrites the message map. *)
Lemma deletion_mirrored_outside_relay_channels :
  relay_channels (db Sample.afterChannelRemoved)
    !! messageChannelId (Sample.original "m1" "c1") = None
  ∧ effects (Multi.dispatch (Multi.MessageDelete true (Sample.original "m1" "c1"))
               Sample.afterChannelRemoved)
    = [WebhookDeleteMessage {| credId := "wh1"; credToken := "tok1" |} "r1";
       DbRun (DeleteMessageMap "m1")]
  ∧ message_map (db Sample.afterChannelRemoved) !! "m1"
    = Some {| webhookMessageId := "r1"; mapChannelId := "c1";
              mapWebhookId := "wh1"; mapWebhookToken := "tok1" |}
  ∧ message_map (db (Multi.dispatch
                       (Multi.MessageDelete true (Sample.original "m1" "c1"))
                       Sample.afterChannelRemoved)) !! "m1" = None.
Proof. split_and!; reflexivity. Qed.

(** C10.  Whatever the platform answers, [part_001]'s handler of an
    interaction leaves the message map as it was; so a message id that had
    no row before the command has none after it, and its edit or deletion
    is handled without any effect. *)
Theorem webhook_command_records_no_mapping
    (answers : RelayAnswers) (i : Interaction) (w : World) :
  let after := snd (Multi.interactionCreate answers i w) in
  message_map (db after) = message_map (db w)
  ∧ ∀ resolved message,
      message_map (db w) !! messageId message = None →
      Multi.messageUpdate resolved message after = (Returned tt, after)
      ∧ Multi.messageDelete resolved message after = (Returned tt, after).
Proof.
  intros after.
  assert (Hsame : message_map (db after) = message_map (db w))
    by apply (interactionCreate_sameMessageMap answers i w).
  split; [done |]. intros resolved message Hrow. rewrite <- Hsame in Hrow.
  split; [by apply messageUpdate_unmapped | by apply messageDelete_unmapped].
Qed.

Lemma webhook_command_records_no_mapping_witness :
  let after := snd (Multi.interactionCreate (Sample.platformOk 1 "r9")
                      (Sample.webhook "c1" "hi") Sample.channelAdded) in
  effects after
  = [Reply "Deine Nachricht wird gesendet...";
     CreateWebhook "c1" "Relay Webhook";
     DbRun (InsertWebhook "c1" "wh1" "tok1");
     WebhookSend {| credId := "wh1"; credToken := "tok1" |}
       {| content := Some "hi"; username := "Alice";
          avatarURL := "https://cdn.example/alice.png"; files := [] |}
       (Some "r9")]
  ∧ message_map (db after) = message_map (db Sample.channelAdded)
  ∧ Multi.messageDelete true (Sample.original "r9" "c1") after = (Returned tt, after).
Proof.
  intros after. split; [reflexivity |].
  destruct (webhook_command_records_no_mapping
              (Sample.platformOk 1 "r9") (Sample.webhook "c1" "hi")
              Sample.channelAdded) as [Hmap Hlater].
  split.
  - exact Hmap.
  - apply (Hlater true (Sample.original "r9" "c1")). reflexivity.
Defined.

(** ** The /webhook command and the rate limit *)

(** [src/bot.js]: a non-administrator over the limit gets the private notice
    and nothing is sent. *)
Lemma bot_js_command_over_limit allowed answers i w :
  isCommand i = true →
  commandName i = "webhook" →
  AllowList.includes allowed (interactionChannelId i) = true →
  truthy (optionMessage i) || truthy (optionAttachment i) = true →
  interactionIsAdministrator i = false →
  fst (RateLimiter.isUserRateLimited (userMessageCounts w)
         (userId (interactionUser i)) (dateNow answers)) = true →
  snd (AllowList.interactionCreate allowed answers i w)
  = {| db := db w;
       userMessageCounts :=
         snd (RateLimiter.isUserRateLimited (userMessageCounts w)
                (userId (interactionUser i)) (dateNow answers));
       effects := effects w
                  ++ [RateLimitChecked (userId (interactionUser i)) true;
                      Reply "Du sendest Befehle zu schnell. Bitte warte einen Moment."] |}.
Proof.
  intros Hcmd Hname Hallowed Hcontent Hadmin Hlimited.
  unfold AllowList.interactionCreate.
  rewrite Hcmd, Hname, Hallowed, Hadmin. simpl.
  apply orb_true_iff in Hcontent.
  assert (negb (truthy (optionMessage i)) && negb (truthy (optionAttachment i)) = false)
    as -> by (destruct Hcontent as [-> | ->]; by rewrite ?andb_false_r).
  unfold RateLimiter.isUserRateLimited in *. simpl in Hlimited.
  unfold_M. rewrite Hlimited. simpl. by rewrite <- app_assoc.
Qed.

(** [part_001]: no interaction touches the rate-limit map. *)
Lemma part_001_command_never_checks answers i :
  preserves sameCounts (Multi.interactionCreate answers i).
Proof.
  assert (Hpre : PreOrder sameCounts).
  { split; [by intros ? | intros ???; unfold sameCounts; congruence]. }
  assert (Hemit : ∀ e, preserves sameCounts (emit e)) by (by intros e w0).
  assert (Hrun : ∀ s, preserves sameCounts (db_run s)).
  { intros s w0. unfold sameCounts. unfold_M. by destruct (execute s (db w0)). }
  assert (Hgoc : ∀ name c a, preserves sameCounts (getOrCreateWebhookNamed name c a)).
  { intros name c a. eapply preserves_weaken; [| apply getOrCreateWebhook_identityOnly].
    by intros ?? (_ & _ & _ & ? & _). }
  unfold Multi.interactionCreate, Multi.relayCommand, Multi.webhookCommand,
    Multi.isRelayChannel, Multi.sendWebhookMessage, Multi.getOrCreateWebhook.
  preserve; auto.
Qed.

(** C6 on [part_001].  alice, no administrator, has just had her fourth
    message within four milliseconds refused; a check at 4 ms would find
    her over the limit; her [/webhook] command at 4 ms is relayed all the
    same, with no check and no notice. *)
Theorem part_001_command_relays_over_limit :
  let before := fst (Multi.run Sample.fourMessages Multi.start) in
  last (snd (Multi.run Sample.fourMessages Multi.start)).*2
  = Some [MessageDeleted "m4" true; RateLimitChecked "alice" true;
          DirectMessage "alice" rateLimitNotice]
  ∧ relay_channels (db before) !! "c1" = Some "guild"
  ∧ fst (RateLimiter.isUserRateLimited (userMessageCounts before) "alice" 4) = true
  ∧ effects (Multi.dispatch
               (Multi.InteractionCreate (Sample.platformOk 4 "r5")
                  (Sample.webhook "c1" "hi")) before)
    = [Reply "Deine Nachricht wird gesendet...";
       WebhookSend {| credId := "wh1"; credToken := "tok1" |}
         {| content := Some "hi"; username := "Alice";
            avatarURL := "https://cdn.example/alice.png"; files := [] |}
         (Some "r5")].
Proof. split_and!; reflexivity. Qed.

(** The same command in [src/bot.js], from the same rate-limit map. *)
Example bot_js_command_refused_over_limit :
  effects (snd (AllowList.interactionCreate ["c1"] (Sample.platformOk 4 "r5")
                  (Sample.webhook "c1" "hi")
                  {| db := emptyDb;
                     userMessageCounts := {["alice" := [0; 1; 2; 3]]};
                     effects := [] |}))
  = [RateLimitChecked "alice" true;
     Reply "Du sendest Befehle zu schnell. Bitte warte einen Moment."].
Proof. reflexivity. Qed.

(** ** The order of the pipeline's steps *)

Lemma steps_app l1 l2 : steps (l1 ++ l2) = steps l1 ++ steps l2.
Proof. apply omap_app. Qed.

Lemma steps_quiet l : Forall (λ e, stepOf e = None) l → steps l = [].
Proof.
  induction 1 as [|e l He _ IH]; [done |]. unfold steps in *. simpl.
  by rewrite He.
Qed.

Lemma identity_effect_quiet e : isIdentityEffect e → stepOf e = None.
Proof. destruct e as [| | | | | | | | | | | |[]]; simpl; done. Qed.

Lemma identity_effects_quiet l :
  Forall isIdentityEffect l → Forall (λ e, stepOf e = None) l.
Proof. intros H. eapply Forall_impl; [exact H | apply identity_effect_quiet]. Qed.

(** The effects of one accepted message in [part_001]: the deletion, at
    most one rate check, effects that are no pipeline step, and then
    nothing, a rejected send, or a send that resolved followed by the
    insertion of its row. *)
Lemma pipeline_shape answers message w w' :
  pipeline answers message w w' → effects w = [] →
  ∃ rate quiet tail,
    effects w'
    = MessageDeleted (messageId message) (deleteResolves answers)
        :: rate ++ quiet ++ tail
    ∧ (rate = [] ∨ ∃ limited, rate = [RateLimitChecked (userId (author message)) limited])
    ∧ Forall (λ e, stepOf e = None) quiet
    ∧ (tail = []
       ∨ (∃ c p, tail = [WebhookSend c p None])
       ∨ (∃ c p sent,
            sendAnswer answers = Some sent
            ∧ tail = [WebhookSend c p (Some sent);
                      DbRun (InsertMessageMap (messageId message) sent
                               (messageChannelId message) (credId c) (credToken c))])).
Proof.
  intros Hp Hclean.
  assert (Hthrough : ∀ w0, deleteResolves answers = true →
            letThrough answers message w w0 →
            ∃ rate, effects w0
                    = MessageDeleted (messageId message) (deleteResolves answers) :: rate
              ∧ (rate = [] ∨ ∃ limited,
                    rate = [RateLimitChecked (userId (author message)) limited])).
  { intros w0 -> [Hadmin | counts Hadmin Hrl]; simpl; rewrite Hclean; simpl.
    - exists []. split; [done | by left].
    - eexists. split; [done | right; by eexists]. }
  destruct Hp as [Hdel | counts Hdel Hadmin Hrl | w0 w1 Hdel Hth Hid
                 | w0 w1 c p Hdel Hth Hid Hans
                 | w0 w1 c p sent Hdel Hth Hid Hans insert].
  - exists [], [], []. simpl. rewrite Hclean, Hdel. split_and!; auto.
  - exists [RateLimitChecked (userId (author message)) true],
      [DirectMessage (userId (author message)) rateLimitNotice], [].
    simpl. rewrite Hclean, Hdel. split_and!; eauto.
  - destruct (Hthrough w0 Hdel Hth) as (rate & Hw0 & Hrate).
    destruct Hid as (_ & _ & _ & _ & more & Hw1 & Hmore).
    exists rate, more, []. rewrite Hw1, Hw0, app_nil_r.
    split_and!; auto using identity_effects_quiet.
  - destruct (Hthrough w0 Hdel Hth) as (rate & Hw0 & Hrate).
    destruct Hid as (_ & _ & _ & _ & more & Hw1 & Hmore).
    exists rate, more, [WebhookSend c p None]. simpl. rewrite Hw1, Hw0.
    split_and!; eauto using identity_effects_quiet.
    simpl. by rewrite <- app_assoc.
  - destruct (Hthrough w0 Hdel Hth) as (rate & Hw0 & Hrate).
    destruct Hid as (_ & _ & _ & _ & more & Hw1 & Hmore).
    exists rate, more, [WebhookSend c p (Some sent); DbRun insert].
    simpl. rewrite Hw1, Hw0.
    split_and!; eauto 10 using identity_effects_quiet.
    simpl. by rewrite <- app_assoc.
Qed.

Lemma bot_js_sendWebhookMessage_cases answers message attachment channelId name avatar w :
  ∃ w1, identityOnly w w1 ∧
    (AllowList.sendWebhookMessage answers message attachment channelId name avatar w
       = (Returned tt, w1)
     ∨ ∃ c p,
         AllowList.sendWebhookMessage answers message attachment channelId name avatar w
         = (Returned tt, recording w1 [WebhookSend c p (sendAnswer answers)])).
Proof.
  unfold AllowList.sendWebhookMessage, AllowList.getOrCreateWebhook.
  pose proof (getOrCreateWebhook_identityOnly "General Webhook" channelId
                (createAnswers answers) w) as Hid.
  destruct (getOrCreateWebhook_returns "General Webhook" channelId
              (createAnswers answers) w) as [r Hr].
  unfold mbind, M_bind.
  destruct (getOrCreateWebhookNamed "General Webhook" channelId (createAnswers answers) w)
    as [o w1].
  simpl in Hr, Hid. subst o. exists w1. split; [done |].
  destruct r as [c |]; [| by left].
  right. unfold_M. exists c. eexists.
  destruct (sendAnswer answers) as [sent |]; simpl; reflexivity.
Qed.

Lemma bot_js_messageCreate_pipeline allowed answers message w :
  bot (author message) = false →
  AllowList.includes allowed (messageChannelId message) = true →
  botJsPipeline answers message w
    (snd (AllowList.messageCreate allowed answers message w)).
Proof.
  intros Hbot Hallowed.
  unfold AllowList.messageCreate. rewrite Hbot, Hallowed. cbn [negb orb].
  unfold try_catch at 1. unfold mbind at 1, M_bind at 1.
  fold (nothingToRelay message).
  assert (Hrest : ∀ w0, botJsLetThrough answers message w w0 →
            botJsPipeline answers message w
              (snd (let (o, w1) :=
                      (if nothingToRelay message
                       then mret ()
                       else
                         AllowList.sendWebhookMessage answers
                           (Some (messageContent message)) (head (attachments message))
                           (messageChannelId message) (memberDisplayName message)
                           (displayAvatarURL (author message));;
                         emit (MessageDeleted (messageId message)
                                 (deleteResolves answers))) w0 in
                    match o return (Outcome () * World) with
                    | Returned a => (Returned a, w1)
                    | Thrown _ => (mret () : M ()) w1
                    end))).
  { intros w0 Hthrough.
    destruct (nothingToRelay message) eqn:Hnothing.
    - by apply bot_js_nothing_to_relay.
    - destruct (bot_js_sendWebhookMessage_cases answers (Some (messageContent message))
                  (head (attachments message)) (messageChannelId message)
                  (memberDisplayName message) (displayAvatarURL (author message)) w0)
        as (w1 & Hid & [Hsend | (c & p & Hsend)]);
        unfold mbind at 1, M_bind at 1; rewrite Hsend; unfold_M.
      + by eapply bot_js_no_webhook.
      + rewrite <- app_assoc. by eapply bot_js_send_attempted. }
  destruct (memberIsAdministrator message) eqn:Hadmin.
  - unfold mret at 1, M_ret at 1. apply Hrest. by apply bot_js_through_administrator.
  - unfold rateLimited at 1.
    destruct (RateLimiter.isUserRateLimited (userMessageCounts w)
                (userId (author message)) (dateNow answers)) as [limited counts] eqn:Hrl.
    destruct limited.
    + unfold_M. rewrite <- !app_assoc. by apply bot_js_rate_limited.
    + apply Hrest. by apply bot_js_through_under_limit.
Qed.

Lemma steps_in (s : Step) (effs : list Effect) :
  s ∈ steps effs ↔ ∃ e, e ∈ effs ∧ stepOf e = Some s.
Proof. unfold steps. rewrite list_elem_of_omap. naive_solver. Qed.

Ltac sorted_ranks :=
  solve [repeat first [apply SSorted_nil | apply SSorted_cons
                      | apply List.Forall_nil | apply List.Forall_cons
                      | apply Nat.ltb_lt; reflexivity]].

(** C2, as the code has it.  For a message let through,
    [part_001] deletes the original first, whatever the platform answers
    later, its steps come in the order delete, rate check, send, map, and a
    row is inserted only right after a send that resolved with the sent
    message; [src/bot.js] has the order rate check, send, delete: it never
    maps, and the deletion is its last effect, after the send if one was
    attempted. *)
Theorem relay_steps_order (answers : RelayAnswers) (message : Message) (w : World) :
  bot (author message) = false →
  effects w = [] →
  (is_Some (relay_channels (db w) !! messageChannelId message) →
   let effs := effects (snd (Multi.messageCreate answers message w)) in
   head effs = Some (MessageDeleted (messageId message) (deleteResolves answers))
   ∧ StronglySorted lt (stepRank <$> steps effs)
   ∧ (StepMap ∈ steps effs →
      ∃ before c p sent,
        sendAnswer answers = Some sent
        ∧ effs = before
                 ++ [WebhookSend c p (Some sent);
                     DbRun (InsertMessageMap (messageId message) sent
                              (messageChannelId message) (credId c) (credToken c))]))
  ∧ (∀ allowed,
       AllowList.includes allowed (messageChannelId message) = true →
       let effs := effects (snd (AllowList.messageCreate allowed answers message w)) in
       StronglySorted lt (botJsRank <$> steps effs)
       ∧ (StepMap ∉ steps effs)
       ∧ (StepSend ∈ steps effs ∨ StepDelete ∈ steps effs →
          last effs = Some (MessageDeleted (messageId message) (deleteResolves answers)))).
Proof.
  intros Hbot Hclean. split.
  - intros Hgate effs.
    destruct (pipeline_shape answers message w _
                (messageCreate_pipeline answers message w Hbot Hgate) Hclean)
      as (rate & quiet & tail & Heffs & Hrate & Hquiet & Htail).
    fold effs in Heffs. rewrite Heffs. split_and!.
    + done.
    + change (MessageDeleted (messageId message) (deleteResolves answers)
                :: rate ++ quiet ++ tail)
        with ([MessageDeleted (messageId message) (deleteResolves answers)]
                ++ rate ++ quiet ++ tail).
      rewrite !steps_app, (steps_quiet quiet Hquiet).
      destruct Hrate as [-> | [limited ->]];
        destruct Htail as [-> | [(c & p & ->) | (c & p & sent & _ & ->)]];
        simpl; sorted_ranks.
    + intros Hmap.
      destruct Htail as [-> | [(c & p & ->) | (c & p & sent & Hans & ->)]].
      * exfalso. rewrite app_nil_r in Hmap.
        change (MessageDeleted (messageId message) (deleteResolves answers)
                  :: rate ++ quiet)
          with ([MessageDeleted (messageId message) (deleteResolves answers)]
                  ++ rate ++ quiet) in Hmap.
        rewrite !steps_app, (steps_quiet quiet Hquiet) in Hmap.
        destruct Hrate as [-> | [limited ->]]; simpl in Hmap; set_solver.
      * exfalso.
        change (MessageDeleted (messageId message) (deleteResolves answers)
                  :: rate ++ quiet ++ [WebhookSend c p None])
          with ([MessageDeleted (messageId message) (deleteResolves answers)]
                  ++ rate ++ quiet ++ [WebhookSend c p None]) in Hmap.
        rewrite !steps_app, (steps_quiet quiet Hquiet) in Hmap.
        destruct Hrate as [-> | [limited ->]]; simpl in Hmap; set_solver.
      * exists (MessageDeleted (messageId message) (deleteResolves answers)
                  :: rate ++ quiet), c, p, sent.
        split; [done |]. simpl. by rewrite <- app_assoc.
  - intros allowed Hallowed effs.
    pose proof (bot_js_messageCreate_pipeline allowed answers message w Hbot Hallowed)
      as Hp.
    assert (Hthrough : ∀ w0, botJsLetThrough answers message w w0 →
              effects w0 = []
              ∨ effects w0 = [RateLimitChecked (userId (author message)) false]).
    { intros w0 [Hadmin | counts Hadmin Hrl]; simpl; rewrite Hclean; auto. }
    subst effs.
    destruct Hp as [counts Hadmin Hrl | w0 Hth Hnothing | w0 w1 Hth Hnothing Hid
                   | w0 w1 c p Hth Hnothing Hid].
    + simpl. rewrite Hclean. simpl. split_and!.
      * sorted_ranks.
      * set_solver.
      * done.
    + destruct (Hthrough w0 Hth) as [-> | ->]; simpl; split_and!;
        try sorted_ranks; set_solver.
    + destruct Hid as (_ & _ & _ & _ & more & Hw1 & Hmore). simpl. rewrite Hw1.
      split_and!; [| | intros _; apply last_snoc];
        rewrite <- app_assoc, !steps_app,
          (steps_quiet more (identity_effects_quiet more Hmore));
        destruct (Hthrough w0 Hth) as [-> | ->]; simpl;
        first [sorted_ranks | set_solver].
    + destruct Hid as (_ & _ & _ & _ & more & Hw1 & Hmore). simpl. rewrite Hw1.
      split_and!;
        [| | intros _;
             change [WebhookSend c p (sendAnswer answers);
                     MessageDeleted (messageId message) (deleteResolves answers)]
               with ([WebhookSend c p (sendAnswer answers)]
                     ++ [MessageDeleted (messageId message) (deleteResolves answers)]);
             rewrite app_assoc; apply last_snoc];
        rewrite <- app_assoc, !steps_app,
          (steps_quiet more (identity_effects_quiet more Hmore));
        destruct (Hthrough w0 Hth) as [-> | ->]; simpl;
        first [sorted_ranks | set_solver].
Qed.

Lemma relay_steps_order_witness :
  (let effs := effects (snd (Multi.messageCreate (Sample.platformOk 0 "r1")
                               (Sample.original "m1" "c1") Sample.channelAdded)) in
   head effs = Some (MessageDeleted "m1" true)
   ∧ StronglySorted lt (stepRank <$> steps effs)
   ∧ (StepMap ∈ steps effs →
      ∃ before c p sent,
        Some "r1" = Some sent
        ∧ effs = before
                 ++ [WebhookSend c p (Some sent);
                     DbRun (InsertMessageMap "m1" sent "c1" (credId c) (credToken c))]))
  ∧ (let effs := effects (snd (AllowList.messageCreate ["c1"] (Sample.platformOk 0 "r1")
                                 (Sample.original "m1" "c1") Sample.channelAdded)) in
     StronglySorted lt (botJsRank <$> steps effs)
     ∧ (StepMap ∉ steps effs)
     ∧ (StepSend ∈ steps effs ∨ StepDelete ∈ steps effs →
        last effs = Some (MessageDeleted "m1" true))).
Proof.
  destruct (relay_steps_order (Sample.platformOk 0 "r1") (Sample.original "m1" "c1")
              Sample.channelAdded eq_refl eq_refl) as [Hmulti Hbot].
  split.
  - apply Hmulti. eexists. reflexivity.
  - apply (Hbot ["c1"]). reflexivity.
Defined.

(** C2, as stated, fails on [src/bot.js]: an accepted message is checked
    against the rate limit and sent before the original is deleted. *)
Lemma bot_js_deletes_after_sending :
  let effs := effects (snd (AllowList.messageCreate ["c1"] (Sample.platformOk 0 "r1")
                              (Sample.original "m1" "c1") Sample.channelAdded)) in
  effs = [RateLimitChecked "alice" false;
          CreateWebhook "c1" "General Webhook";
          DbRun (InsertWebhook "c1" "wh1" "tok1");
          WebhookSend {| credId := "wh1"; credToken := "tok1" |}
            {| content := Some "hello"; username := "Alice";
               avatarURL := "https://cdn.example/alice.png"; files := [] |}
            (Some "r1");
          MessageDeleted "m1" true]
  ∧ steps effs = [StepRateCheck; StepSend; StepDelete]
  ∧ ¬ StronglySorted lt (stepRank <$> steps effs).
Proof.
  split_and!; [reflexivity | reflexivity |].
  intros Hsorted. vm_compute in Hsorted.
  apply StronglySorted_inv in Hsorted as [_ Hall].
  apply Forall_inv_tail, Forall_inv in Hall. lia.
Qed.

(** ** Timestamps as text *)

Lemma digit_cases (d : Z) :
  0 ≤ d < 10 →
  d = 0 ∨ d = 1 ∨ d = 2 ∨ d = 3 ∨ d = 4 ∨ d = 5 ∨ d = 6 ∨ d = 7 ∨ d = 8 ∨ d = 9.
Proof. lia. Qed.

Lemma digitChar_spec (d : Z) :
  0 ≤ d < 10 →
  Js.isDigit (Js.digitChar d) = true
  ∧ Js.digitValue (Js.digitChar d) = d
  ∧ Js.isWhiteSpace (Js.digitChar d) = false
  ∧ Js.digitChar d ≠ "-"%char
  ∧ Js.digitChar d ≠ "+"%char.
Proof.
  intros Hd.
  destruct (digit_cases d Hd) as [-> | [-> | [-> | [-> | [-> | [-> | [-> | [-> | [-> | ->]]]]]]]]];
    by vm_compute.
Qed.

Lemma parseDigits_digitsOf (fuel : nat) (n : Z) (rest : string) :
  0 ≤ n < 10 ^ Z.of_nat (S fuel) →
  Js.parseDigits (Js.digitsOf fuel n rest) None = Js.parseDigits rest (Some n).
Proof.
  revert n rest. induction fuel as [|fuel IH]; intros n rest Hn.
  - change (10 ^ Z.of_nat 1) with 10 in Hn.
    destruct (digitChar_spec n Hn) as (Hdigit & Hvalue & _).
    simpl. rewrite Z.mod_small by lia. rewrite Hdigit, Hvalue. f_equal.
  - cbn [Js.digitsOf]. destruct (Z.ltb_spec n 10) as [Hsmall | Hbig].
    + destruct (digitChar_spec n ltac:(lia)) as (Hdigit & Hvalue & _).
      rewrite Z.mod_small by lia. simpl. rewrite Hdigit, Hvalue. f_equal.
    + rewrite IH.
      * destruct (digitChar_spec (n mod 10) ltac:(apply Z.mod_pos_bound; lia))
          as (Hdigit & Hvalue & _).
        simpl. rewrite Hdigit, Hvalue. do 2 f_equal.
        pose proof (Z.div_mod n 10). lia.
      * rewrite Nat2Z.inj_succ, Z.pow_succ_r in Hn by lia.
        split; [apply Z.div_pos; lia | apply Z.div_lt_upper_bound; lia].
Qed.

Lemma digitsOf_head (fuel : nat) (n : Z) (rest : string) :
  0 ≤ n → ∃ d tail, 0 ≤ d < 10 ∧ Js.digitsOf fuel n rest = String (Js.digitChar d) tail.
Proof.
  revert n rest. induction fuel as [|fuel IH]; intros n rest Hn; cbn [Js.digitsOf].
  - exists (n mod 10), rest. split; [apply Z.mod_pos_bound; lia | done].
  - destruct (n <? 10).
    + exists (n mod 10), rest. split; [apply Z.mod_pos_bound; lia | done].
    + apply IH. apply Z.div_pos; lia.
Qed.

Lemma decimal_digits_bound (n : Z) :
  0 ≤ n → n < 10 ^ Z.of_nat (S (Z.to_nat (Z.log2 n))).
Proof.
  intros Hn. destruct (Z.eq_dec n 0) as [-> | Hpos]; [done |].
  rewrite Nat2Z.inj_succ, Z2Nat.id by apply Z.log2_nonneg.
  pose proof (Z.log2_spec n ltac:(lia)) as [_ Hup].
  eapply Z.lt_le_trans; [exact Hup |].
  apply Z.pow_le_mono_l. split; [lia | lia].
Qed.

(** A digit starts no white space, of whatever length. *)
Lemma trimStart_digit (d : Z) (tail : string) :
  0 ≤ d < 10 →
  Js.trimStart (String (Js.digitChar d) tail) = String (Js.digitChar d) tail.
Proof.
  intros Hd.
  destruct (digit_cases d Hd) as [-> | [-> | [-> | [-> | [-> | [-> | [-> | [-> | [-> | ->]]]]]]]]];
    (destruct tail as [|c2 [|c3 rest]]; reflexivity).
Qed.

(** White space of more than one byte is skipped as that of one byte is. *)
Example parseInt_skips_no_break_space :
  Js.parseInt (String (ascii_of_nat 194) (String (ascii_of_nat 160) "5000")) = Some 5000
  ∧ Js.parseInt (String (ascii_of_nat 239) (String (ascii_of_nat 187)
                   (String (ascii_of_nat 191) " 5000"))) = Some 5000
  ∧ Js.parseInt (String (ascii_of_nat 226) (String (ascii_of_nat 128) "5000")) = None.
Proof. split_and!; reflexivity. Qed.

(** What [Date.now().toString()] writes, [parseInt(_, 10)] reads back; and
    it is a non-empty string. *)
Lemma parseInt_numberToString (n : Z) :
  0 ≤ n →
  Js.parseInt (Js.numberToString n) = Some n
  ∧ truthy (Some (Js.numberToString n)) = true.
Proof.
  intros Hn. unfold Js.numberToString.
  destruct (Z.ltb_spec n 0) as [? | _]; [lia |].
  pose proof (parseDigits_digitsOf (Z.to_nat (Z.log2 n)) n ""
                (conj Hn (decimal_digits_bound n Hn))) as Hparse.
  destruct (digitsOf_head (Z.to_nat (Z.log2 n)) n "" Hn) as (d & tail & Hd & Hhead).
  rewrite Hhead in *.
  destruct (digitChar_spec d Hd) as (_ & _ & Hwhite & Hminus & Hplus).
  split.
  - unfold Js.parseInt. rewrite (trimStart_digit d tail Hd).
    destruct (Js.digitChar d) as [b0 b1 b2 b3 b4 b5 b6 b7] eqn:Hc.
    destruct b0, b1, b2, b3, b4, b5, b6, b7; try exact Hparse; done.
  - done.
Qed.

(** ** The rotation schedule *)

Lemma rotateOne_returns answers webhook w :
  ∃ rotated w1,
    Multi.rotateOne answers webhook w = (Returned rotated, w1)
    ∧ bot_meta (db w1) = bot_meta (db w).
Proof.
  unfold Multi.rotateOne. unfold_M.
  destruct (fetchAnswer answers webhook.1); simpl; eauto.
  destruct (newWebhook answers webhook.1) as [[newId newToken] |]; simpl; eauto.
Qed.

Lemma rotateEach_returns answers allWebhooks rotatedCount w :
  ∃ n w1,
    forEachWebhook (Multi.rotateOne answers) allWebhooks rotatedCount w
    = (Returned n, w1)
    ∧ bot_meta (db w1) = bot_meta (db w).
Proof.
  revert rotatedCount w.
  induction allWebhooks as [|webhook rest IH]; intros rotatedCount w; simpl.
  - by exists rotatedCount, w.
  - destruct (rotateOne_returns answers webhook w) as (rotated & w1 & Hone & Hmeta1).
    unfold mbind, M_bind. rewrite Hone.
    destruct (IH (if rotated then S rotatedCount else rotatedCount) w1)
      as (n & w2 & Heach & Hmeta2).
    exists n, w2. split; [done | congruence].
Qed.

(** A rotation pass always ends by writing the watermark, whatever happened
    to the rows. *)
Lemma rotateWebhooks_writes_watermark pass w :
  ∃ rotatedCount after,
    Multi.rotateWebhooks pass w = (Returned rotatedCount, after)
    ∧ bot_meta (db after)
      = <[watermarkKey := Js.numberToString (passEnd pass)]> (bot_meta (db w))
    ∧ last (effects after)
      = Some (DbRun (ReplaceBotMeta watermarkKey (Js.numberToString (passEnd pass)))).
Proof.
  unfold Multi.rotateWebhooks, Multi.writeWatermark.
  unfold mbind at 1, M_bind at 1, getDb at 1.
  destruct (map_to_list (webhooks (db w))) as [|webhook rest].
  - unfold_M. eexists _, _. split_and!; [done | done | apply last_snoc].
  - destruct (rotateEach_returns pass (webhook :: rest) 0%nat w)
      as (n & w1 & Heach & Hmeta).
    unfold mbind at 1, M_bind at 1. rewrite Heach. unfold_M.
    eexists _, _. split_and!; [done | by rewrite Hmeta | apply last_snoc].
Qed.

Lemma scheduleRotation_rotates answers w :
  truthy (bot_meta (db w) !! watermarkKey) = false
  ∨ (∃ last, Js.parseInt (default "" (bot_meta (db w) !! watermarkKey)) = Some last
             ∧ last + ROTATION_INTERVAL ≤ nowAtStart answers) →
  Multi.scheduleRotation answers w = rotateNow answers w.
Proof.
  intros Hcase. unfold Multi.scheduleRotation, rotateNow.
  unfold mbind at 1, M_bind at 1, getDb at 1.
  fold watermarkKey.
  assert (Hgoal : ∀ (m : M nat),
            (x ← (m;; mret (Some (nowAfterRotation answers + ROTATION_INTERVAL)));
             emit (SetTimeout
                     (Multi.timerDelay
                        ((λ t, t - nowAtDelay answers) <$> (x : option Z))));;
             mret x) w
            = (m;;
               emit (SetTimeout
                       (Multi.timerDelay
                          (Some (nowAfterRotation answers + ROTATION_INTERVAL
                                 - nowAtDelay answers))));;
               mret (Some (nowAfterRotation answers + ROTATION_INTERVAL))) w).
  { intros m. unfold mbind, M_bind. by destruct (m w) as [[n | e] w1]. }
  destruct Hcase as [Habsent | (last & Hparse & Hdue)].
  - rewrite Habsent. cbn [negb]. apply Hgoal.
  - destruct (truthy (bot_meta (db w) !! watermarkKey)); cbn [negb]; [| apply Hgoal].
    rewrite Hparse.
    destruct (Z.geb_spec (nowAtStart answers) (last + ROTATION_INTERVAL)); [| lia].
    apply Hgoal.
Qed.

Lemma scheduleRotation_waits answers w last :
  truthy (bot_meta (db w) !! watermarkKey) = true →
  Js.parseInt (default "" (bot_meta (db w) !! watermarkKey)) = Some last →
  nowAtStart answers < last + ROTATION_INTERVAL →
  Multi.scheduleRotation answers w = waitUntil (last + ROTATION_INTERVAL) answers w.
Proof.
  intros Hpresent Hparse Hearly. unfold Multi.scheduleRotation, waitUntil.
  unfold mbind at 1, M_bind at 1, getDb at 1.
  fold watermarkKey. rewrite Hpresent, Hparse. cbn [negb].
  destruct (Z.geb_spec (nowAtStart answers) (last + ROTATION_INTERVAL)); [lia |].
  reflexivity.
Qed.

Lemma timer_fires_when_due due now :
  now + Multi.timerDelay (Some (due - now)) = Z.max due now.
Proof. unfold Multi.timerDelay. destruct (Z.gtb_spec (due - now) 0); lia. Qed.

(** ** Base64 and the token codec *)

Section Base64Facts.

Import Buffer.

Lemma byteToZ_range (b : byte) : 0 ≤ byteToZ b < 256.
Proof. unfold byteToZ. pose proof (Byte.to_N_bounded b). lia. Qed.

Lemma byteOfZ_byteToZ (b : byte) : byteOfZ (byteToZ b) = b.
Proof. unfold byteOfZ, byteToZ. by rewrite N2Z.id, Byte.of_to_N. Qed.

Lemma base64Char_table :
  forallb (λ n, let v := Z.of_nat n in
                match unbase64 (base64Char v) with
                | Some v' => (v' =? v) && negb (Ascii.eqb (base64Char v) "="%char)
                | None => false
                end)
    (seq 0 64) = true.
Proof. by vm_compute. Qed.

Lemma unbase64_base64Char (v : Z) :
  0 ≤ v < 64 →
  unbase64 (base64Char v) = Some v ∧ Ascii.eqb (base64Char v) "="%char = false.
Proof.
  intros Hv. pose proof base64Char_table as Htable.
  rewrite forallb_forall in Htable.
  specialize (Htable (Z.to_nat v)). rewrite Z2Nat.id in Htable by lia.
  cbv zeta in Htable.
  destruct (unbase64 (base64Char v)) as [v' |].
  - assert (Hin : In (Z.to_nat v) (seq 0 64)) by (apply in_seq; lia).
    apply Htable, andb_true_iff in Hin as [Heq Hpad].
    apply Z.eqb_eq in Heq as ->. by apply negb_true_iff in Hpad.
  - assert (Hin : In (Z.to_nat v) (seq 0 64)) by (apply in_seq; lia).
    by apply Htable in Hin.
Qed.

Lemma sextets_base64Char (v : Z) (rest : string) :
  0 ≤ v < 64 → sextets (String (base64Char v) rest) = v :: sextets rest.
Proof.
  intros Hv. destruct (unbase64_base64Char v Hv) as [Hvalue Hpad].
  simpl. by rewrite Hpad, Hvalue.
Qed.

(** The arithmetic of one group of three bytes. *)
Lemma group_of_three (a b c : Z) :
  0 ≤ a < 256 → 0 ≤ b < 256 → 0 ≤ c < 256 →
  let n := 65536 * a + 256 * b + c in
  0 ≤ n / 262144 < 64
  ∧ 0 ≤ n / 4096 mod 64 < 64
  ∧ 0 ≤ n / 64 mod 64 < 64
  ∧ 0 ≤ n mod 64 < 64
  ∧ 262144 * (n / 262144) + 4096 * (n / 4096 mod 64) + 64 * (n / 64 mod 64) + n mod 64
    = n
  ∧ n / 65536 = a ∧ n / 256 mod 256 = b ∧ n mod 256 = c.
Proof. intros Ha Hb Hc n. subst n. repeat split; Z.div_mod_to_equations; lia. Qed.

Lemma toBase64_roundtrip_bounded (k : nat) (data : list byte) :
  (length data ≤ k)%nat → fromBase64 (toBase64 data) = data.
Proof.
  unfold fromBase64. revert data.
  induction k as [|k IH]; intros data Hlen.
  - destruct data; [done | simpl in Hlen; lia].
  - destruct data as [|a [|b [|c rest]]]; [done | | |].
    + pose proof (byteToZ_range a) as Ha.
      destruct (group_of_three (byteToZ a) 0 0 Ha ltac:(lia) ltac:(lia))
        as (H1 & H2 & _ & _ & Hsum & Hfirst & _ & _).
      rewrite !Z.add_0_r in *.
      cbn [toBase64]. rewrite !sextets_base64Char by done.
      cbn [sextets Ascii.eqb Bool.eqb fromSextets].
      assert (Hn : 262144 * (65536 * byteToZ a / 262144)
                   + 4096 * (65536 * byteToZ a / 4096 mod 64)
                   = 65536 * byteToZ a) by (Z.div_mod_to_equations; lia).
      rewrite Hn, Hfirst. by rewrite byteOfZ_byteToZ.
    + pose proof (byteToZ_range a) as Ha. pose proof (byteToZ_range b) as Hb.
      destruct (group_of_three (byteToZ a) (byteToZ b) 0 Ha Hb ltac:(lia))
        as (H1 & H2 & H3 & _ & Hsum & Hfirst & Hsecond & _).
      rewrite !Z.add_0_r in *.
      cbn [toBase64]. rewrite !sextets_base64Char by done.
      cbn [sextets Ascii.eqb Bool.eqb fromSextets].
      assert (Hn : 262144 * ((65536 * byteToZ a + 256 * byteToZ b) / 262144)
                   + 4096 * ((65536 * byteToZ a + 256 * byteToZ b) / 4096 mod 64)
                   + 64 * ((65536 * byteToZ a + 256 * byteToZ b) / 64 mod 64)
                   = 65536 * byteToZ a + 256 * byteToZ b)
        by (Z.div_mod_to_equations; lia).
      rewrite Hn, Hfirst, Hsecond. by rewrite !byteOfZ_byteToZ.
    + pose proof (byteToZ_range a) as Ha. pose proof (byteToZ_range b) as Hb.
      pose proof (byteToZ_range c) as Hc.
      destruct (group_of_three (byteToZ a) (byteToZ b) (byteToZ c) Ha Hb Hc)
        as (H1 & H2 & H3 & H4 & Hsum & Hfirst & Hsecond & Hthird).
      cbn [toBase64]. rewrite !sextets_base64Char by done.
      cbn [fromSextets]. rewrite Hsum, Hfirst, Hsecond, Hthird.
      rewrite !byteOfZ_byteToZ. do 3 f_equal.
      apply IH. simpl in Hlen. lia.
Qed.

(** [Buffer.from(buf.toString('base64'), 'base64')] is [buf]. *)
Lemma fromBase64_toBase64 (data : list byte) : fromBase64 (toBase64 data) = data.
Proof. by apply (toBase64_roundtrip_bounded (length data)). Qed.

Lemma substring_all (s : string) : String.substring 0 (String.length s) s = s.
Proof. induction s as [|c s IH]; simpl; [done | by rewrite IH]. Qed.

Lemma slice_prefix (payload : string) :
  slice 4 ("enc:" +:+ payload) = payload
  ∧ String.prefix "enc:" ("enc:" +:+ payload) = true.
Proof.
  split; [| by destruct payload; vm_compute].
  unfold slice. simpl. rewrite Nat.sub_0_r. apply substring_all.
Qed.

End Base64Facts.

Section TokenCodec.

Variable encryptionKey : list byte.
Variable aes256gcmEncrypt : list byte → list byte → list byte → list byte * list byte.
Variable aes256gcmDecrypt :
  list byte → list byte → list byte → list byte → option (list byte).

(** The contract of AES-256-GCM under one key: the tag has sixteen bytes,
    and deciphering with the nonce and tag of the encryption gives the
    plaintext back. *)
Hypothesis gcm_tag_length :
  ∀ iv plaintext,
    length (snd (aes256gcmEncrypt encryptionKey iv plaintext)) = 16%nat.
Hypothesis gcm_deciphers :
  ∀ iv plaintext,
    aes256gcmDecrypt encryptionKey iv
      (snd (aes256gcmEncrypt encryptionKey iv plaintext))
      (fst (aes256gcmEncrypt encryptionKey iv plaintext))
    = Some plaintext.

Local Abbreviation encrypt := (Encrypted.encryptWebhookToken encryptionKey aes256gcmEncrypt).
Local Abbreviation decrypt := (Encrypted.decryptWebhookToken encryptionKey aes256gcmDecrypt).

Lemma decrypt_encrypt (iv : list byte) (token : string) :
  length iv = 12%nat → decrypt (encrypt iv token) = Returned token.
Proof.
  intros Hiv. unfold Encrypted.encryptWebhookToken, Encrypted.decryptWebhookToken,
    Encrypted.ENCRYPTED_TOKEN_PREFIX.
  pose proof (gcm_tag_length iv (list_byte_of_string token)) as Htag.
  pose proof (gcm_deciphers iv (list_byte_of_string token)) as Hdec.
  destruct (aes256gcmEncrypt encryptionKey iv (list_byte_of_string token))
    as [ciphertext authTag]. simpl in Htag, Hdec.
  change (String.length "enc:") with 4%nat.
  destruct (slice_prefix (Buffer.toBase64 (iv ++ authTag ++ ciphertext)))
    as [-> ->]. cbn [negb].
  rewrite fromBase64_toBase64.
  rewrite take_app_length' by done.
  rewrite drop_app_length' by done.
  rewrite take_app_length' by done.
  replace 28%nat with (12 + 16)%nat by done.
  rewrite <- drop_drop, drop_app_length' by done.
  rewrite drop_app_length' by done.
  rewrite Hdec. by rewrite string_of_list_byte_of_string.
Qed.

Lemma decrypt_untagged (storedToken : string) :
  String.prefix "enc:" storedToken = false →
  decrypt storedToken = Thrown (DecryptionError true).
Proof.
  intros Huntagged. unfold Encrypted.decryptWebhookToken,
    Encrypted.ENCRYPTED_TOKEN_PREFIX. by rewrite Huntagged.
Qed.

(** A row holding legacy plaintext: the stored text is the token, and the
    row is rewritten with the text encrypted. *)
Lemma tokenOfRow_legacy channelId row iv w :
  String.prefix "enc:" (webhookToken row) = false →
  Encrypted.tokenOfRow encryptionKey aes256gcmEncrypt aes256gcmDecrypt channelId row iv w
  = (Returned (Some (webhookToken row)),
     {| db := withWebhooks (db w)
                (alter (λ r, {| webhookId := webhookId r;
                                webhookToken := encrypt iv (webhookToken row) |})
                   channelId (webhooks (db w)));
        userMessageCounts := userMessageCounts w;
        effects := effects w
                   ++ [DbRun (UpdateWebhookToken (encrypt iv (webhookToken row))
                                channelId)] |}).
Proof.
  intros Huntagged. unfold Encrypted.tokenOfRow, Encrypted.run,
    Encrypted.ensureEncryptedToken.
  unfold try_catch at 1. unfold mbind at 1, M_bind at 1.
  rewrite (decrypt_untagged _ Huntagged). by unfold_M.
Qed.

Lemma getOrCreateWebhook_legacy channelId row answers migration fresh w :
  webhooks (db w) !! channelId = Some row →
  String.prefix "enc:" (webhookToken row) = false →
  fst (Encrypted.getOrCreateWebhook encryptionKey aes256gcmEncrypt aes256gcmDecrypt
         channelId answers migration fresh w)
  = Returned (Some {| credId := webhookId row; credToken := webhookToken row |}).
Proof.
  intros Hrow Huntagged.
  destruct answers; cbn [Encrypted.getOrCreateWebhook];
    unfold mbind at 1, M_bind at 1, getDb at 1; rewrite Hrow;
    unfold mbind at 1, M_bind at 1; by rewrite tokenOfRow_legacy.
Qed.

(** C7, as the code has it.  Decrypting what [encryptWebhookToken] made of
    a token, under any twelve-byte nonce, returns the token.  On a stored
    value without the [enc:] tag [decryptWebhookToken] does not return: it
    throws the [DecryptionError] flagged [isPlaintext], whatever the key and
    the cipher are; [getOrCreateWebhook] then hands out the stored value
    itself as the token. *)
Theorem token_roundtrip_and_legacy_plaintext :
  (∀ iv token, length iv = 12%nat → decrypt (encrypt iv token) = Returned token)
  ∧ (∀ storedToken,
       String.prefix "enc:" storedToken = false →
       decrypt storedToken = Thrown (DecryptionError true)
       ∧ (∀ otherKey otherDecipher,
            Encrypted.decryptWebhookToken otherKey otherDecipher storedToken
            = Thrown (DecryptionError true))
       ∧ (∀ channelId row answers migration fresh w,
            webhooks (db w) !! channelId = Some row →
            webhookToken row = storedToken →
            fst (Encrypted.getOrCreateWebhook encryptionKey aes256gcmEncrypt
                   aes256gcmDecrypt channelId answers migration fresh w)
            = Returned (Some {| credId := webhookId row; credToken := storedToken |}))).
Proof.
  split; [apply decrypt_encrypt |].
  intros storedToken Huntagged. split_and!.
  - by apply decrypt_untagged.
  - intros otherKey otherDecipher.
    unfold Encrypted.decryptWebhookToken, Encrypted.ENCRYPTED_TOKEN_PREFIX.
    by rewrite Huntagged.
  - intros channelId row answers migration fresh w Hrow <-.
    by apply getOrCreateWebhook_legacy.
Qed.

End TokenCodec.

Lemma token_roundtrip_and_legacy_plaintext_witness :
  Encrypted.decryptWebhookToken [] Sample.plainDecipher
    (Encrypted.encryptWebhookToken [] Sample.plainCipher Sample.nonce "tok1")
  = Returned "tok1"
  ∧ Encrypted.decryptWebhookToken [] Sample.plainDecipher "legacy-token"
    = Thrown (DecryptionError true)
  ∧ fst (Encrypted.getOrCreateWebhook [] Sample.plainCipher Sample.plainDecipher
           "c1" Rejected Sample.nonce Sample.nonce Sample.legacyRow)
    = Returned (Some {| credId := "wh1"; credToken := "legacy-token" |}).
Proof.
  destruct (token_roundtrip_and_legacy_plaintext [] Sample.plainCipher
              Sample.plainDecipher (λ _ _, eq_refl) (λ _ _, eq_refl))
    as [Hround Hlegacy].
  destruct (Hlegacy "legacy-token" eq_refl) as (Hthrows & _ & Hcaller).
  split_and!.
  - apply Hround. reflexivity.
  - exact Hthrows.
  - apply (Hcaller "c1" {| webhookId := "wh1"; webhookToken := "legacy-token" |});
      reflexivity.
Defined.

(** C7, as stated, fails in its second half: on a value without the tag
    [decryptWebhookToken] returns nothing, it throws. *)
Lemma decrypting_plaintext_throws :
  Encrypted.decryptWebhookToken [] Sample.plainDecipher "legacy-token"
  = Thrown (DecryptionError true)
  ∧ Encrypted.decryptWebhookToken [] Sample.plainDecipher "legacy-token"
    ≠ Returned "legacy-token".
Proof. split; [reflexivity | discriminate]. Qed.

(** ** Rotation, row by row *)

Lemma settle_lookup outcome channelId table c :
  settle outcome channelId table !! c
  = if decide (c = channelId)
    then table !! c ≫= (λ _, outcome)
    else table !! c.
Proof.
  unfold settle. destruct outcome as [row |].
  - rewrite lookup_alter.
    destruct (decide (channelId = c)) as [-> | Hne].
    + rewrite decide_True by done. by destruct (table !! c).
    + by rewrite decide_False by congruence.
  - rewrite lookup_delete.
    destruct (decide (channelId = c)) as [-> | Hne].
    + rewrite decide_True by done. by destruct (table !! c).
    + by rewrite decide_False by congruence.
Qed.

(** A loop whose body always returns and settles the row of its channel
    does so for every row of the list, each by its own outcome. *)
Lemma forEachWebhook_rows body (outcome : string → WebhookRow → option WebhookRow) :
  (∀ webhook w, ∃ rotated w1,
      body webhook w = (Returned rotated, w1)
      ∧ webhooks (db w1)
        = settle (outcome (fst webhook) (snd webhook)) (fst webhook) (webhooks (db w))) →
  ∀ allWebhooks, NoDup allWebhooks.*1 →
  ∀ rotatedCount w, ∃ n after,
    forEachWebhook body allWebhooks rotatedCount w = (Returned n, after)
    ∧ ∀ c, webhooks (db after) !! c
           = match (list_to_map allWebhooks : gmap string WebhookRow) !! c with
             | Some row => webhooks (db w) !! c ≫= (λ _, outcome c row)
             | None => webhooks (db w) !! c
             end.
Proof.
  intros Hbody allWebhooks.
  induction allWebhooks as [|[c0 row0] rest IH]; intros Hnodup rotatedCount w; simpl.
  - exists rotatedCount, w. split; [done |]. intros c. by rewrite lookup_empty.
  - apply NoDup_cons in Hnodup as [Hfresh Hnodup].
    destruct (Hbody (c0, row0) w) as (rotated & w1 & Hstep & Htable).
    unfold mbind, M_bind. rewrite Hstep.
    destruct (IH Hnodup (if rotated then S rotatedCount else rotatedCount) w1)
      as (n & after & Hrest & Hrows).
    exists n, after. split; [done |]. intros c. rewrite Hrows, Htable. simpl.
    rewrite settle_lookup, lookup_insert.
    destruct (decide (c = c0)) as [-> | Hne].
    + rewrite decide_True by done.
      by rewrite (not_elem_of_list_to_map_1 _ _ Hfresh).
    + rewrite decide_False by done. done.
Qed.

Lemma rotateOne_settles answers webhook w :
  ∃ rotated w1,
    Multi.rotateOne answers webhook w = (Returned rotated, w1)
    ∧ webhooks (db w1)
      = settle (rotatedRow answers (fst webhook)) (fst webhook) (webhooks (db w)).
Proof.
  unfold Multi.rotateOne, rotatedRow. unfold_M.
  destruct (fetchAnswer answers webhook.1); simpl; eauto.
  destruct (newWebhook answers webhook.1) as [[newId newToken] |]; simpl; eauto.
Qed.

Lemma rotateWebhooks_rows pass w :
  ∃ n after,
    Multi.rotateWebhooks pass w = (Returned n, after)
    ∧ ∀ c, webhooks (db after) !! c
           = webhooks (db w) !! c ≫= (λ _, rotatedRow pass c).
Proof.
  unfold Multi.rotateWebhooks, Multi.writeWatermark.
  unfold mbind at 1, M_bind at 1, getDb at 1.
  destruct (map_to_list (webhooks (db w))) as [|webhook rest] eqn:Hlist.
  - apply map_to_list_empty_iff in Hlist. unfold_M.
    eexists _, _. split; [done |]. intros c. simpl. by rewrite Hlist, lookup_empty.
  - rewrite <- Hlist.
    destruct (forEachWebhook_rows (Multi.rotateOne pass) (λ c _, rotatedRow pass c)
                (rotateOne_settles pass) (map_to_list (webhooks (db w)))
                (NoDup_fst_map_to_list _) 0%nat w) as (n & w1 & Heach & Hrows).
    unfold mbind at 1, M_bind at 1. rewrite Heach. unfold_M.
    eexists _, _. split; [done |]. intros c. simpl.
    rewrite Hrows, list_to_map_to_list.
    by destruct (webhooks (db w) !! c).
Qed.

Lemma settle_after_token_update outcome channelId token table :
  settle outcome channelId
    (alter (λ r, {| webhookId := webhookId r; webhookToken := token |}) channelId table)
  = settle outcome channelId table.
Proof.
  apply map_eq. intros c. rewrite !settle_lookup, lookup_alter.
  destruct (decide (c = channelId)) as [-> | Hne].
  - rewrite decide_True by done. by destruct (table !! channelId).
  - by rewrite decide_False by congruence.
Qed.

Lemma encrypted_rotateOne_settles key encrypt decrypt answers webhook w :
  ∃ rotated w1,
    Encrypted.rotateOne key encrypt decrypt answers webhook w = (Returned rotated, w1)
    ∧ webhooks (db w1)
      = settle (encryptedRotatedRow key encrypt decrypt answers (fst webhook) (snd webhook))
          (fst webhook) (webhooks (db w)).
Proof.
  unfold Encrypted.rotateOne, encryptedRotatedRow, Encrypted.tokenOfRow,
    Encrypted.run, Encrypted.ensureEncryptedToken.
  destruct (fetchAnswer (platform answers) webhook.1); [| unfold_M; by eauto ..].
  destruct (Encrypted.decryptWebhookToken key decrypt (webhookToken webhook.2))
    as [token | [code | [|] | |]];
    destruct (newWebhook (platform answers) webhook.1) as [[newId newToken] |];
    unfold_M; eexists _, _; (split; [reflexivity |]); simpl;
    first [reflexivity
          | exact (settle_after_token_update (Some _) _ _ _)
          | exact (settle_after_token_update None _ _ _)].
Qed.

Lemma encrypted_rotateWebhooks_rows key encrypt decrypt answers w :
  ∃ n after,
    Encrypted.rotateWebhooks key encrypt decrypt answers w = (Returned n, after)
    ∧ ∀ c, webhooks (db after) !! c
           = webhooks (db w) !! c
             ≫= encryptedRotatedRow key encrypt decrypt answers c.
Proof.
  unfold Encrypted.rotateWebhooks.
  unfold mbind at 1, M_bind at 1, getDb at 1.
  destruct (forEachWebhook_rows (Encrypted.rotateOne key encrypt decrypt answers)
              (encryptedRotatedRow key encrypt decrypt answers)
              (encrypted_rotateOne_settles key encrypt decrypt answers)
              (map_to_list (webhooks (db w)))
              (NoDup_fst_map_to_list _) 0%nat w) as (n & after & Heach & Hrows).
  exists n, after. split; [done |]. intros c.
  rewrite Hrows, list_to_map_to_list.
  by destruct (webhooks (db w) !! c).
Qed.

(** C8, as the code has it.  A rotation pass always runs to its end, and
    the row of each channel fares by that channel's answers alone: it is
    replaced by the new webhook when the channel was fetched and the webhook
    created, and deleted in every other case, be it that the fetch rejected
    or came back empty or that creating the replacement failed (in
    [part_000] also that the stored token could not be decrypted); channels
    without a row get none. *)
Theorem rotation_settles_every_row :
  (∀ pass w, ∃ rotatedCount after,
      Multi.rotateWebhooks pass w = (Returned rotatedCount, after)
      ∧ ∀ channelId,
          webhooks (db after) !! channelId
          = webhooks (db w) !! channelId ≫= (λ _, rotatedRow pass channelId))
  ∧ (∀ key encrypt decrypt answers w, ∃ rotatedCount after,
       Encrypted.rotateWebhooks key encrypt decrypt answers w
       = (Returned rotatedCount, after)
       ∧ ∀ channelId,
           webhooks (db after) !! channelId
           = webhooks (db w) !! channelId
             ≫= encryptedRotatedRow key encrypt decrypt answers channelId).
Proof.
  split.
  - apply rotateWebhooks_rows.
  - apply encrypted_rotateWebhooks_rows.
Qed.

(** C8, as stated, fails: [c1] is fetched, only creating its new webhook
    fails, and its row is deleted; the pass goes on and rotates [c2]. *)
Lemma row_deleted_when_create_fails :
  fetchAnswer Sample.createFailsOnC1 "c1" = Fetched
  ∧ webhooks (db Sample.twoRows) !! "c1"
    = Some {| webhookId := "wh1"; webhookToken := "tok1" |}
  ∧ webhooks (db (snd (Multi.rotateWebhooks Sample.createFailsOnC1 Sample.twoRows)))
      !! "c1" = None
  ∧ webhooks (db (snd (Multi.rotateWebhooks Sample.createFailsOnC1 Sample.twoRows)))
      !! "c2" = Some {| webhookId := "new"; webhookToken := "newtok" |}
  ∧ effects (snd (Multi.rotateWebhooks Sample.createFailsOnC1 Sample.twoRows))
    = [ChannelsFetch "c1";
       WebhookDelete {| credId := "wh1"; credToken := "tok1" |};
       CreateWebhook "c1" "General Webhook";
       DbRun (DeleteWebhook "c1");
       ChannelsFetch "c2";
       WebhookDelete {| credId := "wh2"; credToken := "tok2" |};
       CreateWebhook "c2" "General Webhook";
       DbRun (UpdateWebhook "new" "newtok" "c2");
       DbRun (ReplaceBotMeta "lastRotationTimestamp" "9000")].
Proof. split_and!; reflexivity. Qed.

(** * Further properties of the code *)

(** ** The rate limiter, call after call *)

Lemma shiftExpired_live cutoff ts :
  StronglySorted Z.le ts →
  Forall (λ t, cutoff < t) (RateLimiter.shiftExpired cutoff ts).
Proof.
  induction 1 as [|t rest Hrest IH Hall]; simpl; [constructor |].
  destruct (Z.leb_spec t cutoff) as [Hle | Hgt]; [done |].
  constructor; [done |].
  eapply Forall_impl; [exact Hall |]. simpl. intros u Hu. lia.
Qed.

(** X1.  With a clock that does not go back (the window is sorted and holds
    nothing later than [now]), the window a call leaves behind holds only
    timestamps of the trailing 60000 ms, oldest first, the current one
    last. *)
Theorem window_holds_the_trailing_minute
    (m : gmap string (list Z)) (userId : string) (now : Z) :
  StronglySorted Z.le (RateLimiter.timestampsOf m userId) →
  Forall (λ t, t ≤ now) (RateLimiter.timestampsOf m userId) →
  let after :=
    RateLimiter.timestampsOf (snd (RateLimiter.isUserRateLimited m userId now)) userId in
  Forall (λ t, now - 60000 < t ≤ now) after
  ∧ StronglySorted Z.le after
  ∧ last after = Some now.
Proof.
  intros Hsorted Hpast after.
  assert (Hafter : after = RateLimiter.windowAfter (RateLimiter.timestampsOf m userId) now).
  { unfold after. unfold RateLimiter.timestampsOf at 1.
    by rewrite isUserRateLimited_window. }
  destruct (windowAfter_sorted _ now Hsorted Hpast) as [Hs Hp].
  rewrite Hafter. split_and!; [| done | apply last_snoc].
  unfold RateLimiter.windowAfter in *. apply Forall_app. split.
  - apply Forall_app in Hp as [Hp _].
    pose proof (shiftExpired_live (now - RATE_LIMIT_WINDOW) _ Hsorted) as Hlive.
    unfold RATE_LIMIT_WINDOW in *.
    rewrite Forall_forall in Hp, Hlive. apply Forall_forall. intros t Ht.
    split; [by apply Hlive | by apply Hp].
  - repeat constructor; lia.
Qed.

Lemma window_holds_the_trailing_minute_witness :
  let after :=
    RateLimiter.timestampsOf
      (snd (RateLimiter.isUserRateLimited {["u" := [0; 1; 50000]]} "u" 60000)) "u" in
  Forall (λ t, 60000 - 60000 < t ≤ 60000) after
  ∧ StronglySorted Z.le after
  ∧ last after = Some 60000.
Proof.
  apply (window_holds_the_trailing_minute {["u" := [0; 1; 50000]]} "u" 60000).
  - change (StronglySorted Z.le [0; 1; 50000]). repeat constructor; lia.
  - change (Forall (λ t, t ≤ 60000) [0; 1; 50000]). repeat constructor; lia.
Defined.

Lemma checks_cons m userId t rest :
  fst (RateLimiter.checks m userId (t :: rest))
  = fst (RateLimiter.isUserRateLimited m userId t)
      :: fst (RateLimiter.checks (snd (RateLimiter.isUserRateLimited m userId t))
                userId rest).
Proof.
  simpl. destruct (RateLimiter.checks _ userId rest) as [answers m2]. done.
Qed.

Lemma checks_cons_state m userId t rest :
  snd (RateLimiter.checks m userId (t :: rest))
  = snd (RateLimiter.checks (snd (RateLimiter.isUserRateLimited m userId t))
           userId rest).
Proof.
  simpl. destruct (RateLimiter.checks _ userId rest) as [answers m2]. done.
Qed.

(** Once the three most recent timestamps lie less than 20 s apart, every
    further event that follows within 20 s of the one before is refused. *)
Lemma lockout_goes_on userId times :
  ∀ (m : gmap string (list Z)) older t1 t2 t3,
    m !! userId = Some (older ++ [t1; t2; t3]) →
    StronglySorted Z.le (older ++ [t1; t2; t3]) →
    withinGaps 20000 (t1 :: t2 :: t3 :: times) →
    fst (RateLimiter.checks m userId times) = repeat true (length times).
Proof.
  induction times as [|t rest IH]; intros m older t1 t2 t3 Hm Hsorted Hgaps;
    [done |].
  destruct Hgaps as (H12 & H23 & H3t & Hrest).
  rewrite checks_cons. cbn [length repeat]. f_equal.
  - rewrite (three_recent_decide_the_fourth m userId older t1 t2 t3 t Hm Hsorted).
    apply bool_decide_eq_true. unfold RATE_LIMIT_WINDOW. lia.
  - assert (Hlive : t - RATE_LIMIT_WINDOW < t1) by (unfold RATE_LIMIT_WINDOW; lia).
    destruct (shiftExpired_keeps_live (t - RATE_LIMIT_WINDOW) older t1 [t2; t3] Hlive)
      as [older' Hkept].
    assert (Hpast : Forall (λ u, u ≤ t) (older ++ [t1; t2; t3])).
    { apply Forall_forall. intros u Hu.
      assert (u ≤ t3); [| lia].
      apply StronglySorted_app in Hsorted as (Hcross & _ & Hrecent).
      apply elem_of_app in Hu as [Hu | Hu].
      - apply (Hcross u t3 Hu). set_solver.
      - apply StronglySorted_cons in Hrecent as [H1 Hrecent].
        apply StronglySorted_cons in Hrecent as [H2 _].
        rewrite !Forall_cons in H1, H2.
        set_solver by lia. }
    destruct (windowAfter_sorted _ t Hsorted Hpast) as [Hs' _].
    unfold RateLimiter.windowAfter in Hs'. rewrite Hkept in Hs'.
    apply (IH _ (older' ++ [t1]) t2 t3 t).
    + rewrite isUserRateLimited_window. unfold RateLimiter.timestampsOf.
      rewrite Hm. unfold RateLimiter.windowAfter. rewrite Hkept.
      rewrite <- !app_assoc. reflexivity.
    + rewrite <- !app_assoc in Hs' |- *. exact Hs'.
    + exact (conj H23 (conj H3t Hrest)).
Qed.

(** X2.  A user whose events follow each other less than 20 s apart gets
    the first three through and none after: each refused event is recorded
    and keeps the window full. *)
Theorem refused_for_as_long_as_they_keep_sending
    (userId : string) (t1 t2 t3 : Z) (later : list Z) :
  withinGaps 20000 (t1 :: t2 :: t3 :: later) →
  fst (RateLimiter.checks ∅ userId (t1 :: t2 :: t3 :: later))
  = [false; false; false] ++ repeat true (length later).
Proof.
  intros Hgaps. pose proof Hgaps as (H12 & H23 & _).
  rewrite !checks_cons.
  assert (Hstate :
    snd (RateLimiter.isUserRateLimited
           (snd (RateLimiter.isUserRateLimited
                   (snd (RateLimiter.isUserRateLimited ∅ userId t1)) userId t2))
           userId t3) !! userId = Some ([] ++ [t1; t2; t3])).
  { unfold RateLimiter.isUserRateLimited, RateLimiter.timestampsOf,
      RateLimiter.windowAfter, RATE_LIMIT_WINDOW.
    cbn [snd]. rewrite lookup_empty, !lookup_insert_eq.
    cbn [RateLimiter.shiftExpired app].
    destruct (Z.leb_spec t1 (t2 - 60000)); [lia |].
    cbn [RateLimiter.shiftExpired app].
    destruct (Z.leb_spec t1 (t3 - 60000)); [lia |]. done. }
  rewrite (lockout_goes_on userId later _ [] t1 t2 t3 Hstate);
    [| simpl; repeat constructor; lia | done].
  unfold RateLimiter.isUserRateLimited, RateLimiter.timestampsOf,
    RateLimiter.windowAfter, RATE_LIMIT_WINDOW, RATE_LIMIT_MAX.
  cbn [fst snd]. rewrite lookup_empty, !lookup_insert_eq.
  cbn [RateLimiter.shiftExpired app].
  destruct (Z.leb_spec t1 (t2 - 60000)); [lia |].
  cbn [RateLimiter.shiftExpired app].
  destruct (Z.leb_spec t1 (t3 - 60000)); [lia |]. done.
Qed.

Lemma refused_for_as_long_as_they_keep_sending_witness :
  fst (RateLimiter.checks ∅ "u" [0; 15000; 30000; 45000; 60000; 75000; 90000])
  = [false; false; false; true; true; true; true].
Proof.
  apply (refused_for_as_long_as_they_keep_sending "u" 0 15000 30000
           [45000; 60000; 75000; 90000]).
  simpl. lia.
Defined.

Lemma checks_of_another_user m userId other times :
  other ≠ userId →
  snd (RateLimiter.checks m userId times) !! other = m !! other.
Proof.
  intros Hne. revert m. induction times as [|t rest IH]; intros m; [done |].
  rewrite checks_cons_state, IH. by apply isUserRateLimited_other.
Qed.

(** X3.  The limiter is per user: whatever one user sends, the answer to
    another user's event, and the window it leaves, are those it would have
    been without. *)
Theorem one_user_never_limits_another
    (m : gmap string (list Z)) (sender other : string) (times : list Z) (now : Z) :
  other ≠ sender →
  let busy := snd (RateLimiter.checks m sender times) in
  fst (RateLimiter.isUserRateLimited busy other now)
  = fst (RateLimiter.isUserRateLimited m other now)
  ∧ snd (RateLimiter.isUserRateLimited busy other now) !! other
    = snd (RateLimiter.isUserRateLimited m other now) !! other.
Proof.
  intros Hne busy.
  assert (Hsame : RateLimiter.timestampsOf busy other = RateLimiter.timestampsOf m other).
  { unfold RateLimiter.timestampsOf, busy. by rewrite checks_of_another_user. }
  split.
  - unfold RateLimiter.isUserRateLimited. simpl. by rewrite Hsame.
  - rewrite !isUserRateLimited_window. by rewrite Hsame.
Qed.

Lemma one_user_never_limits_another_witness :
  fst (RateLimiter.isUserRateLimited
         (snd (RateLimiter.checks ∅ "spammer" [0; 1; 2; 3; 4; 5])) "alice" 6)
  = fst (RateLimiter.isUserRateLimited ∅ "alice" 6)
  ∧ snd (RateLimiter.isUserRateLimited
           (snd (RateLimiter.checks ∅ "spammer" [0; 1; 2; 3; 4; 5])) "alice" 6)
      !! "alice"
    = snd (RateLimiter.isUserRateLimited ∅ "alice" 6) !! "alice".
Proof.
  apply (one_user_never_limits_another ∅ "spammer" "alice" [0; 1; 2; 3; 4; 5] 6).
  discriminate.
Defined.

(** ** The identity manager and the [webhooks] table *)

(** [getOrCreateWebhook] always returns; what it returns is the channel's
    row as the call leaves it; no other row is touched. *)
Lemma getOrCreateWebhook_row name channelId answers w :
  ∃ r w',
    getOrCreateWebhookNamed name channelId answers w = (Returned r, w')
    ∧ webhooks (db w') !! channelId = rowOf <$> r
    ∧ delete channelId (webhooks (db w')) = delete channelId (webhooks (db w)).
Proof.
  revert w. induction answers as [newId newToken | | next IH]; intros w; simpl;
    unfold_M.
  - destruct (webhooks (db w) !! channelId) as [row |] eqn:Hrow; simpl.
    + eexists _, _. split_and!; [done | | done]. simpl. rewrite Hrow. by destruct row.
    + rewrite Hrow. simpl. eexists _, _. split_and!; [done | |]; simpl.
      * by rewrite lookup_insert_eq.
      * by rewrite delete_insert_eq.
  - destruct (webhooks (db w) !! channelId) as [row |] eqn:Hrow; simpl.
    + eexists _, _. split_and!; [done | | done]. simpl. rewrite Hrow. by destruct row.
    + eexists _, _. split_and!; [done | | done]. simpl. by rewrite Hrow.
  - destruct (webhooks (db w) !! channelId) as [row |] eqn:Hrow; simpl.
    + eexists _, _. split_and!; [done | | done]. simpl. rewrite Hrow. by destruct row.
    + match goal with
      | |- context [getOrCreateWebhookNamed name channelId next ?w2] =>
          destruct (IH w2) as (r & w' & Hcall & Hagree & Hothers)
      end.
      exists r, w'. split_and!; [done | done |].
      rewrite Hothers. simpl. apply delete_delete_eq.
Qed.


Lemma getOrCreateWebhook_known name channelId answers w c :
  webhooks (db w) !! channelId = Some (rowOf c) →
  getOrCreateWebhookNamed name channelId answers w = (Returned (Some c), w).
Proof.
  intros Hrow. destruct answers; simpl; unfold_M; rewrite Hrow; by destruct c.
Qed.

(** X5.  Once a call has returned credentials for a channel, a further call
    for that channel returns the same credentials whatever the platform
    would answer, and does nothing: no webhook is created and no table
    written. *)
Theorem getOrCreateWebhook_reuses_the_webhook
    (name channelId : string) (answers again : CreateAnswers) (w : World)
    (c : Credentials) :
  fst (getOrCreateWebhookNamed name channelId answers w) = Returned (Some c) →
  getOrCreateWebhookNamed name channelId again
    (snd (getOrCreateWebhookNamed name channelId answers w))
  = (Returned (Some c), snd (getOrCreateWebhookNamed name channelId answers w)).
Proof.
  intros Hfirst.
  destruct (getOrCreateWebhook_row name channelId answers w)
    as (r & w' & Hcall & Hagree & _).
  rewrite Hcall in *. simpl in *. injection Hfirst as ->.
  by apply getOrCreateWebhook_known.
Qed.

Lemma getOrCreateWebhook_reuses_the_webhook_witness :
  getOrCreateWebhookNamed "Relay Webhook" "c1" Rejected
    (snd (getOrCreateWebhookNamed "Relay Webhook" "c1"
            (UnknownWebhook (Created "wh1" "tok1")) Multi.start))
  = (Returned (Some {| credId := "wh1"; credToken := "tok1" |}),
     snd (getOrCreateWebhookNamed "Relay Webhook" "c1"
            (UnknownWebhook (Created "wh1" "tok1")) Multi.start)).
Proof.
  apply (getOrCreateWebhook_reuses_the_webhook "Relay Webhook" "c1"
           (UnknownWebhook (Created "wh1" "tok1")) Rejected Multi.start).
  reflexivity.
Defined.

(** ** What a handler leaves alone *)

#[local] Instance keeps_preorder {B} (view : World → B) : PreOrder (keeps view).
Proof.
  split; [by intros w | intros w1 w2 w3; unfold keeps; congruence].
Qed.

Lemma keeps_emit {B} (view : World → B) e :
  (∀ w, view (recording w [e]) = view w) → preserves (keeps view) (emit e).
Proof. intros He w. apply He. Qed.

Lemma keeps_db_run {B} (view : World → B) s :
  (∀ w, view (recording w [DbRun s]) = view w) →
  (∀ w d', execute s (db w) = Some d' →
     view {| db := d'; userMessageCounts := userMessageCounts w;
             effects := effects w ++ [DbRun s] |} = view w) →
  preserves (keeps view) (db_run s).
Proof.
  intros Hemit Hexec w. unfold keeps, db_run, commit, emit, mbind, M_bind. simpl.
  destruct (execute s (db w)) as [d' |] eqn:Hs; simpl.
  - by apply Hexec.
  - apply Hemit.
Qed.

Lemma keeps_rateLimited {B} (view : World → B) user now :
  (∀ w counts limited,
     view {| db := db w; userMessageCounts := counts;
             effects := effects w ++ [RateLimitChecked user limited] |} = view w) →
  preserves (keeps view) (rateLimited user now).
Proof.
  intros Hview w. unfold keeps, rateLimited.
  destruct (RateLimiter.isUserRateLimited _ _ _) as [limited counts]. apply Hview.
Qed.

Lemma keeps_identity {B} (view : World → B) name channelId answers :
  (∀ w w', identityOnly w w' → view w' = view w) →
  preserves (keeps view) (getOrCreateWebhookNamed name channelId answers).
Proof.
  intros Hview. eapply preserves_weaken; [| apply getOrCreateWebhook_identityOnly].
  exact Hview.
Qed.

Lemma timersSet_app l1 l2 : timersSet (l1 ++ l2) = timersSet l1 ++ timersSet l2.
Proof. apply omap_app. Qed.

Lemma rateChecks_app l1 l2 : rateChecks (l1 ++ l2) = rateChecks l1 ++ rateChecks l2.
Proof. apply omap_app. Qed.

(** The side conditions: the view does not see what was written. *)
Ltac unseen :=
  intros; simpl in *; repeat case_match; simplify_eq; simpl;
  rewrite ?timersSet_app, ?rateChecks_app, ?app_nil_r; simpl;
  rewrite ?app_nil_r; done.

Ltac keep :=
  preserve;
  first
    [ apply keeps_emit; unseen
    | apply keeps_db_run; unseen
    | apply keeps_rateLimited; unseen
    | idtac ].

(** *** The relay channels *)

Local Abbreviation relayChannels := (λ w : World, relay_channels (db w)) (only parsing).

Lemma identity_keeps_relayChannels name channelId answers :
  preserves (keeps relayChannels) (getOrCreateWebhookNamed name channelId answers).
Proof. apply keeps_identity. by intros w w' (? & _). Qed.

Lemma sendWebhookMessage_keeps_relayChannels answers message attachment channelId name avatar :
  preserves (keeps relayChannels)
    (Multi.sendWebhookMessage answers message attachment channelId name avatar).
Proof.
  unfold Multi.sendWebhookMessage, Multi.getOrCreateWebhook. keep.
  apply identity_keeps_relayChannels.
Qed.

Lemma rotateWebhooks_keeps_relayChannels pass :
  preserves (keeps relayChannels) (Multi.rotateWebhooks pass).
Proof.
  unfold Multi.rotateWebhooks, Multi.writeWatermark.
  apply preserves_bind; [apply _ | keep |]. intros d.
  assert (Heach : ∀ rows n,
            preserves (keeps relayChannels)
              (forEachWebhook (Multi.rotateOne pass) rows n)).
  { induction rows as [|row rows IH]; intros n; simpl; [keep |].
    apply preserves_bind; [apply _ | unfold Multi.rotateOne; keep | intros ?; apply IH]. }
  destruct (map_to_list (webhooks d)) as [|row rows]; [keep |].
  apply preserves_bind; [apply _ | apply Heach | intros ?; keep].
Qed.

Lemma scheduleRotation_keeps_relayChannels answers :
  preserves (keeps relayChannels) (Multi.scheduleRotation answers).
Proof.
  unfold Multi.scheduleRotation.
  apply preserves_bind; [apply _ | keep |]. intros d.
  apply preserves_bind; [apply _ | | intros next; keep].
  destruct (negb _).
  - apply preserves_bind; [apply _ | apply rotateWebhooks_keeps_relayChannels |].
    intros n. keep.
  - destruct (Js.parseInt _) as [last |]; [| keep].
    destruct (_ >=? _); [| keep].
    apply preserves_bind; [apply _ | apply rotateWebhooks_keeps_relayChannels |].
    intros n. keep.
Qed.

(** X6.  The relay channels change by an administrator's [/relay] command
    and by nothing else: every other event of the loop (a message, an
    edit, a deletion, a [/webhook] command, a [/relay] command of somebody
    else, the start and the timer of the rotation) leaves the table
    [relay_channels] as it was. *)
Theorem relay_channels_change_by_relay_command_only (ev : Multi.Event) (w : World) :
  ¬ isRelayCommandOfAdministrator ev →
  relay_channels (db (Multi.dispatch ev w)) = relay_channels (db w).
Proof.
  intros Hev. unfold Multi.dispatch.
  set (w0 := {| db := db w; userMessageCounts := userMessageCounts w; effects := [] |}).
  change (keeps relayChannels w0 (snd (Multi.handler ev w0))).
  generalize w0. change (preserves (keeps relayChannels) (Multi.handler ev)).
  destruct ev as [answers | pass answers | answers i | answers message
                 | editResolves newMessage | deleteMessageResolves message]; simpl.
  - apply preserves_bind; [apply _ | apply scheduleRotation_keeps_relayChannels |].
    intros ?. keep.
  - unfold Multi.onTimeout.
    apply preserves_bind; [apply _ | | intros ?; keep].
    apply preserves_bind; [apply _ | apply rotateWebhooks_keeps_relayChannels |].
    intros ?. apply scheduleRotation_keeps_relayChannels.
  - simpl in Hev. unfold Multi.interactionCreate.
    assert (Hwebhook : preserves (keeps relayChannels) (Multi.webhookCommand answers i)).
    { unfold Multi.webhookCommand, Multi.isRelayChannel. keep.
      apply sendWebhookMessage_keeps_relayChannels. }
    destruct (isCommand i); cbn [negb]; cbv iota; [| keep].
    destruct (String.eqb_spec (commandName i) "relay") as [Hname | Hname];
      cbv iota.
    + unfold Multi.relayCommand.
      destruct (interactionIsAdministrator i); [by destruct Hev |].
      cbn [negb]. cbv iota. keep. apply Hwebhook.
    + apply preserves_bind; [apply _ | keep |]. intros [|]; [keep |].
      keep. apply Hwebhook.
  - unfold Multi.messageCreate, Multi.isRelayChannel. keep.
    apply sendWebhookMessage_keeps_relayChannels.
  - unfold Multi.messageUpdate. keep.
  - unfold Multi.messageDelete. keep.
Qed.

Lemma relay_channels_change_by_relay_command_only_witness :
  relay_channels
    (db (Multi.dispatch
           (Multi.InteractionCreate (Sample.platformOk 0 "")
              (Cases.relayByAlice "removechannel" "c1"))
           Sample.channelAdded))
  = relay_channels (db Sample.channelAdded).
Proof.
  apply (relay_channels_change_by_relay_command_only
           (Multi.InteractionCreate (Sample.platformOk 0 "")
              (Cases.relayByAlice "removechannel" "c1"))
           Sample.channelAdded).
  simpl. intros (_ & _ & Hadmin). discriminate Hadmin.
Defined.

(** X7.  An administrator's [/relay addchannel] makes the channel a relay
    channel and [/relay removechannel] makes it none, whatever it was
    before; the command decides nothing about any other channel and writes
    no other table. *)
Theorem relay_command_decides_isRelayChannel
    (answers : RelayAnswers) (i : Interaction) (w : World) :
  isCommand i = true →
  commandName i = "relay" →
  interactionIsAdministrator i = true →
  let w' := snd (Multi.interactionCreate answers i w) in
  (subcommand i = "addchannel" →
   fst (Multi.isRelayChannel (optionKanal i) w') = Returned true)
  ∧ (subcommand i = "removechannel" →
     fst (Multi.isRelayChannel (optionKanal i) w') = Returned false)
  ∧ (∀ other, other ≠ optionKanal i →
       fst (Multi.isRelayChannel other w') = fst (Multi.isRelayChannel other w))
  ∧ webhooks (db w') = webhooks (db w)
  ∧ message_map (db w') = message_map (db w)
  ∧ bot_meta (db w') = bot_meta (db w)
  ∧ userMessageCounts w' = userMessageCounts w.
Proof.
  intros Hcmd Hname Hadmin w'. subst w'.
  unfold Multi.interactionCreate, Multi.relayCommand, Multi.isRelayChannel.
  rewrite Hcmd, Hname, Hadmin. cbn [negb String.eqb Ascii.eqb Bool.eqb]. cbv iota.
  destruct (String.eqb_spec (subcommand i) "addchannel") as [Hadd | Hadd].
  - unfold_M.
    destruct (relay_channels (db w) !! optionKanal i) as [guild |] eqn:Hrow; simpl.
    + rewrite Hrow. split_and!; try done. rewrite Hadd. done.
    + rewrite Hrow. simpl. rewrite lookup_insert_eq. split_and!; try done.
      * rewrite Hadd. done.
      * intros other Hne. by rewrite lookup_insert_ne.
  - destruct (String.eqb_spec (subcommand i) "removechannel") as [Hremove | Hremove].
    + unfold_M.
      destruct (relay_channels (db w) !! optionKanal i) as [guild |] eqn:Hrow; simpl.
      * rewrite lookup_delete_eq. split_and!; try done.
        intros other Hne. by rewrite lookup_delete_ne.
      * rewrite Hrow. split_and!; done.
    + unfold_M. split_and!; done.
Qed.

Lemma relay_command_decides_isRelayChannel_witness :
  fst (Multi.isRelayChannel "c1"
         (snd (Multi.interactionCreate (Sample.platformOk 0 "")
                 (Sample.relay "addchannel" "c1") Multi.start)))
  = Returned true
  ∧ fst (Multi.isRelayChannel "c1"
           (snd (Multi.interactionCreate (Sample.platformOk 0 "")
                   (Sample.relay "removechannel" "c1") Sample.channelAdded)))
    = Returned false.
Proof.
  split.
  - destruct (relay_command_decides_isRelayChannel (Sample.platformOk 0 "")
                (Sample.relay "addchannel" "c1") Multi.start eq_refl eq_refl eq_refl)
      as (Hadd & _).
    apply Hadd. reflexivity.
  - destruct (relay_command_decides_isRelayChannel (Sample.platformOk 0 "")
                (Sample.relay "removechannel" "c1") Sample.channelAdded
                eq_refl eq_refl eq_refl)
      as (_ & Hremove & _).
    apply Hremove. reflexivity.
Defined.

(** ** What is sent for a message *)

#[local] Instance sendsOnly_preorder p : PreOrder (sendsOnly p).
Proof.
  split.
  - intros w. exists []. by rewrite app_nil_r.
  - intros w1 w2 w3 (l1 & He1 & Hl1) (l2 & He2 & Hl2).
    exists (l1 ++ l2). split.
    + by rewrite He2, He1, <- app_assoc.
    + by apply Forall_app.
Qed.

Lemma sendsOnly_emit p e :
  match e with WebhookSend _ q _ => q = p | _ => True end →
  preserves (sendsOnly p) (emit e).
Proof. intros He w. exists [e]. split; [done | by constructor]. Qed.

Lemma sendsOnly_db_run p s : preserves (sendsOnly p) (db_run s).
Proof.
  intros w. exists [DbRun s]. split; [| by constructor].
  unfold db_run, commit, emit, mbind, M_bind. simpl.
  by destruct (execute s (db w)).
Qed.

Lemma sendsOnly_rateLimited p user now : preserves (sendsOnly p) (rateLimited user now).
Proof.
  intros w. unfold rateLimited.
  destruct (RateLimiter.isUserRateLimited _ _ _) as [limited counts].
  exists [RateLimitChecked user limited]. split; [done | by constructor].
Qed.

Lemma sendsOnly_identity p name channelId answers :
  preserves (sendsOnly p) (getOrCreateWebhookNamed name channelId answers).
Proof.
  eapply preserves_weaken; [| apply getOrCreateWebhook_identityOnly].
  intros w w' (_ & _ & _ & _ & more & Heffs & Hmore).
  exists more. split; [done |].
  eapply Forall_impl; [exact Hmore |]. by intros [].
Qed.

Ltac sends_only :=
  preserve;
  first
    [ apply sendsOnly_emit; done
    | apply sendsOnly_db_run
    | apply sendsOnly_rateLimited
    | apply sendsOnly_identity
    | idtac ].

(** X8.  Whatever a [messageCreate] handler sends through a webhook for a
    message is the message's text (or no text when it is empty), under the
    member's display name and the author's avatar, with the first
    attachment and no other. *)
Theorem relayed_copy_carries_first_attachment_only
    (allowed : list string) (answers : RelayAnswers) (message : Message) (w : World) :
  sendsOnly (payloadOf message) w (snd (Multi.messageCreate answers message w))
  ∧ sendsOnly (payloadOf message) w
      (snd (AllowList.messageCreate allowed answers message w)).
Proof.
  split; revert w.
  - change (preserves (sendsOnly (payloadOf message))
              (Multi.messageCreate answers message)).
    unfold Multi.messageCreate, Multi.isRelayChannel, Multi.sendWebhookMessage,
      Multi.getOrCreateWebhook.
    sends_only.
  - change (preserves (sendsOnly (payloadOf message))
              (AllowList.messageCreate allowed answers message)).
    unfold AllowList.messageCreate, AllowList.sendWebhookMessage,
      AllowList.getOrCreateWebhook.
    sends_only.
Qed.

(** ** [messageCreate], branch by branch *)

(** X9.  [part_001]: when the platform refuses to delete the original, the
    handler stops there: the sender is not counted by the rate limiter, no
    webhook is looked up or created, nothing is sent and no table is
    written. *)
Theorem nothing_relayed_when_delete_fails
    (answers : RelayAnswers) (message : Message) (w : World) :
  bot (author message) = false →
  is_Some (relay_channels (db w) !! messageChannelId message) →
  deleteResolves answers = false →
  Multi.messageCreate answers message w
  = (Returned tt, recording w [MessageDeleted (messageId message) false]).
Proof.
  intros Hbot [guild Hgate] Hdelete.
  unfold Multi.messageCreate, Multi.isRelayChannel. rewrite Hbot, Hdelete.
  unfold_M. by rewrite Hgate.
Qed.

Lemma nothing_relayed_when_delete_fails_witness :
  Multi.messageCreate (Cases.deleteRefused 0) (Sample.original "m1" "c1")
    Sample.channelAdded
  = (Returned tt, recording Sample.channelAdded [MessageDeleted "m1" false]).
Proof.
  apply (nothing_relayed_when_delete_fails (Cases.deleteRefused 0)
           (Sample.original "m1" "c1") Sample.channelAdded).
  - reflexivity.
  - eexists. reflexivity.
  - reflexivity.
Defined.

(** X10.  A sender over the limit gets the notice and nothing else
    happens: nothing is sent, no webhook is created and no table written,
    in both generations; the check itself is recorded in the sender's
    window.  [part_001] has deleted the original before, [src/bot.js]
    deletes it after the notice. *)
Theorem over_the_limit_nothing_is_sent
    (allowed : list string) (answers : RelayAnswers) (message : Message) (w : World) :
  bot (author message) = false →
  memberIsAdministrator message = false →
  fst (RateLimiter.isUserRateLimited (userMessageCounts w)
         (userId (author message)) (dateNow answers)) = true →
  let counted :=
    snd (RateLimiter.isUserRateLimited (userMessageCounts w)
           (userId (author message)) (dateNow answers)) in
  (is_Some (relay_channels (db w) !! messageChannelId message) →
   deleteResolves answers = true →
   snd (Multi.messageCreate answers message w)
   = {| db := db w; userMessageCounts := counted;
        effects := effects w
                   ++ [MessageDeleted (messageId message) true;
                       RateLimitChecked (userId (author message)) true;
                       DirectMessage (userId (author message)) rateLimitNotice] |})
  ∧ (AllowList.includes allowed (messageChannelId message) = true →
     snd (AllowList.messageCreate allowed answers message w)
     = {| db := db w; userMessageCounts := counted;
          effects := effects w
                     ++ [RateLimitChecked (userId (author message)) true;
                         DirectMessage (userId (author message)) rateLimitNotice;
                         MessageDeleted (messageId message) (deleteResolves answers)] |}).
Proof.
  intros Hbot Hadmin Hlimited counted. subst counted.
  unfold RateLimiter.isUserRateLimited in *. simpl in Hlimited. split.
  - intros [guild Hgate] Hdelete.
    unfold Multi.messageCreate, Multi.isRelayChannel.
    rewrite Hbot, Hadmin, Hdelete. unfold_M. rewrite Hgate. simpl.
    rewrite Hlimited. simpl. by rewrite <- !app_assoc.
  - intros Hallowed. unfold AllowList.messageCreate.
    rewrite Hbot, Hallowed, Hadmin. unfold_M. rewrite Hlimited. simpl.
    by rewrite <- !app_assoc.
Qed.

Lemma over_the_limit_nothing_is_sent_witness :
  let busy := {| db := db Sample.channelAdded;
                 userMessageCounts := {["alice" := [0; 1; 2]]};
                 effects := [] |} in
  snd (Multi.messageCreate (Sample.platformOk 3 "r4") (Sample.original "m4" "c1") busy)
  = {| db := db Sample.channelAdded;
       userMessageCounts := {["alice" := [0; 1; 2; 3]]};
       effects := [MessageDeleted "m4" true; RateLimitChecked "alice" true;
                   DirectMessage "alice" rateLimitNotice] |}
  ∧ snd (AllowList.messageCreate ["c1"] (Sample.platformOk 3 "r4")
           (Sample.original "m4" "c1") busy)
    = {| db := db Sample.channelAdded;
         userMessageCounts := {["alice" := [0; 1; 2; 3]]};
         effects := [RateLimitChecked "alice" true;
                     DirectMessage "alice" rateLimitNotice;
                     MessageDeleted "m4" true] |}.
Proof.
  intros busy.
  destruct (over_the_limit_nothing_is_sent ["c1"] (Sample.platformOk 3 "r4")
              (Sample.original "m4" "c1") busy eq_refl eq_refl eq_refl)
    as [Hmulti Hbot].
  split.
  - rewrite Hmulti; [reflexivity | by eexists | reflexivity].
  - rewrite Hbot; reflexivity.
Defined.

Local Abbreviation counts := (λ w : World, userMessageCounts w) (only parsing).

Lemma identity_keeps_counts name channelId answers :
  preserves (keeps counts) (getOrCreateWebhookNamed name channelId answers).
Proof. apply keeps_identity. by intros w w' (_ & _ & _ & ? & _). Qed.

(** X11.  An administrator is never counted: a message or a [/webhook]
    command of a member with the Administrator permission leaves the
    rate-limit map as it was, whatever else the handler does, and records
    no rate check. *)
Theorem administrators_are_never_counted
    (allowed : list string) (answers : RelayAnswers)
    (message : Message) (i : Interaction) (w : World) :
  memberIsAdministrator message = true →
  interactionIsAdministrator i = true →
  let view := λ w : World, (userMessageCounts w, rateChecks (effects w)) in
  view (snd (Multi.messageCreate answers message w)) = view w
  ∧ view (snd (AllowList.messageCreate allowed answers message w)) = view w
  ∧ view (snd (AllowList.interactionCreate allowed answers i w)) = view w.
Proof.
  intros Hmessage Hcommand view.
  assert (Hidentity : ∀ name channelId create,
            preserves (keeps view) (getOrCreateWebhookNamed name channelId create)).
  { intros. apply keeps_identity.
    intros w0 w1 (_ & _ & _ & Hcounts & more & Heffs & Hmore). unfold view.
    rewrite Hcounts, Heffs, rateChecks_app. f_equal.
    rewrite <- (app_nil_r (rateChecks (effects w0))) at 2. f_equal.
    clear -Hmore. induction Hmore as [|e l He _ IH]; [done |].
    destruct e; simpl in *; done. }
  split_and!; revert w.
  - change (preserves (keeps view) (Multi.messageCreate answers message)).
    unfold Multi.messageCreate, Multi.isRelayChannel, Multi.sendWebhookMessage,
      Multi.getOrCreateWebhook.
    rewrite Hmessage. subst view. keep. apply Hidentity.
  - change (preserves (keeps view) (AllowList.messageCreate allowed answers message)).
    unfold AllowList.messageCreate, AllowList.sendWebhookMessage,
      AllowList.getOrCreateWebhook.
    rewrite Hmessage. subst view. keep. apply Hidentity.
  - change (preserves (keeps view) (AllowList.interactionCreate allowed answers i)).
    unfold AllowList.interactionCreate, AllowList.sendWebhookMessage,
      AllowList.getOrCreateWebhook.
    rewrite Hcommand. subst view. keep. apply Hidentity.
Qed.

Lemma administrators_are_never_counted_witness :
  let view := λ w : World, (userMessageCounts w, rateChecks (effects w)) in
  view (snd (Multi.messageCreate (Sample.platformOk 0 "r1")
               (Cases.byRoot "m1" "c1") Sample.channelAdded))
  = view Sample.channelAdded
  ∧ view (snd (AllowList.messageCreate ["c1"] (Sample.platformOk 0 "r1")
                 (Cases.byRoot "m1" "c1") Sample.channelAdded))
    = view Sample.channelAdded
  ∧ view (snd (AllowList.interactionCreate ["c1"] (Sample.platformOk 0 "r1")
                 (Cases.webhookByRoot "c1" "hi") Sample.channelAdded))
    = view Sample.channelAdded.
Proof.
  apply (administrators_are_never_counted ["c1"] (Sample.platformOk 0 "r1")
           (Cases.byRoot "m1" "c1") (Cases.webhookByRoot "c1" "hi")
           Sample.channelAdded);
    reflexivity.
Defined.




(** X13.  [src/bot.js]: a message with neither text nor attachment from a
    member under the limit is left where it is: it is not relayed and not
    deleted, and writes no table.  It has been counted all the same: the
    check comes before the test for an empty message. *)
Theorem bot_js_empty_message_is_counted_and_left
    (allowed : list string) (answers : RelayAnswers) (message : Message) (w : World) :
  bot (author message) = false →
  AllowList.includes allowed (messageChannelId message) = true →
  memberIsAdministrator message = false →
  messageContent message = "" →
  attachments message = [] →
  fst (RateLimiter.isUserRateLimited (userMessageCounts w)
         (userId (author message)) (dateNow answers)) = false →
  AllowList.messageCreate allowed answers message w
  = (Returned tt,
     {| db := db w;
        userMessageCounts :=
          <[userId (author message) :=
              RateLimiter.windowAfter
                (RateLimiter.timestampsOf (userMessageCounts w) (userId (author message)))
                (dateNow answers)]> (userMessageCounts w);
        effects := effects w ++ [RateLimitChecked (userId (author message)) false] |}).
Proof.
  intros Hbot Hallowed Hadmin Hcontent Hnone Hunder.
  unfold AllowList.messageCreate. rewrite Hbot, Hallowed, Hadmin, Hcontent, Hnone.
  unfold RateLimiter.isUserRateLimited in *. simpl in Hunder.
  unfold_M. rewrite Hunder. done.
Qed.

Lemma bot_js_empty_message_is_counted_and_left_witness :
  AllowList.messageCreate ["c1"] (Sample.platformOk 5 "r1")
    (Cases.emptyMessage "m1" "c1") Multi.start
  = (Returned tt,
     {| db := emptyDb; userMessageCounts := {["alice" := [5]]};
        effects := [RateLimitChecked "alice" false] |}).
Proof.
  apply (bot_js_empty_message_is_counted_and_left ["c1"] (Sample.platformOk 5 "r1")
           (Cases.emptyMessage "m1" "c1") Multi.start);
    reflexivity.
Defined.

(** ** Rotation and the mirrored copies *)

Lemma mirroring_reads_the_message_map (ev : Multi.Event) (w1 w2 : World) :
  match ev with
  | Multi.MessageUpdate _ _ | Multi.MessageDelete _ _ => True
  | _ => False
  end →
  message_map (db w1) = message_map (db w2) →
  effects (Multi.dispatch ev w1) = effects (Multi.dispatch ev w2)
  ∧ message_map (db (Multi.dispatch ev w1)) = message_map (db (Multi.dispatch ev w2)).
Proof.
  intros Hev Hmap. unfold Multi.dispatch.
  destruct ev as [| | | | editResolves newMessage | deleteMessageResolves message];
    try done; simpl.
  - destruct (bot (author newMessage)) eqn:Hbot.
    { unfold Multi.messageUpdate. rewrite Hbot. done. }
    destruct (message_map (db w2) !! messageId newMessage) as [mapping |] eqn:Hrow.
    + rewrite !(messageUpdate_mapped _ _ mapping) by (simpl; congruence). done.
    + rewrite !messageUpdate_unmapped by (simpl; congruence). done.
  - destruct (message_map (db w2) !! messageId message) as [mapping |] eqn:Hrow.
    + rewrite !(messageDelete_mapped _ _ mapping) by (simpl; congruence).
      simpl. by rewrite Hmap.
    + rewrite !messageDelete_unmapped by (simpl; congruence). done.
Qed.

(** X14.  A rotation pass does not reach the relayed copies: run from the
    timer or at the start, it leaves the message map as it was, so an edit
    or a deletion handled after the pass calls the platform with the
    webhook id and token stored with the mapping, exactly as it would have
    before the pass, and not with the channel's new row. *)
Theorem rotation_leaves_mirroring_on_stored_credentials
    (pass : RotationAnswers) (answers : ScheduleAnswers) (w : World)
    (flag : bool) (message : Message) :
  let rotated := Multi.dispatch (Multi.Timeout pass answers) w in
  let started := Multi.dispatch (Multi.Ready answers) w in
  message_map (db rotated) = message_map (db w)
  ∧ message_map (db started) = message_map (db w)
  ∧ effects (Multi.dispatch (Multi.MessageUpdate flag message) rotated)
    = effects (Multi.dispatch (Multi.MessageUpdate flag message) w)
  ∧ effects (Multi.dispatch (Multi.MessageDelete flag message) rotated)
    = effects (Multi.dispatch (Multi.MessageDelete flag message) w)
  ∧ effects (Multi.dispatch (Multi.MessageUpdate flag message) started)
    = effects (Multi.dispatch (Multi.MessageUpdate flag message) w)
  ∧ effects (Multi.dispatch (Multi.MessageDelete flag message) started)
    = effects (Multi.dispatch (Multi.MessageDelete flag message) w).
Proof.
  intros rotated started.
  assert (Hrotated : message_map (db rotated) = message_map (db w)).
  { assert (Hpass : preserves sameMessageMap
                      (Multi.handler (Multi.Timeout pass answers))).
    { simpl. unfold Multi.onTimeout.
      apply preserves_bind; [apply _ | | intros ?; preserve].
      apply preserves_bind; [apply _ | apply rotateWebhooks_sameMessageMap |].
      intros ?. apply scheduleRotation_sameMessageMap. }
    apply (Hpass {| db := db w; userMessageCounts := userMessageCounts w;
                    effects := [] |}). }
  assert (Hstarted : message_map (db started) = message_map (db w)).
  { assert (Hstart : preserves sameMessageMap
                       (Multi.handler (Multi.Ready answers))).
    { simpl. apply preserves_bind; [apply _ | | intros ?; preserve].
      apply scheduleRotation_sameMessageMap. }
    apply (Hstart {| db := db w; userMessageCounts := userMessageCounts w;
                     effects := [] |}). }
  split_and!; [done | done | ..];
    by apply mirroring_reads_the_message_map.
Qed.

(** ** One rotation pass, row by row *)

Lemma channelsFetched_app l1 l2 :
  channelsFetched (l1 ++ l2) = channelsFetched l1 ++ channelsFetched l2.
Proof. apply omap_app. Qed.

(** One turn of the loop of [part_001] (and of [src/bot.js]): it fetches
    its channel and no other, sets no timer, deletes the old webhook on the
    platform once the channel is fetched, and counts the row exactly when
    it leaves one. *)
Lemma rotateOne_effects pass webhook w :
  ∃ more,
    Multi.rotateOne pass webhook w
    = (Returned (bool_decide (is_Some (rotatedRow pass (fst webhook)))),
       {| db := db (snd (Multi.rotateOne pass webhook w));
          userMessageCounts := userMessageCounts w;
          effects := effects w ++ more |})
    ∧ channelsFetched more = [fst webhook]
    ∧ timersSet more = []
    ∧ (fetchAnswer pass (fst webhook) = Fetched →
       WebhookDelete {| credId := webhookId (snd webhook);
                        credToken := webhookToken (snd webhook) |} ∈ more).
Proof.
  unfold Multi.rotateOne, rotatedRow. unfold_M.
  destruct (fetchAnswer pass webhook.1); simpl.
  - destruct (newWebhook pass webhook.1) as [[newId newToken] |]; simpl;
      eexists; rewrite <- !app_assoc; simpl;
      (split_and!; [reflexivity | done | done | intros _; set_solver]).
  - eexists; rewrite <- !app_assoc; simpl. split_and!; [reflexivity | done ..].
  - eexists; rewrite <- !app_assoc; simpl. split_and!; [reflexivity | done ..].
Qed.

Lemma rotateEach_effects pass allWebhooks :
  ∀ rotatedCount w, ∃ more,
    forEachWebhook (Multi.rotateOne pass) allWebhooks rotatedCount w
    = (Returned (rotatedCount
                 + length (filter (λ webhook, is_Some (rotatedRow pass (fst webhook)))
                             allWebhooks))%nat,
       {| db := db (snd (forEachWebhook (Multi.rotateOne pass) allWebhooks
                           rotatedCount w));
          userMessageCounts := userMessageCounts w;
          effects := effects w ++ more |})
    ∧ channelsFetched more = allWebhooks.*1
    ∧ timersSet more = []
    ∧ ∀ webhook, webhook ∈ allWebhooks →
        fetchAnswer pass (fst webhook) = Fetched →
        WebhookDelete {| credId := webhookId (snd webhook);
                         credToken := webhookToken (snd webhook) |} ∈ more.
Proof.
  induction allWebhooks as [|webhook rest IH]; intros rotatedCount w; simpl.
  - exists []. rewrite app_nil_r, Nat.add_0_r.
    split_and!; [by destruct w | done | done |].
    intros ? Hin. by apply elem_of_nil in Hin.
  - destruct (rotateOne_effects pass webhook w) as (first & Hone & Hfetch1 & Htimer1 & Hdel1).
    unfold mbind, M_bind. rewrite Hone.
    match goal with
    | |- context [forEachWebhook _ rest ?n ?w1] =>
        destruct (IH n w1) as (more & Heach & Hfetch & Htimer & Hdel)
    end.
    rewrite Heach. simpl. exists (first ++ more). split_and!.
    + rewrite app_assoc. f_equal. f_equal.
      rewrite filter_cons. case_bool_decide as Hrow.
      * rewrite decide_True by done. simpl. lia.
      * rewrite decide_False by done. lia.
    + by rewrite channelsFetched_app, Hfetch1, Hfetch.
    + by rewrite timersSet_app, Htimer1, Htimer.
    + intros other [-> | Hin]%elem_of_cons Hfetched.
      * apply elem_of_app. left. by apply Hdel1.
      * apply elem_of_app. right. by apply Hdel.
Qed.

(** The rows a pass leaves are as many as it counted. *)
Lemma size_of_rotated_table pass (table after : gmap string WebhookRow) :
  (∀ c, after !! c = table !! c ≫= (λ _, rotatedRow pass c)) →
  size after
  = length (filter (λ webhook : string * WebhookRow,
                      is_Some (rotatedRow pass (fst webhook)))
              (map_to_list table)).
Proof.
  intros Hrows.
  assert (after = map_imap (λ c _, rotatedRow pass c) table) as ->.
  { apply map_eq. intros c. by rewrite Hrows, map_lookup_imap. }
  clear Hrows. induction table as [|c row table Hfresh IH] using map_ind.
  - by rewrite map_imap_empty, map_size_empty, map_to_list_empty.
  - rewrite map_imap_insert, map_to_list_insert by done.
    rewrite filter_cons. simpl.
    destruct (rotatedRow pass c) as [row' |] eqn:Hrow.
    + rewrite decide_True by (by eexists). simpl.
      rewrite map_size_insert_None by (by rewrite map_lookup_imap, Hfresh).
      by rewrite IH.
    + rewrite decide_False by (by intros [? ?]).
      rewrite delete_id by (by rewrite map_lookup_imap, Hfresh).
      done.
Qed.

(** The loop over the whole table. *)
Lemma rotateEach_table pass w :
  ∃ more after,
    forEachWebhook (Multi.rotateOne pass) (map_to_list (webhooks (db w))) 0%nat w
    = (Returned (size (webhooks (db after))), after)
    ∧ effects after = effects w ++ more
    ∧ userMessageCounts after = userMessageCounts w
    ∧ bot_meta (db after) = bot_meta (db w)
    ∧ (∀ c, webhooks (db after) !! c
            = webhooks (db w) !! c ≫= (λ _, rotatedRow pass c))
    ∧ channelsFetched more = (map_to_list (webhooks (db w))).*1
    ∧ timersSet more = []
    ∧ ∀ c row, webhooks (db w) !! c = Some row →
        fetchAnswer pass c = Fetched →
        WebhookDelete {| credId := webhookId row; credToken := webhookToken row |}
          ∈ more.
Proof.
  destruct (rotateEach_effects pass (map_to_list (webhooks (db w))) 0%nat w)
    as (more & Heach & Hfetch & Htimer & Hdel).
  destruct (forEachWebhook_rows (Multi.rotateOne pass) (λ c _, rotatedRow pass c)
              (rotateOne_settles pass) (map_to_list (webhooks (db w)))
              (NoDup_fst_map_to_list _) 0%nat w) as (n & after & Hrun & Hrows).
  destruct (rotateEach_returns pass (map_to_list (webhooks (db w))) 0%nat w)
    as (n' & after' & Hrun' & Hmeta).
  rewrite Hrun in Heach, Hrun'. simpl in Heach.
  injection Hrun' as <- <-. injection Heach as Hn Hafter.
  assert (Htable : ∀ c, webhooks (db after) !! c
                        = webhooks (db w) !! c ≫= (λ _, rotatedRow pass c)).
  { intros c. rewrite Hrows, list_to_map_to_list.
    by destruct (webhooks (db w) !! c). }
  exists more, after. split_and!; try done.
  - rewrite Hrun. do 2 f_equal.
    rewrite (size_of_rotated_table pass (webhooks (db w))) by done. by rewrite Hn.
  - by rewrite Hafter.
  - by rewrite Hafter.
  - intros c row Hrow Hfetched.
    apply (Hdel (c, row)); [by apply elem_of_map_to_list | done].
Qed.

(** A whole pass of [part_001]. *)
Lemma rotateWebhooks_pass pass w :
  ∃ more after,
    Multi.rotateWebhooks pass w = (Returned (size (webhooks (db after))), after)
    ∧ effects after
      = effects w ++ more
        ++ [DbRun (ReplaceBotMeta watermarkKey (Js.numberToString (passEnd pass)))]
    ∧ userMessageCounts after = userMessageCounts w
    ∧ (∀ c, webhooks (db after) !! c
            = webhooks (db w) !! c ≫= (λ _, rotatedRow pass c))
    ∧ channelsFetched more = (map_to_list (webhooks (db w))).*1
    ∧ timersSet more = []
    ∧ ∀ c row, webhooks (db w) !! c = Some row →
        fetchAnswer pass c = Fetched →
        WebhookDelete {| credId := webhookId row; credToken := webhookToken row |}
          ∈ more.
Proof.
  destruct (rotateEach_table pass w)
    as (more & loop & Heach & Heffs & Hcounts & _ & Hrows & Hfetch & Htimer & Hdel).
  exists more. unfold Multi.rotateWebhooks, Multi.writeWatermark.
  unfold mbind at 1, M_bind at 1, getDb at 1. fold watermarkKey.
  destruct (map_to_list (webhooks (db w))) as [|webhook rest] eqn:Hlist.
  - simpl in Heach. injection Heach as Hsize <-.
    assert (more = []) as ->
      by (apply (app_inv_head (effects w)); by rewrite app_nil_r).
    exists (snd (db_run (ReplaceBotMeta watermarkKey
                           (Js.numberToString (passEnd pass))) w)).
    unfold_M. split_and!; try done. simpl.
    apply map_to_list_empty_iff in Hlist. by rewrite Hlist.
  - rewrite <- Hlist in *. unfold mbind at 1, M_bind at 1. rewrite Heach.
    exists (snd (db_run (ReplaceBotMeta watermarkKey
                           (Js.numberToString (passEnd pass))) loop)).
    unfold_M. split_and!; try done; simpl.
    by rewrite Heffs, <- app_assoc.
Qed.

(** A whole pass of [src/bot.js]. *)
Lemma bot_js_rotateWebhooks_pass pass w :
  ∃ more after,
    AllowList.rotateWebhooks pass w = (Returned (size (webhooks (db after))), after)
    ∧ effects after = effects w ++ more
    ∧ userMessageCounts after = userMessageCounts w
    ∧ bot_meta (db after) = bot_meta (db w)
    ∧ (∀ c, webhooks (db after) !! c
            = webhooks (db w) !! c ≫= (λ _, rotatedRow pass c))
    ∧ channelsFetched more = (map_to_list (webhooks (db w))).*1.
Proof.
  destruct (rotateEach_table pass w)
    as (more & loop & Heach & Heffs & Hcounts & Hmeta & Hrows & Hfetch & _).
  exists more, loop. split_and!; try done.
  unfold AllowList.rotateWebhooks.
  unfold mbind at 1, M_bind at 1, getDb at 1.
  destruct (map_to_list (webhooks (db w))) as [|webhook rest]; exact Heach.
Qed.


(** The loop writes the rows of [webhooks] and nothing else. *)
Lemma rotateEach_keeps {B} (view : World → B) pass allWebhooks rotatedCount :
  (∀ w e, view (recording w [e]) = view w) →
  (∀ w table e,
     view {| db := withWebhooks (db w) table;
             userMessageCounts := userMessageCounts w;
             effects := effects w ++ [e] |} = view w) →
  preserves (keeps view) (forEachWebhook (Multi.rotateOne pass) allWebhooks rotatedCount).
Proof.
  intros Hemit Htable. revert rotatedCount.
  induction allWebhooks as [|webhook rest IH]; intros rotatedCount; simpl; [preserve |].
  apply preserves_bind; [apply _ | | intros ?; apply IH].
  unfold Multi.rotateOne. preserve;
    first [ apply keeps_emit; intros; apply Hemit
          | apply keeps_db_run;
            [ intros; apply Hemit
            | intros w d' Hexec; simpl in Hexec; injection Hexec as <-;
              apply Htable ] ].
Qed.

(** X16.  A pass of [src/bot.js] settles each row as a pass of [part_001]
    does, but writes nothing else: there is no watermark, the other tables
    and the rate-limit map are what they were, and on an empty table it
    does nothing at all. *)
Theorem bot_js_rotation_writes_only_the_rows (pass : RotationAnswers) (w : World) :
  let after := snd (AllowList.rotateWebhooks pass w) in
  (∀ channelId,
     webhooks (db after) !! channelId
     = webhooks (db w) !! channelId ≫= (λ _, rotatedRow pass channelId))
  ∧ bot_meta (db after) = bot_meta (db w)
  ∧ relay_channels (db after) = relay_channels (db w)
  ∧ message_map (db after) = message_map (db w)
  ∧ userMessageCounts after = userMessageCounts w
  ∧ (webhooks (db w) = ∅ → AllowList.rotateWebhooks pass w = (Returned 0%nat, w)).
Proof.
  intros after.
  destruct (bot_js_rotateWebhooks_pass pass w)
    as (more & after' & Hrun & _ & Hcounts & Hmeta & Hrows & _).
  assert (Hpass : ∀ {B} (view : World → B),
            (∀ w0 e, view (recording w0 [e]) = view w0) →
            (∀ w0 table e,
               view {| db := withWebhooks (db w0) table;
                       userMessageCounts := userMessageCounts w0;
                       effects := effects w0 ++ [e] |} = view w0) →
            view after = view w).
  { intros B view Hemit Htable. unfold after, AllowList.rotateWebhooks.
    unfold mbind at 1, M_bind at 1, getDb at 1.
    destruct (map_to_list (webhooks (db w))) as [|webhook rest]; [done |].
    by apply rotateEach_keeps. }
  assert (after = after') as Hafter by (unfold after; by rewrite Hrun).
  split_and!.
  - by rewrite Hafter.
  - by rewrite Hafter.
  - by apply (Hpass _ (λ w0, relay_channels (db w0))).
  - by apply (Hpass _ (λ w0, message_map (db w0))).
  - by rewrite Hafter.
  - intros Hempty. unfold AllowList.rotateWebhooks.
    unfold mbind at 1, M_bind at 1, getDb at 1.
    by rewrite Hempty, map_to_list_empty.
Qed.

(** ** The timer *)

(** [scheduleRotation] always returns; whatever it did before, the last
    thing it does is to set one timer, and it sets no other. *)
Lemma scheduleRotation_timer answers w :
  ∃ next before after,
    Multi.scheduleRotation answers w = (Returned next, after)
    ∧ effects after
      = effects w ++ before
        ++ [SetTimeout (Multi.timerDelay ((λ t, t - nowAtDelay answers) <$> next))]
    ∧ timersSet before = []
    ∧ userMessageCounts after = userMessageCounts w.
Proof.
  assert (Hrotate :
    ∃ before after,
      (Multi.rotateWebhooks (rotation answers);;
       mret (Some (nowAfterRotation answers + ROTATION_INTERVAL))) w
      = (Returned (Some (nowAfterRotation answers + ROTATION_INTERVAL)), after)
      ∧ effects after = effects w ++ before
      ∧ timersSet before = []
      ∧ userMessageCounts after = userMessageCounts w).
  { destruct (rotateWebhooks_pass (rotation answers) w)
      as (more & after & Hrun & Heffs & Hcounts & _ & _ & Htimer & _).
    eexists _, after. unfold mbind, M_bind. rewrite Hrun. simpl.
    split_and!; [done | exact Heffs | | done].
    by rewrite timersSet_app, Htimer. }
  assert (Hblock :
    ∃ next before after,
      (if negb (truthy (bot_meta (db w) !! "lastRotationTimestamp"))
       then Multi.rotateWebhooks (rotation answers);;
            mret (Some (nowAfterRotation answers + ROTATION_INTERVAL))
       else
         match Js.parseInt (default "" (bot_meta (db w) !! "lastRotationTimestamp")) with
         | Some last =>
             if nowAtStart answers >=? last + ROTATION_INTERVAL
             then Multi.rotateWebhooks (rotation answers);;
                  mret (Some (nowAfterRotation answers + ROTATION_INTERVAL))
             else mret (Some (last + ROTATION_INTERVAL))
         | None => mret None
         end) w
      = (Returned next, after)
      ∧ effects after = effects w ++ before
      ∧ timersSet before = []
      ∧ userMessageCounts after = userMessageCounts w).
  { destruct Hrotate as (before & after & Hrun & Heffs & Htimer & Hcounts).
    destruct (negb _); [by eexists _, before, after |].
    destruct (Js.parseInt _) as [last |].
    - destruct (_ >=? _); [by eexists _, before, after |].
      eexists _, [], w. by rewrite app_nil_r.
    - eexists _, [], w. by rewrite app_nil_r. }
  destruct Hblock as (next & before & after & Hrun & Heffs & Htimer & Hcounts).
  unfold Multi.scheduleRotation.
  unfold mbind at 1, M_bind at 1, getDb at 1.
  unfold mbind at 1, M_bind at 1. rewrite Hrun. unfold_M.
  eexists next, before, _. split_and!; [reflexivity | | done | done].
  simpl. by rewrite Heffs, <- app_assoc.
Qed.

Lemma timerDelay_max (next : option Z) (now : Z) :
  Multi.timerDelay ((λ t, t - now) <$> next)
  = match next with Some t => Z.max 0 (t - now) | None => 0 end.
Proof.
  destruct next as [t |]; [| done]. simpl.
  destruct (Z.gtb_spec (t - now) 0); lia.
Qed.

(** X17.  [scheduleRotation] never throws and always ends by setting
    exactly one timer, whatever the watermark holds and whatever happens
    to the rows: the delay is the time left until the instant it returns,
    and zero when that instant has passed or is no number. *)
Theorem scheduleRotation_sets_exactly_one_timer (answers : ScheduleAnswers) (w : World) :
  ∃ next after delay,
    Multi.scheduleRotation answers w = (Returned next, after)
    ∧ timersSet (effects after) = timersSet (effects w) ++ [delay]
    ∧ last (effects after) = Some (SetTimeout delay)
    ∧ delay = match next with
              | Some due => Z.max 0 (due - nowAtDelay answers)
              | None => 0
              end.
Proof.
  destruct (scheduleRotation_timer answers w)
    as (next & before & after & Hrun & Heffs & Htimer & _).
  exists next, after, (Multi.timerDelay ((λ t, t - nowAtDelay answers) <$> next)).
  split_and!; [done | | | apply timerDelay_max].
  - by rewrite Heffs, !timersSet_app, Htimer.
  - rewrite Heffs, app_assoc. apply last_snoc.
Qed.

(** X18.  A watermark that is no number does not stop the schedule:
    [scheduleRotation] runs no pass and writes nothing, and sets the timer
    to fire at once. *)
Theorem unreadable_watermark_fires_the_timer_at_once
    (answers : ScheduleAnswers) (w : World) (value : string) :
  bot_meta (db w) !! watermarkKey = Some value →
  value ≠ "" →
  Js.parseInt value = None →
  Multi.scheduleRotation answers w = (Returned None, recording w [SetTimeout 0]).
Proof.
  intros Hrow Hvalue Hparse. unfold Multi.scheduleRotation.
  unfold mbind at 1, M_bind at 1, getDb at 1. fold watermarkKey.
  rewrite Hrow. simpl.
  destruct (String.eqb_spec value "") as [-> | _]; [done |].
  simpl. rewrite Hparse. reflexivity.
Qed.

Lemma unreadable_watermark_fires_the_timer_at_once_witness :
  Multi.scheduleRotation (Sample.scheduleAt 7000) Cases.brokenWatermark
  = (Returned None, recording Cases.brokenWatermark [SetTimeout 0]).
Proof.
  apply (unreadable_watermark_fires_the_timer_at_once (Sample.scheduleAt 7000)
           Cases.brokenWatermark "yesterday");
    [reflexivity | discriminate | reflexivity].
Defined.

(** X19.  The timer's callback, with a clock that has not run a day past
    the end of its pass: it makes one pass over the table (each channel
    with a row is fetched once, in the order of the SELECT, which is left
    open), leaves the end of that pass as the watermark, runs no second
    pass, and sets the one timer for a day after the end of the pass. *)
Theorem timer_callback_rotates_once_and_waits_a_day
    (pass : RotationAnswers) (answers : ScheduleAnswers) (w : World) :
  0 ≤ passEnd pass →
  nowAtStart answers < passEnd pass + 86400000 →
  ∃ after visited,
    Multi.onTimeout pass answers w
    = (Returned (Some (passEnd pass + 86400000)), after)
    ∧ bot_meta (db after) !! watermarkKey = Some (Js.numberToString (passEnd pass))
    ∧ channelsFetched (effects after) = channelsFetched (effects w) ++ visited
    ∧ visited ≡ₚ (map_to_list (webhooks (db w))).*1
    ∧ timersSet (effects after)
      = timersSet (effects w)
        ++ [Z.max 0 (passEnd pass + 86400000 - nowAtDelay answers)].
Proof.
  intros Hpos Hearly.
  destruct (rotateWebhooks_pass pass w)
    as (more & rotated & Hrun & Heffs & _ & _ & Hfetch & Htimer & _).
  destruct (rotateWebhooks_writes_watermark pass w)
    as (n & rotated' & Hrun' & Hmeta & _).
  rewrite Hrun in Hrun'. injection Hrun' as _ <-.
  destruct (parseInt_numberToString (passEnd pass) Hpos) as [Hparse Htruthy].
  assert (Hread : bot_meta (db rotated) !! watermarkKey
                  = Some (Js.numberToString (passEnd pass)))
    by (rewrite Hmeta; apply lookup_insert_eq).
  unfold Multi.onTimeout. unfold mbind at 1, M_bind at 1. rewrite Hrun.
  rewrite (scheduleRotation_waits answers rotated (passEnd pass))
    by (rewrite ?Hread; done).
  unfold waitUntil, ROTATION_INTERVAL. unfold_M.
  eexists _, (map_to_list (webhooks (db w))).*1.
  split_and!; [reflexivity | exact Hread | | done |]; simpl.
  - rewrite Heffs, !channelsFetched_app, Hfetch. simpl. by rewrite !app_nil_r.
  - rewrite Heffs, !timersSet_app, Htimer. simpl. rewrite app_nil_r.
    do 2 f_equal.
    destruct (Z.gtb_spec (passEnd pass + 86400000 - nowAtDelay answers) 0); lia.
Qed.

Lemma timer_callback_rotates_once_and_waits_a_day_witness :
  ∃ after visited,
    Multi.onTimeout (Sample.passOk 9000) (Sample.scheduleAt 9500) Sample.twoRows
    = (Returned (Some (9000 + 86400000)), after)
    ∧ bot_meta (db after) !! watermarkKey = Some (Js.numberToString 9000)
    ∧ channelsFetched (effects after)
      = channelsFetched (effects Sample.twoRows) ++ visited
    ∧ visited ≡ₚ (map_to_list (webhooks (db Sample.twoRows))).*1
    ∧ timersSet (effects after)
      = timersSet (effects Sample.twoRows)
        ++ [Z.max 0 (9000 + 86400000 - 9500)].
Proof.
  apply (timer_callback_rotates_once_and_waits_a_day (Sample.passOk 9000)
           (Sample.scheduleAt 9500) Sample.twoRows); simpl; lia.
Defined.

(** ** The schedule, from the start of the process on *)

(** What running a pass at once comes to, when [scheduleRotation] does. *)
Lemma scheduleRotation_rotates_outcome answers w :
  truthy (bot_meta (db w) !! watermarkKey) = false
  ∨ (∃ last, Js.parseInt (default "" (bot_meta (db w) !! watermarkKey)) = Some last
             ∧ last + ROTATION_INTERVAL ≤ nowAtStart answers) →
  ∃ after visited,
    Multi.scheduleRotation answers w
    = (Returned (Some (nowAfterRotation answers + 86400000)), after)
    ∧ (∀ channelId,
         webhooks (db after) !! channelId
         = webhooks (db w) !! channelId
           ≫= (λ _, rotatedRow (rotation answers) channelId))
    ∧ bot_meta (db after) !! watermarkKey
      = Some (Js.numberToString (passEnd (rotation answers)))
    ∧ channelsFetched (effects after) = channelsFetched (effects w) ++ visited
    ∧ visited ≡ₚ (map_to_list (webhooks (db w))).*1
    ∧ timersSet (effects after)
      = timersSet (effects w)
        ++ [Z.max 0 (nowAfterRotation answers + 86400000 - nowAtDelay answers)].
Proof.
  intros Hcase. rewrite (scheduleRotation_rotates answers w Hcase).
  destruct (rotateWebhooks_pass (rotation answers) w)
    as (more & rotated & Hrun & Heffs & _ & Hrows & Hfetch & Htimer & _).
  destruct (rotateWebhooks_writes_watermark (rotation answers) w)
    as (n & rotated' & Hrun' & Hmeta & _).
  rewrite Hrun in Hrun'. injection Hrun' as _ <-.
  unfold rotateNow, ROTATION_INTERVAL. unfold mbind at 1, M_bind at 1. rewrite Hrun.
  unfold_M. eexists _, (map_to_list (webhooks (db w))).*1.
  split_and!; [reflexivity | exact Hrows | | | done |]; simpl.
  - rewrite Hmeta. apply lookup_insert_eq.
  - rewrite Heffs, !channelsFetched_app, Hfetch. simpl. by rewrite !app_nil_r.
  - rewrite Heffs, !timersSet_app, Htimer. simpl. rewrite app_nil_r.
    do 2 f_equal.
    destruct (Z.gtb_spec (nowAfterRotation answers + 86400000 - nowAtDelay answers) 0);
      lia.
Qed.

(** What waiting comes to: no pass, one timer. *)
Lemma scheduleRotation_waits_outcome answers w last :
  truthy (bot_meta (db w) !! watermarkKey) = true →
  Js.parseInt (default "" (bot_meta (db w) !! watermarkKey)) = Some last →
  nowAtStart answers < last + 86400000 →
  Multi.scheduleRotation answers w
  = (Returned (Some (last + 86400000)),
     recording w [SetTimeout (Z.max 0 (last + 86400000 - nowAtDelay answers))]).
Proof.
  intros Hpresent Hparse Hearly.
  rewrite (scheduleRotation_waits answers w last Hpresent Hparse Hearly).
  unfold waitUntil, ROTATION_INTERVAL, recording, Multi.timerDelay. unfold_M.
  by destruct (Z.gtb_spec (last + 86400000 - nowAtDelay answers) 0);
    rewrite ?Z.max_r, ?Z.max_l by lia.
Qed.

(** C4.  [scheduleRotation], called once when the process is ready, reads
    the watermark and then:
    - without one (no row, or an empty value), or with one that is due
      ([now >= watermark + 24h]), it runs a rotation pass at once: every
      row is settled by that pass, the end of the pass becomes the
      watermark, and the one timer is set for 24 h after the pass;
    - with one that is not due it runs no pass and writes nothing: its only
      effect is the timer, due at [watermark + 24h] (at once if that
      instant has passed while it was computing).
    When the timer fires, the event loop runs its callback
    ([Multi.onTimeout]): a rotation pass, which always returns, settles
    every row and ends by writing its end time as the new watermark
    whatever happened to the rows; then, the clock not having run a day
    past that, the one timer for [watermark + 24h] again and no second
    pass.  A process started again after a pass and before its watermark
    is due runs no pass and only sets the timer for [watermark + 24h]. *)
Theorem rotation_schedule_follows_watermark (answers : ScheduleAnswers) (w : World) :
  let rotatesAtOnce :=
    ∃ after visited,
      Multi.scheduleRotation answers w
      = (Returned (Some (nowAfterRotation answers + 86400000)), after)
      ∧ (∀ channelId,
           webhooks (db after) !! channelId
           = webhooks (db w) !! channelId
             ≫= (λ _, rotatedRow (rotation answers) channelId))
      ∧ bot_meta (db after) !! watermarkKey
        = Some (Js.numberToString (passEnd (rotation answers)))
      ∧ channelsFetched (effects after) = channelsFetched (effects w) ++ visited
      ∧ visited ≡ₚ (map_to_list (webhooks (db w))).*1
      ∧ timersSet (effects after)
        = timersSet (effects w)
          ++ [Z.max 0 (nowAfterRotation answers + 86400000 - nowAtDelay answers)] in
  (truthy (bot_meta (db w) !! watermarkKey) = false → rotatesAtOnce)
  ∧ (∀ last,
       truthy (bot_meta (db w) !! watermarkKey) = true →
       Js.parseInt (default "" (bot_meta (db w) !! watermarkKey)) = Some last →
       (last + 86400000 ≤ nowAtStart answers → rotatesAtOnce)
       ∧ (nowAtStart answers < last + 86400000 →
          Multi.scheduleRotation answers w
          = (Returned (Some (last + 86400000)),
             recording w [SetTimeout (Z.max 0 (last + 86400000 - nowAtDelay answers))])
          ∧ nowAtDelay answers + Z.max 0 (last + 86400000 - nowAtDelay answers)
            = Z.max (last + 86400000) (nowAtDelay answers)))
  ∧ (∀ pass next,
       ∃ rotatedCount rotated visited,
         Multi.rotateWebhooks pass w = (Returned rotatedCount, rotated)
         ∧ (∀ channelId,
              webhooks (db rotated) !! channelId
              = webhooks (db w) !! channelId ≫= (λ _, rotatedRow pass channelId))
         ∧ bot_meta (db rotated)
           = <[watermarkKey := Js.numberToString (passEnd pass)]> (bot_meta (db w))
         ∧ last (effects rotated)
           = Some (DbRun (ReplaceBotMeta watermarkKey (Js.numberToString (passEnd pass))))
         ∧ channelsFetched (effects rotated) = channelsFetched (effects w) ++ visited
         ∧ visited ≡ₚ (map_to_list (webhooks (db w))).*1
         ∧ (0 ≤ passEnd pass →
            nowAtStart next < passEnd pass + 86400000 →
            Multi.onTimeout pass next w
            = (Returned (Some (passEnd pass + 86400000)),
               recording rotated
                 [SetTimeout (Z.max 0 (passEnd pass + 86400000 - nowAtDelay next))])
            ∧ Multi.scheduleRotation next (restarted rotated)
              = (Returned (Some (passEnd pass + 86400000)),
                 recording (restarted rotated)
                   [SetTimeout (Z.max 0 (passEnd pass + 86400000 - nowAtDelay next))]))).
Proof.
  intros rotatesAtOnce. split_and!.
  - intros Habsent. apply scheduleRotation_rotates_outcome. by left.
  - intros last Hpresent Hparse. split.
    + intros Hdue. apply scheduleRotation_rotates_outcome. right. by exists last.
    + intros Hearly. split; [by apply scheduleRotation_waits_outcome | lia].
  - intros pass next.
    destruct (rotateWebhooks_pass pass w)
      as (more & rotated & Hrun & Heffs & _ & Hrows & Hfetch & Htimer & _).
    destruct (rotateWebhooks_writes_watermark pass w)
      as (n & rotated' & Hrun' & Hmeta & Hlast).
    rewrite Hrun in Hrun'. injection Hrun' as _ <-.
    eexists _, rotated, (map_to_list (webhooks (db w))).*1.
    split_and!; [exact Hrun | exact Hrows | exact Hmeta | exact Hlast | | done |].
    + rewrite Heffs, !channelsFetched_app, Hfetch. simpl. by rewrite !app_nil_r.
    + intros Hpos Hearly.
      destruct (parseInt_numberToString (passEnd pass) Hpos) as [Hparse Htruthy].
      assert (Hread : bot_meta (db rotated) !! watermarkKey
                      = Some (Js.numberToString (passEnd pass)))
        by (rewrite Hmeta; apply lookup_insert_eq).
      split.
      * unfold Multi.onTimeout. unfold mbind at 1, M_bind at 1. rewrite Hrun.
        apply scheduleRotation_waits_outcome; by rewrite ?Hread.
      * apply scheduleRotation_waits_outcome; unfold restarted; cbn [db];
          by rewrite ?Hread.
Qed.

Lemma rotation_schedule_follows_watermark_witness :
  (∃ after visited,
     Multi.scheduleRotation (Sample.scheduleAt 7000) Sample.twoRows
     = (Returned (Some (7000 + 86400000)), after)
     ∧ (∀ channelId,
          webhooks (db after) !! channelId
          = webhooks (db Sample.twoRows) !! channelId
            ≫= (λ _, rotatedRow (Sample.passOk 7000) channelId))
     ∧ bot_meta (db after) !! watermarkKey = Some (Js.numberToString 7000)
     ∧ channelsFetched (effects after)
       = channelsFetched (effects Sample.twoRows) ++ visited
     ∧ visited ≡ₚ (map_to_list (webhooks (db Sample.twoRows))).*1
     ∧ timersSet (effects after)
       = timersSet (effects Sample.twoRows) ++ [Z.max 0 (7000 + 86400000 - 7000)])
  ∧ Multi.scheduleRotation (Sample.scheduleAt 7000) Sample.rotatedAt5000
    = (Returned (Some 86405000),
       recording Sample.rotatedAt5000 [SetTimeout 86398000])
  ∧ 7000 + Z.max 0 (5000 + 86400000 - 7000) = Z.max (5000 + 86400000) 7000
  ∧ ∃ rotated,
      snd (Multi.rotateWebhooks (Sample.passOk 9000) Sample.twoRows) = rotated
      ∧ Multi.onTimeout (Sample.passOk 9000) (Sample.scheduleAt 9500) Sample.twoRows
        = (Returned (Some (9000 + 86400000)),
           recording rotated [SetTimeout (Z.max 0 (9000 + 86400000 - 9500))]).
Proof.
  destruct (rotation_schedule_follows_watermark (Sample.scheduleAt 7000) Sample.twoRows)
    as (Habsent & _ & _).
  destruct (rotation_schedule_follows_watermark (Sample.scheduleAt 7000)
              Sample.rotatedAt5000) as (_ & Hpresent & _).
  destruct (rotation_schedule_follows_watermark (Sample.scheduleAt 9500) Sample.twoRows)
    as (_ & _ & Hfires).
  split_and!.
  - apply Habsent. reflexivity.
  - destruct (Hpresent 5000 eq_refl eq_refl) as [_ Hwait].
    destruct Hwait as [Heq _]; [simpl; lia |]. exact Heq.
  - destruct (Hpresent 5000 eq_refl eq_refl) as [_ Hwait].
    destruct Hwait as [_ Hdue]; [simpl; lia |]. exact Hdue.
  - destruct (Hfires (Sample.passOk 9000) (Sample.scheduleAt 9500))
      as (n & rotated & visited & Hrun & _ & _ & _ & _ & _ & Hcallback).
    exists rotated. split; [by rewrite Hrun |].
    destruct Hcallback as [Hfire _]; [simpl; lia | simpl; lia |]. exact Hfire.
Defined.

(** ** Edits after a rotation *)

(** X20.  [part_001]: once the timer's callback has rotated a channel
    whose row held the credentials stored with a mapping, the pass has
    deleted that webhook on the platform and given the channel a new row,
    and a later edit or deletion of the original is still mirrored through
    the stored credentials, those of the deleted webhook. *)
Theorem edits_after_rotation_use_the_deleted_webhook
    (pass : RotationAnswers) (answers : ScheduleAnswers) (w : World)
    (flag : bool) (message : Message) (mapping : MessageMapRow) :
  bot (author message) = false →
  message_map (db w) !! messageId message = Some mapping →
  webhooks (db w) !! mapChannelId mapping
  = Some (rowOf (Multi.mappingCredentials mapping)) →
  fetchAnswer pass (mapChannelId mapping) = Fetched →
  let rotated := Multi.dispatch (Multi.Timeout pass answers) w in
  WebhookDelete (Multi.mappingCredentials mapping) ∈ effects rotated
  ∧ effects (Multi.dispatch (Multi.MessageUpdate flag message) rotated)
    = [WebhookEditMessage (Multi.mappingCredentials mapping)
         (webhookMessageId mapping) (messageContent message)]
  ∧ effects (Multi.dispatch (Multi.MessageDelete flag message) rotated)
    = [WebhookDeleteMessage (Multi.mappingCredentials mapping)
         (webhookMessageId mapping);
       DbRun (DeleteMessageMap (messageId message))].
Proof.
  intros Hbot Hmapping Hrow Hfetched rotated.
  set (w0 := {| db := db w; userMessageCounts := userMessageCounts w; effects := [] |}).
  assert (Hmap : message_map (db rotated) = message_map (db w)).
  { assert (Hpass : preserves sameMessageMap
                      (Multi.handler (Multi.Timeout pass answers))).
    { simpl. unfold Multi.onTimeout.
      apply preserves_bind; [apply _ | | intros ?; preserve].
      apply preserves_bind; [apply _ | apply rotateWebhooks_sameMessageMap |].
      intros ?. apply scheduleRotation_sameMessageMap. }
    apply (Hpass w0). }
  split_and!.
  - unfold rotated, Multi.dispatch. fold w0. simpl. unfold Multi.onTimeout.
    destruct (rotateWebhooks_pass pass w0)
      as (more & w1 & Hrun & Heffs & _ & _ & _ & _ & Hdeleted).
    destruct (scheduleRotation_timer answers w1)
      as (next & before & w2 & Hschedule & Heffs2 & _).
    unfold mbind, M_bind. rewrite Hrun, Hschedule. simpl.
    rewrite Heffs2, Heffs. simpl.
    apply elem_of_app. left. apply elem_of_app. left.
    specialize (Hdeleted (mapChannelId mapping)
                  (rowOf (Multi.mappingCredentials mapping)) Hrow Hfetched).
    by destruct mapping.
  - unfold Multi.dispatch at 1. simpl.
    rewrite (messageUpdate_mapped _ _ mapping) by (simpl; congruence). done.
  - unfold Multi.dispatch at 1. simpl.
    rewrite (messageDelete_mapped _ _ mapping) by (simpl; congruence). done.
Qed.

Lemma edits_after_rotation_use_the_deleted_webhook_witness :
  let stored := {| credId := "wh1"; credToken := "tok1" |} in
  let rotated :=
    Multi.dispatch (Multi.Timeout (Sample.passOk 9000) (Sample.scheduleAt 9500))
      Sample.afterChannelRemoved in
  WebhookDelete stored ∈ effects rotated
  ∧ effects (Multi.dispatch (Multi.MessageUpdate true (Sample.original "m1" "c1"))
               rotated)
    = [WebhookEditMessage stored "r1" "hello"]
  ∧ effects (Multi.dispatch (Multi.MessageDelete true (Sample.original "m1" "c1"))
               rotated)
    = [WebhookDeleteMessage stored "r1"; DbRun (DeleteMessageMap "m1")].
Proof.
  apply (edits_after_rotation_use_the_deleted_webhook (Sample.passOk 9000)
           (Sample.scheduleAt 9500) Sample.afterChannelRemoved true
           (Sample.original "m1" "c1")
           {| webhookMessageId := "r1"; mapChannelId := "c1";
              mapWebhookId := "wh1"; mapWebhookToken := "tok1" |});
    reflexivity.
Defined.

(** ** Tokens at rest in [part_000] *)

Lemma tagged_is_prefixed (payload : string) :
  String.prefix "enc:" ("enc:" +:+ payload) = true.
Proof. by destruct payload. Qed.

Section TokensAtRest.

Variable encryptionKey : list byte.
Variable aes256gcmEncrypt : list byte → list byte → list byte → list byte * list byte.
Variable aes256gcmDecrypt :
  list byte → list byte → list byte → list byte → option (list byte).

(** The contract of AES-256-GCM under one key, as for the codec. *)
Hypothesis tag_length :
  ∀ iv plaintext,
    length (snd (aes256gcmEncrypt encryptionKey iv plaintext)) = 16%nat.
Hypothesis deciphers :
  ∀ iv plaintext,
    aes256gcmDecrypt encryptionKey iv
      (snd (aes256gcmEncrypt encryptionKey iv plaintext))
      (fst (aes256gcmEncrypt encryptionKey iv plaintext))
    = Some plaintext.

Local Abbreviation encrypt := (Encrypted.encryptWebhookToken encryptionKey aes256gcmEncrypt).
Local Abbreviation decrypt := (Encrypted.decryptWebhookToken encryptionKey aes256gcmDecrypt).
Local Abbreviation getOrCreate :=
  (Encrypted.getOrCreateWebhook encryptionKey aes256gcmEncrypt aes256gcmDecrypt).

(** The row of a channel holds the credentials [c], the token encrypted. *)
Local Abbreviation holds table channelId c :=
  (∃ row : WebhookRow,
     table !! channelId = Some row
     ∧ webhookId row = credId c
     ∧ decrypt (webhookToken row) = Returned (credToken c)).

Lemma encrypted_is_tagged iv token : String.prefix "enc:" (encrypt iv token) = true.
Proof.
  unfold Encrypted.encryptWebhookToken, Encrypted.ENCRYPTED_TOKEN_PREFIX.
  destruct (aes256gcmEncrypt _ _ _) as [ciphertext authTag].
  apply tagged_is_prefixed.
Qed.


(** Without a row, [getOrCreateWebhook] creates one or gives up. *)
Lemma encrypted_getOrCreateWebhook_fresh channelId migration fresh answers :
  length fresh = 12%nat →
  ∀ w, webhooks (db w) !! channelId = None →
  ∃ r after,
    getOrCreate channelId answers migration fresh w = (Returned r, after)
    ∧ match r with
      | Some c => holds (webhooks (db after)) channelId c
      | None => webhooks (db after) !! channelId = None
      end.
Proof.
  intros Hfresh.
  induction answers as [newId newToken | | next IH]; intros w Hnone;
    cbn [Encrypted.getOrCreateWebhook];
    unfold mbind at 1, M_bind at 1, getDb at 1; rewrite Hnone.
  - unfold_M. rewrite Hnone. simpl. eexists _, _. split; [reflexivity |].
    simpl. eexists. rewrite lookup_insert_eq. split_and!; [done | done |].
    simpl. by apply decrypt_encrypt.
  - unfold_M. eexists _, _. split; [reflexivity | done].
  - unfold try_catch at 1. unfold_M.
    match goal with
    | |- context [Encrypted.getOrCreateWebhook _ _ _ channelId next migration fresh ?w2] =>
        destruct (IH w2) as (r & after & Hcall & Hr);
          [simpl; apply lookup_delete_eq |]
    end.
    exists r, after. by split.
Qed.

Lemma encrypted_getOrCreateWebhook_row channelId migration fresh answers w :
  length migration = 12%nat →
  length fresh = 12%nat →
  ∃ r after,
    getOrCreate channelId answers migration fresh w = (Returned r, after)
    ∧ match r with
      | Some c => holds (webhooks (db after)) channelId c
      | None => webhooks (db after) !! channelId = None
      end.
Proof.
  intros Hmigration Hfresh.
  destruct (webhooks (db w) !! channelId) as [row |] eqn:Hrow;
    [| by apply encrypted_getOrCreateWebhook_fresh].
  destruct (decrypt (webhookToken row)) as [token | error] eqn:Hstored.
  - exists (Some {| credId := webhookId row; credToken := token |}), w.
    split; [| by exists row].
    destruct answers; cbn [Encrypted.getOrCreateWebhook];
      unfold mbind at 1, M_bind at 1, getDb at 1; rewrite Hrow;
      unfold Encrypted.tokenOfRow, Encrypted.run; unfold_M; by rewrite Hstored.
  - destruct (String.prefix "enc:" (webhookToken row)) eqn:Htag.
    + (* the row cannot be decrypted: it is deleted and made anew *)
      assert (Hother : error = DecryptionError false).
      { revert Hstored. unfold Encrypted.decryptWebhookToken,
          Encrypted.ENCRYPTED_TOKEN_PREFIX. rewrite Htag. simpl.
        destruct (aes256gcmDecrypt _ _ _ _); congruence. }
      subst error.
      set (w1 := {| db := withWebhooks (db w) (delete channelId (webhooks (db w)));
                    userMessageCounts := userMessageCounts w;
                    effects := effects w ++ [DbRun (DeleteWebhook channelId)] |}).
      destruct (encrypted_getOrCreateWebhook_fresh channelId migration fresh answers
                  Hfresh w1 (lookup_delete_eq _ _)) as (r & after & Hcall & Hr).
      exists r, after. split; [| done]. rewrite <- Hcall.
      destruct answers; cbn [Encrypted.getOrCreateWebhook];
        unfold mbind at 1, M_bind at 1, getDb at 1; rewrite Hrow;
        unfold mbind at 1, M_bind at 1;
        unfold Encrypted.tokenOfRow, Encrypted.run;
        unfold try_catch at 1; unfold mbind at 1, M_bind at 1; rewrite Hstored;
        unfold mbind at 1, M_bind at 1, db_run at 1;
        unfold mbind at 1, M_bind at 1, emit at 1, commit at 1;
        cbn [execute db effects userMessageCounts]; fold w1;
        unfold mret at 1, M_ret at 1;
        symmetry; unfold mbind at 1, M_bind at 1, getDb at 1;
        (replace (webhooks (db w1) !! channelId) with (@None WebhookRow)
           by (symmetry; apply lookup_delete_eq));
        reflexivity.
    + (* legacy plaintext: the stored text is the token, the row is rewritten *)
      exists (Some {| credId := webhookId row; credToken := webhookToken row |}).
      eexists. split.
      * destruct answers; cbn [Encrypted.getOrCreateWebhook];
          unfold mbind at 1, M_bind at 1, getDb at 1; rewrite Hrow;
          unfold mbind at 1, M_bind at 1;
          rewrite (tokenOfRow_legacy encryptionKey aes256gcmEncrypt aes256gcmDecrypt
                     channelId row migration w Htag);
          reflexivity.
      * simpl. eexists. rewrite lookup_alter_eq, Hrow. simpl.
        split_and!; [done | done |]. simpl. by apply decrypt_encrypt.
Qed.


(** X22.  After a rotation pass of [part_000] no token is stored in the
    clear: every row left in the table is the new webhook of its channel,
    with the new token under the encryption. *)
Theorem encrypted_rotation_leaves_no_plaintext
    (answers : EncryptedRotationAnswers) (w : World) :
  (∀ channelId, length (rotationIv answers channelId) = 12%nat) →
  let after :=
    snd (Encrypted.rotateWebhooks encryptionKey aes256gcmEncrypt aes256gcmDecrypt
           answers w) in
  ∀ channelId row,
    webhooks (db after) !! channelId = Some row →
    ∃ newToken,
      newWebhook (platform answers) channelId = Some (webhookId row, newToken)
      ∧ String.prefix "enc:" (webhookToken row) = true
      ∧ decrypt (webhookToken row) = Returned newToken.
Proof.
  intros Hnonce after channelId row.
  destruct (encrypted_rotateWebhooks_rows encryptionKey aes256gcmEncrypt
              aes256gcmDecrypt answers w) as (n & after' & Hrun & Hrows).
  unfold after. rewrite Hrun. simpl. rewrite Hrows.
  destruct (webhooks (db w) !! channelId) as [old |]; [| done]. simpl.
  unfold encryptedRotatedRow.
  destruct (fetchAnswer (platform answers) channelId); try done.
  assert (Hnew : match newWebhook (platform answers) channelId with
                 | Some (newId, newToken) =>
                     Some {| webhookId := newId;
                             webhookToken := encrypt (rotationIv answers channelId) newToken |}
                 | None => None
                 end = Some row →
                 ∃ newToken,
                   newWebhook (platform answers) channelId = Some (webhookId row, newToken)
                   ∧ String.prefix "enc:" (webhookToken row) = true
                   ∧ decrypt (webhookToken row) = Returned newToken).
  { destruct (newWebhook (platform answers) channelId) as [[newId newToken] |];
      [| done].
    intros [= <-]. exists newToken. simpl.
    split_and!; [done | apply encrypted_is_tagged | by apply decrypt_encrypt]. }
  destruct (decrypt (webhookToken old)) as [token | [code | [|] | |]];
    first [exact Hnew | done].
Qed.

(** X26.  [part_000]: once a call has returned credentials for a channel,
    a further call for that channel decrypts the row and returns the same
    credentials, whatever the platform would answer, and does nothing
    else: nothing is migrated, created or written. *)
Theorem encrypted_getOrCreateWebhook_reuses_the_row
    (channelId : string) (answers again : CreateAnswers)
    (migration fresh migration' fresh' : list byte) (w : World) (c : Credentials) :
  length migration = 12%nat →
  length fresh = 12%nat →
  fst (getOrCreate channelId answers migration fresh w) = Returned (Some c) →
  getOrCreate channelId again migration' fresh'
    (snd (getOrCreate channelId answers migration fresh w))
  = (Returned (Some c), snd (getOrCreate channelId answers migration fresh w)).
Proof.
  intros Hmigration Hfresh Hfirst.
  destruct (encrypted_getOrCreateWebhook_row channelId migration fresh answers w
              Hmigration Hfresh) as (r & after & Hcall & Hr).
  rewrite Hcall in *. simpl in *. injection Hfirst as ->.
  destruct Hr as (row & Hrow & Hid & Htoken).
  destruct again; cbn [Encrypted.getOrCreateWebhook];
    unfold mbind at 1, M_bind at 1, getDb at 1; rewrite Hrow;
    unfold Encrypted.tokenOfRow, Encrypted.run; unfold_M; rewrite Htoken;
    simpl; rewrite Hid; by destruct c.
Qed.

End TokensAtRest.


Lemma encrypted_rotation_leaves_no_plaintext_witness :
  let stored :=
    Encrypted.encryptWebhookToken [] Sample.plainCipher Sample.nonce "newtok" in
  ∃ newToken,
    newWebhook (platform Cases.encryptedPassOk) "c1" = Some ("new", newToken)
    ∧ String.prefix "enc:" stored = true
    ∧ Encrypted.decryptWebhookToken [] Sample.plainDecipher stored = Returned newToken.
Proof.
  apply (encrypted_rotation_leaves_no_plaintext [] Sample.plainCipher
           Sample.plainDecipher (λ _ _, eq_refl) (λ _ _, eq_refl)
           Cases.encryptedPassOk Sample.legacyRow (λ _, eq_refl) "c1"
           {| webhookId := "new";
              webhookToken :=
                Encrypted.encryptWebhookToken [] Sample.plainCipher Sample.nonce
                  "newtok" |}).
  vm_compute. reflexivity.
Defined.

(** ** Commands that are refused *)

(** X23.  A [/webhook] command outside the permitted channels, or with
    neither text nor attachment (an empty text counts as none), gets its
    one reply and nothing else happens: the sender is not counted by the
    rate limiter, no webhook is looked up and no table is written.  So in
    [src/bot.js], where the channel is looked up in the allow-list, and in
    [part_001], where it is looked up in [relay_channels]. *)
Theorem refused_commands_only_get_a_reply
    (allowed : list string) (answers : RelayAnswers) (i : Interaction) (w : World) :
  isCommand i = true →
  commandName i = "webhook" →
  let elsewhere := "Dieser Befehl kann in diesem Kanal nicht verwendet werden." in
  let nothing := "Du musst entweder eine Nachricht oder einen Anhang angeben." in
  (AllowList.includes allowed (interactionChannelId i) = false →
   AllowList.interactionCreate allowed answers i w
   = (Returned tt, recording w [Reply elsewhere]))
  ∧ (AllowList.includes allowed (interactionChannelId i) = true →
     truthy (optionMessage i) = false → truthy (optionAttachment i) = false →
     AllowList.interactionCreate allowed answers i w
     = (Returned tt, recording w [Reply nothing]))
  ∧ (relay_channels (db w) !! interactionChannelId i = None →
     Multi.interactionCreate answers i w
     = (Returned tt, recording w [Reply elsewhere]))
  ∧ (is_Some (relay_channels (db w) !! interactionChannelId i) →
     truthy (optionMessage i) = false → truthy (optionAttachment i) = false →
     Multi.interactionCreate answers i w
     = (Returned tt, recording w [Reply nothing])).
Proof.
  intros Hcmd Hname elsewhere nothing. split_and!.
  - intros Hallowed. unfold AllowList.interactionCreate.
    by rewrite Hcmd, Hname, Hallowed.
  - intros Hallowed Hmessage Hattachment. unfold AllowList.interactionCreate.
    rewrite Hcmd, Hname, Hallowed, Hmessage, Hattachment. by unfold_M.
  - intros Hrow. unfold Multi.interactionCreate, Multi.webhookCommand,
      Multi.isRelayChannel.
    rewrite Hcmd, Hname. unfold_M. by rewrite Hrow.
  - intros [guild Hrow] Hmessage Hattachment.
    unfold Multi.interactionCreate, Multi.webhookCommand, Multi.isRelayChannel.
    rewrite Hcmd, Hname, Hmessage, Hattachment. unfold_M. by rewrite Hrow.
Qed.

Lemma refused_commands_only_get_a_reply_witness :
  AllowList.interactionCreate ["c1"] (Sample.platformOk 0 "r1")
    (Sample.webhook "lobby" "hi") Sample.channelAdded
  = (Returned tt,
     recording Sample.channelAdded
       [Reply "Dieser Befehl kann in diesem Kanal nicht verwendet werden."])
  ∧ AllowList.interactionCreate ["c1"] (Sample.platformOk 0 "r1")
      (Sample.webhook "c1" "") Sample.channelAdded
    = (Returned tt,
       recording Sample.channelAdded
         [Reply "Du musst entweder eine Nachricht oder einen Anhang angeben."])
  ∧ Multi.interactionCreate (Sample.platformOk 0 "r1")
      (Sample.webhook "lobby" "hi") Sample.channelAdded
    = (Returned tt,
       recording Sample.channelAdded
         [Reply "Dieser Befehl kann in diesem Kanal nicht verwendet werden."])
  ∧ Multi.interactionCreate (Sample.platformOk 0 "r1")
      (Sample.webhook "c1" "") Sample.channelAdded
    = (Returned tt,
       recording Sample.channelAdded
         [Reply "Du musst entweder eine Nachricht oder einen Anhang angeben."]).
Proof.
  destruct (refused_commands_only_get_a_reply ["c1"] (Sample.platformOk 0 "r1")
              (Sample.webhook "lobby" "hi") Sample.channelAdded eq_refl eq_refl)
    as (Hbot & _ & Hmulti & _).
  destruct (refused_commands_only_get_a_reply ["c1"] (Sample.platformOk 0 "r1")
              (Sample.webhook "c1" "") Sample.channelAdded eq_refl eq_refl)
    as (_ & Hbot' & _ & Hmulti').
  split_and!.
  - apply Hbot. reflexivity.
  - apply Hbot'; reflexivity.
  - apply Hmulti. reflexivity.
  - apply Hmulti'; [by eexists | reflexivity | reflexivity].
Defined.

(** ** Who is counted *)

(** X24.  [part_001]: the rate-limit map changes by the handling of a
    created message and by nothing else: commands, edits, deletions, the
    start and the timer leave every sender's window as it was. *)
Theorem only_created_messages_are_counted (ev : Multi.Event) (w : World) :
  match ev with Multi.MessageCreate _ _ => False | _ => True end →
  userMessageCounts (Multi.dispatch ev w) = userMessageCounts w.
Proof.
  intros Hev. unfold Multi.dispatch.
  set (w0 := {| db := db w; userMessageCounts := userMessageCounts w; effects := [] |}).
  assert (Hhandler : preserves (keeps counts) (Multi.handler ev)); [| apply (Hhandler w0)].
  assert (Hpass : ∀ pass, preserves (keeps counts) (Multi.rotateWebhooks pass)).
  { intros pass w1. unfold keeps.
    destruct (rotateWebhooks_pass pass w1) as (? & ? & Hrun & _ & Hsame & _).
    by rewrite Hrun. }
  assert (Hschedule : ∀ answers, preserves (keeps counts) (Multi.scheduleRotation answers)).
  { intros answers w1. unfold keeps.
    destruct (scheduleRotation_timer answers w1)
      as (? & ? & ? & Hrun & _ & _ & Hsame).
    by rewrite Hrun. }
  destruct ev as [answers | pass answers | answers i | answers message
                 | editResolves newMessage | deleteMessageResolves message];
    try done; simpl.
  - apply preserves_bind; [apply _ | apply Hschedule | intros ?; keep].
  - unfold Multi.onTimeout.
    apply preserves_bind; [apply _ | | intros ?; keep].
    apply preserves_bind; [apply _ | apply Hpass | intros ?; apply Hschedule].
  - apply part_001_command_never_checks.
  - unfold Multi.messageUpdate. keep.
  - unfold Multi.messageDelete. keep.
Qed.

Lemma only_created_messages_are_counted_witness :
  userMessageCounts
    (Multi.dispatch
       (Multi.InteractionCreate (Sample.platformOk 4 "r5") (Sample.webhook "c1" "hi"))
       (fst (Multi.run Sample.fourMessages Multi.start)))
  = userMessageCounts (fst (Multi.run Sample.fourMessages Multi.start)).
Proof.
  apply (only_created_messages_are_counted
           (Multi.InteractionCreate (Sample.platformOk 4 "r5")
              (Sample.webhook "c1" "hi"))
           (fst (Multi.run Sample.fourMessages Multi.start))).
  exact I.
Defined.

(** ** Mappings are written once *)

#[local] Instance mappingsKept_preorder : PreOrder mappingsKept.
Proof.
  split; [by intros w id mapping | ].
  intros w1 w2 w3 H12 H23 id mapping Hrow. by apply H23, H12.
Qed.

Lemma sameMessageMap_mappingsKept w w' : sameMessageMap w w' → mappingsKept w w'.
Proof. intros Hsame id mapping. unfold sameMessageMap in Hsame. by rewrite Hsame. Qed.

Lemma mappingsKept_db_run s :
  match s with DeleteMessageMap _ => False | _ => True end →
  preserves mappingsKept (db_run s).
Proof.
  intros Hs w id mapping Hrow. unfold db_run, commit, emit, mbind, M_bind. simpl.
  destruct s; try done; simpl; repeat case_match; simplify_eq; simpl; try done.
  rewrite lookup_insert_ne; [done | congruence].
Qed.

(** X25.  [part_001]: a row of the message map, once written, is never
    overwritten or changed; it goes only when the deletion of its original
    is handled.  A second message with an id that is already mapped is
    relayed without touching the row. *)
Theorem mapping_rows_are_written_once
    (ev : Multi.Event) (w : World) (id : string) (mapping : MessageMapRow) :
  match ev with
  | Multi.MessageDelete _ message => messageId message ≠ id
  | _ => True
  end →
  message_map (db w) !! id = Some mapping →
  message_map (db (Multi.dispatch ev w)) !! id = Some mapping.
Proof.
  intros Hev Hrow. unfold Multi.dispatch.
  set (w0 := {| db := db w; userMessageCounts := userMessageCounts w; effects := [] |}).
  destruct ev as [answers | pass answers | answers i | answers message
                 | editResolves newMessage | deleteMessageResolves message].
  - assert (Hsame : preserves sameMessageMap (Multi.handler (Multi.Ready answers))).
    { simpl. apply preserves_bind; [apply _ | | intros ?; preserve].
      apply scheduleRotation_sameMessageMap. }
    by apply (sameMessageMap_mappingsKept _ _ (Hsame w0)).
  - assert (Hsame : preserves sameMessageMap (Multi.handler (Multi.Timeout pass answers))).
    { simpl. unfold Multi.onTimeout.
      apply preserves_bind; [apply _ | | intros ?; preserve].
      apply preserves_bind; [apply _ | apply rotateWebhooks_sameMessageMap |].
      intros ?. apply scheduleRotation_sameMessageMap. }
    by apply (sameMessageMap_mappingsKept _ _ (Hsame w0)).
  - by apply (sameMessageMap_mappingsKept _ _
                (interactionCreate_sameMessageMap answers i w0)).
  - assert (Hkept : preserves mappingsKept (Multi.messageCreate answers message)).
    { unfold Multi.messageCreate, Multi.isRelayChannel.
      preserve;
        first [ by apply mappingsKept_db_run
              | eapply preserves_weaken; [apply sameMessageMap_mappingsKept |];
                first [ apply sameMessageMap_emit
                      | apply sameMessageMap_rateLimited
                      | apply sendWebhookMessage_sameMessageMap ] ]. }
    by apply (Hkept w0).
  - by apply (sameMessageMap_mappingsKept _ _
                (messageUpdate_sameMessageMap editResolves newMessage w0)).
  - simpl. rewrite messageDelete_message_map. simpl.
    by rewrite lookup_delete_ne.
Qed.

Lemma mapping_rows_are_written_once_witness :
  message_map
    (db (Multi.dispatch
           (Multi.MessageCreate (Sample.platformOk 5 "r2") (Sample.original "m1" "c1"))
           (fst (Multi.run Sample.fourMessages Multi.start))))
    !! "m1"
  = Some {| webhookMessageId := "r1"; mapChannelId := "c1";
            mapWebhookId := "wh1"; mapWebhookToken := "tok1" |}.
Proof.
  apply (mapping_rows_are_written_once
           (Multi.MessageCreate (Sample.platformOk 5 "r2") (Sample.original "m1" "c1"))
           (fst (Multi.run Sample.fourMessages Multi.start)) "m1");
    [exact I | reflexivity].
Defined.

Lemma encrypted_getOrCreateWebhook_reuses_the_row_witness :
  Encrypted.getOrCreateWebhook [] Sample.plainCipher Sample.plainDecipher
    "c1" Rejected Sample.nonce Sample.nonce
    (snd (Encrypted.getOrCreateWebhook [] Sample.plainCipher Sample.plainDecipher
            "c1" Rejected Sample.nonce Sample.nonce Sample.legacyRow))
  = (Returned (Some {| credId := "wh1"; credToken := "legacy-token" |}),
     snd (Encrypted.getOrCreateWebhook [] Sample.plainCipher Sample.plainDecipher
            "c1" Rejected Sample.nonce Sample.nonce Sample.legacyRow)).
Proof.
  apply (encrypted_getOrCreateWebhook_reuses_the_row
           [] Sample.plainCipher Sample.plainDecipher
           (λ _ _, eq_refl) (λ _ _, eq_refl)
           "c1" Rejected Rejected Sample.nonce Sample.nonce Sample.nonce Sample.nonce
           Sample.legacyRow);
    reflexivity.
Defined.
